(** * Shallow embedding of omfsi/tacs_component.py

    The OpenMDAO components [TacsSolver], [TacsFunctions] and
    [PrescribedLoad] wrap the TACS structural finite-element engine.  The
    engine itself (assembler, matrix, preconditioner, GMRES, function and
    sensitivity kernels) is an external library: it enters the development
    as an interface ([TacsEngine]) whose operations are parameters.  The
    Python code that moves data between OpenMDAO vectors and engine buffers
    is translated statement by statement.

    numpy arrays are lists of scalars.  The scalar type and its arithmetic
    are parameters as well ([Scalar]); no law of arithmetic is used unless a
    theorem lists it as a hypothesis.  The one float computation on sizes,
    [int(state_size/(node_size/3))], is done on exact rationals (see
    [ndof_of] for where this stands for the doubles of the source).  Python exceptions are
    modelled by an error outcome that keeps the state mutated so far. *)

From stdpp Require Import gmap strings list.
From Stdlib Require Import ZArith QArith Qround.
From Stdlib Require PrimFloat FloatOps SpecFloat Uint63.
Local Close Scope Q_scope.
Local Open Scope nat_scope.

(** ** Python exceptions and the state-and-exception monad *)

Inductive exn : Type :=
| ValueError (msg : string)
| IndexError
| KeyError (name : string)
| ZeroDivisionError.

Inductive outcome (A : Type) : Type :=
| Ok (a : A)
| Raise (e : exn).
Arguments Ok {A} a.
Arguments Raise {A} e.

Definition is_ok {A} (o : outcome A) : bool :=
  match o with Ok _ => true | Raise _ => false end.

#[global] Instance outcome_ret : MRet outcome := λ A a, Ok a.
#[global] Instance outcome_fmap : FMap outcome := λ A B f o,
  match o with Ok a => Ok (f a) | Raise e => Raise e end.
#[global] Instance outcome_bind : MBind outcome := λ A B k o,
  match o with Ok a => k a | Raise e => Raise e end.

(** A method body: runs on a state, returns the state it leaves behind
    together with its result or the exception it raised. *)
Definition M (S A : Type) : Type := S → S * outcome A.

#[global] Instance M_ret S : MRet (M S) := λ A a s, (s, Ok a).
#[global] Instance M_bind S : MBind (M S) := λ A B k m s,
  match m s with
  | (s', Ok a) => k a s'
  | (s', Raise e) => (s', Raise e)
  end.

Definition get {S} : M S S := λ s, (s, Ok s).
Definition gets {S A} (f : S → A) : M S A := λ s, (s, Ok (f s)).
Definition modify {S} (f : S → S) : M S unit := λ s, (f s, Ok ()).
Definition lift {S A} (o : outcome A) : M S A := λ s, (s, o).
Definition raise {S A} (e : exn) : M S A := λ s, (s, Raise e).
Definition when {S} (b : bool) (m : M S unit) : M S unit :=
  if b then m else mret ().

(** [for x in xs: body x] *)
Fixpoint for_ {S A} (xs : list A) (body : A → M S unit) : M S unit :=
  match xs with
  | [] => mret ()
  | x :: xs' => body x ;; for_ xs' body
  end.

(** ** Python numbers *)

(** [a / b] under [from __future__ import division], on exact rationals. *)
Definition truediv (a b : Q) : outcome Q :=
  if Qeq_bool b 0 then Raise ZeroDivisionError else Ok (a / b)%Q.

(** [int(x)]: truncation towards zero. *)
Definition int (x : Q) : Z := Z.quot (Qnum x) (Z.pos (Qden x)).

Definition of_size (n : nat) : Q := inject_Z (Z.of_nat n).

(** [int(state_size/(node_size/3))], the line shared by [TacsSolver.setup]
    and [PrescribedLoad.setup], evaluated on exact rationals.  The source
    divides doubles ([ndof_of_double] below).  The two raise on the same
    sizes, and they return the same value when [node_size] is a multiple
    of 3, where the inner quotient is exact.  For other node sizes the
    double quotient can fall just below an integer the exact one reaches:
    35 states on 7 node coordinates give 14 in doubles and 15 here.  The
    statements on the value of [ndof] are therefore made for node sizes
    that are multiples of 3; the one value used at another size, 7 states
    on 10 node coordinates, is 2 in doubles as well ([7 / (10 / 3) = 2.1]).
    [ndof_of_on_doubles] checks this by evaluation. *)
Definition ndof_of (state_size node_size : nat) : outcome nat :=
  third ← truediv (of_size node_size) 3%Q;
  ratio ← truediv (of_size state_size) third;
  mret (Z.to_nat (int ratio)).

(** *** The same line on doubles

    The line as CPython evaluates it, on binary64 numbers, for sizes below
    [2^63]: a size becomes the nearest double, [/] is the IEEE division
    and raises on a zero divisor, [int] truncates towards zero. *)
Definition double_of_size (n : nat) : PrimFloat.float :=
  PrimFloat.of_uint63 (Uint63.of_Z (Z.of_nat n)).

Definition double_truediv (a b : PrimFloat.float)
  : outcome PrimFloat.float :=
  if PrimFloat.eqb b PrimFloat.zero then Raise ZeroDivisionError
  else Ok (PrimFloat.div a b).

(** [int(x)] of a double; Python's [OverflowError] on an infinity is
    reported under [ValueError] here. *)
Definition double_int (x : PrimFloat.float) : outcome Z :=
  match FloatOps.Prim2SF x with
  | SpecFloat.S754_zero _ => Ok 0%Z
  | SpecFloat.S754_finite s m e =>
      let v := if (0 <=? e)%Z then Z.shiftl (Z.pos m) e
               else Z.shiftr (Z.pos m) (- e) in
      Ok (if s then (- v)%Z else v)
  | SpecFloat.S754_infinity _ =>
      Raise (ValueError "cannot convert float infinity to integer")
  | SpecFloat.S754_nan =>
      Raise (ValueError "cannot convert float NaN to integer")
  end.

Definition ndof_of_double (state_size node_size : nat) : outcome nat :=
  third ← double_truediv (double_of_size node_size) (double_of_size 3);
  ratio ← double_truediv (double_of_size state_size) third;
  n ← double_int ratio;
  mret (Z.to_nat n).

(** Two evaluations of the line return the same number. *)
Definition same_ndof (a b : outcome nat) : bool :=
  match a, b with
  | Ok x, Ok y => x =? y
  | _, _ => false
  end.

(** ** numpy *)

Definition np_sum (l : list nat) : nat := foldr Nat.add 0 l.

(** [np.arange(a, b, dtype=int)] *)
Definition np_arange (a b : nat) : list nat := seq a (b - a).

Class Scalar : Type := {
  F : Type;
  f0 : F;
  f1 : F;
  fadd : F → F → F;
  fsub : F → F → F;
  fmul : F → F → F;
}.

Section numpy.
Context `{Scalar}.

Definition np_zeros (n : nat) : list F := replicate n f0.

(** Broadcasting a one-dimensional array to length [n]: an array of that
    length is taken as it is, a one-element array is repeated, anything
    else is a shape error. *)
Definition broadcast_to (n : nat) (src : list F) : outcome (list F) :=
  if decide (length src = n) then Ok src
  else match src with
       | [x] => Ok (replicate n x)
       | _ => Raise (ValueError "could not broadcast input array")
       end.

(** [dst[:] = src] *)
Definition assign_slice (dst src : list F) : outcome (list F) :=
  broadcast_to (length dst) src.

(** [dst[:] = x] for a scalar [x] *)
Definition fill (dst : list F) (x : F) : list F := replicate (length dst) x.

Definition vadd (a b : list F) : list F := zip_with fadd a b.
Definition vsub (a b : list F) : list F := zip_with fsub a b.

Definition vneg (a : list F) : list F := fsub f0 <$> a.

(** [dst += src] and [dst -= src] *)
Definition iadd (dst src : list F) : outcome (list F) :=
  src' ← broadcast_to (length dst) src; mret (vadd dst src').
Definition isub (dst src : list F) : outcome (list F) :=
  src' ← broadcast_to (length dst) src; mret (vsub dst src').

(** [a * b] for two arrays *)
Definition np_mul (a b : list F) : outcome (list F) :=
  if decide (length a = length b) then Ok (zip_with fmul a b)
  else match a, b with
       | [x], _ => Ok (fmul x <$> b)
       | _, [y] => Ok ((λ x, fmul x y) <$> a)
       | _, _ => Raise (ValueError "operands could not be broadcast together")
       end.

(** [a * s] for a scalar [s] *)
Definition scale (a : list F) (s : F) : list F := (λ x, fmul x s) <$> a.

(** [a[i]] and [a[i] = x] for a non-negative index *)
Definition getitem (a : list F) (i : nat) : outcome F :=
  match a !! i with Some x => Ok x | None => Raise IndexError end.
Definition setitem (a : list F) (i : nat) (x : F) : outcome (list F) :=
  if decide (i < length a) then Ok (<[i:=x]> a) else Raise IndexError.

(** ** OpenMDAO vectors: a dictionary from variable names to arrays *)

(** [name in v] *)
Definition contains (v : gmap string (list F)) (name : string) : bool :=
  bool_decide (is_Some (v !! name)).

(** [v[name]] *)
Definition vec_get (v : gmap string (list F)) (name : string) : outcome (list F) :=
  match v !! name with Some a => Ok a | None => Raise (KeyError name) end.

(** [v[name] = value]: the value is copied into the variable's storage. *)
Definition vec_set (v : gmap string (list F)) (name : string) (value : list F)
  : outcome (gmap string (list F)) :=
  a ← vec_get v name;
  a' ← assign_slice a value;
  mret (<[name:=a']> v).

(** [v[name] += x] and [v[name] -= x] *)
Definition vec_iadd (v : gmap string (list F)) (name : string) (x : list F)
  : outcome (gmap string (list F)) :=
  a ← vec_get v name;
  a' ← iadd a x;
  mret (<[name:=a']> v).
Definition vec_isub (v : gmap string (list F)) (name : string) (x : list F)
  : outcome (gmap string (list F)) :=
  a ← vec_get v name;
  a' ← isub a x;
  mret (<[name:=a']> v).

(** Two vectors hold arrays of the same shapes under the same names. *)
Definition same_shape (d1 d2 : gmap string (list F)) : Prop :=
  ∀ name, length <$> d1 !! name = length <$> d2 !! name.

(** The laws of exact arithmetic that make accumulation independent of
    its order. *)
Record ExactArithmetic : Prop := {
  fadd_comm : ∀ x y, fadd x y = fadd y x;
  fadd_assoc : ∀ x y z, fadd x (fadd y z) = fadd (fadd x y) z;
  fadd_0_r : ∀ x, fadd x f0 = x;
  fsub_fadd : ∀ x y, fsub x y = fadd x (fsub f0 y);
}.
End numpy.

(** ** The TACS engine *)

Section tacs_state.
Context `{Scalar}.

(** What the assembler has been handed so far: the design variables
    ([setDesignVars]), the node coordinates ([setNodes]) and the state
    variables ([setVariables]).  The lengths of [xpts] and [variables] are
    the sizes of the vectors made by [createNodeVec] and [createVec]. *)
Record Tacs : Type := {
  dvs : list F;
  xpts : list F;
  variables : list F;
}.

Definition setDesignVars (x : list F) (t : Tacs) : Tacs :=
  {| dvs := x; xpts := xpts t; variables := variables t |}.
Definition setNodes (x : list F) (t : Tacs) : Tacs :=
  {| dvs := dvs t; xpts := x; variables := variables t |}.
Definition setVariables (x : list F) (t : Tacs) : Tacs :=
  {| dvs := dvs t; xpts := xpts t; variables := x |}.
Definition getNodes (t : Tacs) : list F := xpts t.
Definition createVec (t : Tacs) : list F := np_zeros (length (variables t)).
Definition createNodeVec (t : Tacs) : list F := np_zeros (length (xpts t)).

(** [tacs.functions]: the mass functional is told apart from every other
    functional by [isinstance(func, functions.StructuralMass)]. *)
Inductive Func (OtherFunc : Type) : Type :=
| StructuralMass
| Other (f : OtherFunc).
End tacs_state.
Arguments StructuralMass {OtherFunc}.
Arguments Other {OtherFunc} f.

(** The numerical kernels of the engine.  A kernel that fills a vector it
    is handed takes the previous contents of that vector as its last
    argument and returns the new contents. *)
Class TacsEngine `{Scalar} : Type := {
  Mat : Type;
  PC : Type;
  OtherFunc : Type;
  applyBCs : list F → list F;
  assembleRes : Tacs → list F → list F;
  assembleJacobian : F → F → F → Tacs → Mat;
  factor : Mat → PC;
  mult : Mat → list F → list F → list F;
  solve : Mat → PC → list F → list F → list F;
  evalFunctions : Tacs → list (Func OtherFunc) → list F;
  evalDVSens : Tacs → Func OtherFunc → list F → list F;
  evalXptSens : Tacs → Func OtherFunc → list F → list F;
  evalSVSens : Tacs → Func OtherFunc → list F → list F;
  evalAdjointResProduct : Tacs → list F → list F → list F;
  evalAdjointResXptSensProduct : Tacs → list F → list F → list F;
}.

(** A declared input: its shape and, for a distributed input, the global
    indices it reads ([src_indices]). *)
Record Port : Type := {
  shape : nat;
  src_indices : option (list nat);
}.

(** [comm.allgather(x)]: every rank contributes its local value; each rank
    receives the list of all values, ordered by rank. *)
Definition allgather {A} (job : list A) (local : A → nat) : list nat :=
  local <$> job.

Definition mode_fwd : string := "fwd".
Definition mode_rev : string := "rev".
Definition not_implemented : exn :=
  ValueError "forward mode requested but not implemented".

(** ** class TacsSolver(ImplicitComponent) *)

Module TacsSolver.
Section defs.
Context `{TacsEngine}.

Record t : Type := {
  tacs : Tacs;
  pc : PC;
  mat : Mat;
  res : list F;
  force : list F;
  ans : list F;
  struct_rhs : list F;
  psi_s : list F;
  xpt_sens : list F;
  ndof : nat;
  write_f5 : bool;
  check_partials : bool;
  rank : nat;
}.

Definition set_tacs (f : Tacs → Tacs) (s : t) : t :=
  {| tacs := f (tacs s); pc := pc s; mat := mat s; res := res s;
     force := force s; ans := ans s; struct_rhs := struct_rhs s;
     psi_s := psi_s s; xpt_sens := xpt_sens s; ndof := ndof s;
     write_f5 := write_f5 s; check_partials := check_partials s;
     rank := rank s |}.
Definition set_pc (x : PC) (s : t) : t :=
  {| tacs := tacs s; pc := x; mat := mat s; res := res s;
     force := force s; ans := ans s; struct_rhs := struct_rhs s;
     psi_s := psi_s s; xpt_sens := xpt_sens s; ndof := ndof s;
     write_f5 := write_f5 s; check_partials := check_partials s;
     rank := rank s |}.
Definition set_mat (x : Mat) (s : t) : t :=
  {| tacs := tacs s; pc := pc s; mat := x; res := res s;
     force := force s; ans := ans s; struct_rhs := struct_rhs s;
     psi_s := psi_s s; xpt_sens := xpt_sens s; ndof := ndof s;
     write_f5 := write_f5 s; check_partials := check_partials s;
     rank := rank s |}.
Definition set_res (x : list F) (s : t) : t :=
  {| tacs := tacs s; pc := pc s; mat := mat s; res := x;
     force := force s; ans := ans s; struct_rhs := struct_rhs s;
     psi_s := psi_s s; xpt_sens := xpt_sens s; ndof := ndof s;
     write_f5 := write_f5 s; check_partials := check_partials s;
     rank := rank s |}.
Definition set_force (x : list F) (s : t) : t :=
  {| tacs := tacs s; pc := pc s; mat := mat s; res := res s;
     force := x; ans := ans s; struct_rhs := struct_rhs s;
     psi_s := psi_s s; xpt_sens := xpt_sens s; ndof := ndof s;
     write_f5 := write_f5 s; check_partials := check_partials s;
     rank := rank s |}.
Definition set_ans (x : list F) (s : t) : t :=
  {| tacs := tacs s; pc := pc s; mat := mat s; res := res s;
     force := force s; ans := x; struct_rhs := struct_rhs s;
     psi_s := psi_s s; xpt_sens := xpt_sens s; ndof := ndof s;
     write_f5 := write_f5 s; check_partials := check_partials s;
     rank := rank s |}.
Definition set_psi_s (x : list F) (s : t) : t :=
  {| tacs := tacs s; pc := pc s; mat := mat s; res := res s;
     force := force s; ans := ans s; struct_rhs := struct_rhs s;
     psi_s := x; xpt_sens := xpt_sens s; ndof := ndof s;
     write_f5 := write_f5 s; check_partials := check_partials s;
     rank := rank s |}.
Definition set_xpt_sens (x : list F) (s : t) : t :=
  {| tacs := tacs s; pc := pc s; mat := mat s; res := res s;
     force := force s; ans := ans s; struct_rhs := struct_rhs s;
     psi_s := psi_s s; xpt_sens := x; ndof := ndof s;
     write_f5 := write_f5 s; check_partials := check_partials s;
     rank := rank s |}.

(** The input vector of the component, as [setup] declares it. *)
Record Inputs : Type := {
  dv_struct : list F;
  x_s0 : list F;
  f_s : list F;
}.

(** Everything a method of the component can read or change: the
    component, the vectors OpenMDAO passes in, and the console and files. *)
Record World : Type := {
  self : t;
  outputs : list F;                       (* outputs['u_s'] *)
  residuals : list F;                     (* residuals['u_s'] *)
  d_inputs : gmap string (list F);
  d_outputs : gmap string (list F);
  d_residuals : gmap string (list F);
  stdout : list string;
  files : list string;
}.

Definition set_self (x : t) (w : World) : World :=
  {| self := x; outputs := outputs w; residuals := residuals w;
     d_inputs := d_inputs w; d_outputs := d_outputs w;
     d_residuals := d_residuals w; stdout := stdout w; files := files w |}.
Definition on_self {A} (m : M t A) : M World A := λ w,
  let '(s', o) := m (self w) in (set_self s' w, o).
Definition set_outputs (x : list F) (w : World) : World :=
  {| self := self w; outputs := x; residuals := residuals w;
     d_inputs := d_inputs w; d_outputs := d_outputs w;
     d_residuals := d_residuals w; stdout := stdout w; files := files w |}.
Definition set_residuals (x : list F) (w : World) : World :=
  {| self := self w; outputs := outputs w; residuals := x;
     d_inputs := d_inputs w; d_outputs := d_outputs w;
     d_residuals := d_residuals w; stdout := stdout w; files := files w |}.
Definition set_d_inputs (x : gmap string (list F)) (w : World) : World :=
  {| self := self w; outputs := outputs w; residuals := residuals w;
     d_inputs := x; d_outputs := d_outputs w;
     d_residuals := d_residuals w; stdout := stdout w; files := files w |}.
Definition set_d_outputs (x : gmap string (list F)) (w : World) : World :=
  {| self := self w; outputs := outputs w; residuals := residuals w;
     d_inputs := d_inputs w; d_outputs := x;
     d_residuals := d_residuals w; stdout := stdout w; files := files w |}.
Definition set_d_residuals (x : gmap string (list F)) (w : World) : World :=
  {| self := self w; outputs := outputs w; residuals := residuals w;
     d_inputs := d_inputs w; d_outputs := d_outputs w;
     d_residuals := x; stdout := stdout w; files := files w |}.
Definition print (line : string) (w : World) : World :=
  {| self := self w; outputs := outputs w; residuals := residuals w;
     d_inputs := d_inputs w; d_outputs := d_outputs w;
     d_residuals := d_residuals w; stdout := stdout w ++ [line];
     files := files w |}.
Definition writeToFile (name : string) (w : World) : World :=
  {| self := self w; outputs := outputs w; residuals := residuals w;
     d_inputs := d_inputs w; d_outputs := d_outputs w;
     d_residuals := d_residuals w; stdout := stdout w;
     files := files w ++ [name] |}.

(** The world [w] with component [s] and seed vectors [din], [dout]. *)
Definition frame (w : World) (s : t) (din dout : gmap string (list F))
  : World :=
  {| self := s; outputs := outputs w; residuals := residuals w;
     d_inputs := din; d_outputs := dout; d_residuals := d_residuals w;
     stdout := stdout w; files := files w |}.

(** [initialize]: the flags the constructor fixes. *)
Record Flags : Type := { init_write_f5 : bool; init_check_partials : bool }.
Definition initialize : Flags :=
  {| init_write_f5 := true; init_check_partials := true |}.

(** What [setup] declares to OpenMDAO. *)
Record Declared : Type := {
  component : t;
  inputs_decl : gmap string Port;
  outputs_decl : gmap string (list F);
}.

(** [setup]: [job] lists, by rank, what [tacs_solver_setup(comm)] returns
    on every rank; [irank] is [comm.rank] and [local] the entry of this
    rank. *)
Definition setup (flags : Flags) (job : list (Tacs * Mat * PC * nat))
    (irank : nat) (local : Tacs * Mat * PC * nat) : outcome Declared :=
  let '(tacs, mat, pc, ndv) := local in
  let res := createVec tacs in
  let force := createVec tacs in
  let ans := createVec tacs in
  let struct_rhs := createVec tacs in
  let psi_s := createVec tacs in
  let xpt_sens := createNodeVec tacs in
  let state_size := length ans in
  let node_size := length xpt_sens in
  ndof ← ndof_of state_size node_size;
  let s_list := allgather job (λ l, length (createVec l.1.1.1)) in
  let n_list := allgather job (λ l, length (createNodeVec l.1.1.1)) in
  let s1 := np_sum (take irank s_list) in
  let s2 := np_sum (take (irank + 1) s_list) in
  let n1 := np_sum (take irank n_list) in
  let n2 := np_sum (take (irank + 1) n_list) in
  mret {|
    component :=
      {| tacs := tacs; pc := pc; mat := mat; res := res; force := force;
         ans := ans; struct_rhs := struct_rhs; psi_s := psi_s;
         xpt_sens := xpt_sens; ndof := ndof;
         write_f5 := init_write_f5 flags;
         check_partials := init_check_partials flags; rank := irank |};
    inputs_decl :=
      <["f_s" := {| shape := state_size;
                    src_indices := Some (np_arange s1 s2) |}]>
      (<["x_s0" := {| shape := node_size;
                      src_indices := Some (np_arange n1 n2) |}]>
      (<["dv_struct" := {| shape := ndv; src_indices := None |}]> ∅));
    outputs_decl := <["u_s" := np_zeros state_size]> ∅;
  |}.

Definition _update_internal (inputs : Inputs) (outputs : option (list F))
  : M t unit :=
  modify (set_tacs (setDesignVars (dv_struct inputs)));;
  xpts_array ← gets (λ s, getNodes (tacs s));
  xpts_array ← lift (assign_slice xpts_array (x_s0 inputs));
  modify (set_tacs (setNodes xpts_array));;
  let alpha := f1 in
  let beta := f0 in
  let gamma := f0 in
  xpts_array ← gets (λ s, getNodes (tacs s));
  xpts_array ← lift (assign_slice xpts_array (x_s0 inputs));
  modify (set_tacs (setNodes xpts_array));;
  modify (λ s, set_mat (assembleJacobian alpha beta gamma (tacs s)) s);;
  modify (λ s, set_pc (factor (mat s)) s);;
  match outputs with
  | Some u_s =>
      ans_array ← gets ans;
      ans_array ← lift (assign_slice ans_array u_s);
      modify (set_ans ans_array);;
      modify (λ s, set_ans (applyBCs (ans s)) s);;
      modify (λ s, set_tacs (setVariables (ans s)) s)
  | None => mret ()
  end.

Definition apply_nonlinear (inputs : Inputs) : M World unit :=
  u_s ← gets outputs;
  on_self (_update_internal inputs (Some u_s));;
  on_self (modify (λ s, set_res (fill (res s) f0) s));;
  on_self (modify (λ s, set_res (assembleRes (tacs s) (res s)) s));;
  res_array ← gets (λ w, res (self w));
  res_array ← lift (isub res_array (f_s inputs));
  on_self (modify (set_res res_array));;
  on_self (modify (λ s, set_res (applyBCs (res s)) s));;
  res_array ← gets (λ w, res (self w));
  r ← gets residuals;
  r ← lift (assign_slice r res_array);
  modify (set_residuals r).

Definition solve_nonlinear (inputs : Inputs) : M World unit :=
  on_self (_update_internal inputs None);;
  force_array ← gets (λ w, force (self w));
  force_array ← lift (assign_slice force_array (f_s inputs));
  on_self (modify (set_force force_array));;
  on_self (modify (λ s, set_force (applyBCs (force s)) s));;
  on_self (modify (λ s, set_ans (solve (mat s) (pc s) (force s) (ans s)) s));;
  ans_array ← gets (λ w, ans (self w));
  u_s ← gets outputs;
  u_s ← lift (assign_slice u_s ans_array);
  modify (set_outputs u_s);;
  on_self (modify (λ s, set_tacs (setVariables (ans s)) s));;
  write ← gets (λ w, write_f5 (self w));
  when write (modify (writeToFile "wing.f5")).

Definition solve_linear (mode : string) : M World unit :=
  when (bool_decide (mode = mode_fwd)) (
    check ← gets (λ w, check_partials (self w));
    if (check : bool) then modify (print "solver fwd") : M World unit
    else raise not_implemented);;
  when (bool_decide (mode = mode_rev)) (
    d_out ← gets d_outputs;
    seed ← lift (vec_get d_out "u_s");
    res_array ← gets (λ w, res (self w));
    res_array ← lift (assign_slice res_array seed);
    on_self (modify (set_res res_array));;
    on_self (modify (λ s, set_res (applyBCs (res s)) s));;
    on_self (modify (λ s,
      set_psi_s (solve (mat s) (pc s) (res s) (psi_s s)) s));;
    psi_s_array ← gets (λ w, psi_s (self w));
    d_res ← gets d_residuals;
    d_res ← lift (vec_set d_res "u_s" psi_s_array);
    modify (set_d_residuals d_res)).

(** The body of the double loop of [apply_linear]:
    [res_array[self.ndof*i+j] = d_residuals['u_s'][3*i+j]]. *)
Definition scatter_entry (i j : nat) : M World unit :=
  d_res ← gets d_residuals;
  seed ← lift (vec_get d_res "u_s");
  x ← lift (getitem seed (3 * i + j));
  res_array ← gets (λ w, res (self w));
  n ← gets (λ w, ndof (self w));
  res_array ← lift (setitem res_array (n * i + j) x);
  on_self (modify (set_res res_array)).

(** [apply_linear], reverse mode, under [if 'u_s' in d_outputs]. *)
Definition state_seed : M World unit :=
  u_s ← gets outputs;
  ans_array ← gets (λ w, ans (self w));
  ans_array ← lift (assign_slice ans_array u_s);
  on_self (modify (set_ans ans_array));;
  on_self (modify (λ s, set_tacs (setVariables (ans s)) s));;
  on_self (modify (λ s, set_res (fill (res s) f0) s));;
  on_self (modify (λ s, set_res (mult (mat s) (ans s) (res s)) s));;
  on_self (modify (λ s, set_res (applyBCs (res s)) s));;
  res_array ← gets (λ w, res (self w));
  d_out ← gets d_outputs;
  d_out ← lift (vec_iadd d_out "u_s" res_array);
  modify (set_d_outputs d_out).

(** Under [if 'f_s' in d_inputs]. *)
Definition load_seed (inputs : Inputs) : M World unit :=
  on_self (modify (λ s, set_res (fill (res s) f0) s));;
  nodes ← lift (truediv (of_size (length (x_s0 inputs))) 3%Q);
  for_ (seq 0 (Z.to_nat (int nodes))) (λ i,
    for_ (seq 0 3) (λ j, scatter_entry i j));;
  on_self (modify (λ s, set_res (applyBCs (res s)) s));;
  res_array ← gets (λ w, res (self w));
  d_in ← gets d_inputs;
  d_in ← lift (vec_isub d_in "f_s" res_array);
  modify (set_d_inputs d_in).

(** Under [if 'x_s0' in d_inputs]. *)
Definition node_seed : M World unit :=
  d_res ← gets d_residuals;
  seed ← lift (vec_get d_res "u_s");
  ans_array ← gets (λ w, ans (self w));
  ans_array ← lift (assign_slice ans_array seed);
  on_self (modify (set_ans ans_array));;
  on_self (modify (λ s, set_xpt_sens
    (evalAdjointResXptSensProduct (tacs s) (ans s) (xpt_sens s)) s));;
  xpt_sens_array ← gets (λ w, xpt_sens (self w));
  d_in ← gets d_inputs;
  d_in ← lift (vec_iadd d_in "x_s0" xpt_sens_array);
  modify (set_d_inputs d_in).

(** Under [if 'dv_struct' in d_inputs]. *)
Definition design_seed : M World unit :=
  d_in ← gets d_inputs;
  dv_seed ← lift (vec_get d_in "dv_struct");
  let adj_res_product := np_zeros (length dv_seed) in
  d_res ← gets d_residuals;
  seed ← lift (vec_get d_res "u_s");
  psi_s_array ← gets (λ w, psi_s (self w));
  psi_s_array ← lift (assign_slice psi_s_array seed);
  on_self (modify (set_psi_s psi_s_array));;
  adj_res_product ← gets (λ w,
    evalAdjointResProduct (tacs (self w)) (psi_s (self w)) adj_res_product);
  irank ← gets (λ w, rank (self w));
  when (bool_decide (irank = 0)) (
    d_in ← gets d_inputs;
    d_in ← lift (vec_iadd d_in "dv_struct" adj_res_product);
    modify (set_d_inputs d_in)).

Definition apply_linear (inputs : Inputs) (mode : string) : M World unit :=
  u_s ← gets outputs;
  on_self (_update_internal inputs (Some u_s));;
  when (bool_decide (mode = mode_fwd)) (
    check ← gets (λ w, check_partials (self w));
    if (check : bool) then mret () : M World unit
    else raise not_implemented);;
  when (bool_decide (mode = mode_rev)) (
    d_res ← gets d_residuals;
    when (contains d_res "u_s") (
      d_out ← gets d_outputs;
      when (contains d_out "u_s") state_seed;;
      d_in ← gets d_inputs;
      when (contains d_in "f_s") (load_seed inputs);;
      d_in ← gets d_inputs;
      when (contains d_in "x_s0") node_seed;;
      d_in ← gets d_inputs;
      when (contains d_in "dv_struct") design_seed)).

(** The vectors have the shapes [setup] declares. *)
Record Shaped (inputs : Inputs) (w : World) : Prop := {
  res_shape : length (res (self w)) = length (variables (tacs (self w)));
  force_shape : length (force (self w)) = length (variables (tacs (self w)));
  ans_shape : length (ans (self w)) = length (variables (tacs (self w)));
  psi_s_shape : length (psi_s (self w)) = length (variables (tacs (self w)));
  xpt_sens_shape : length (xpt_sens (self w)) = length (xpts (tacs (self w)));
  x_s0_shape : length (x_s0 inputs) = length (xpts (tacs (self w)));
  f_s_shape : length (f_s inputs) = length (variables (tacs (self w)));
  outputs_shape : length (outputs w) = length (variables (tacs (self w)));
  residuals_shape : length (residuals w) = length (variables (tacs (self w)));
  d_f_s_shape : ∀ v, d_inputs w !! "f_s" = Some v →
    length v = length (variables (tacs (self w)));
  d_x_s0_shape : ∀ v, d_inputs w !! "x_s0" = Some v →
    length v = length (xpts (tacs (self w)));
  d_outputs_shape : ∀ v, d_outputs w !! "u_s" = Some v →
    length v = length (variables (tacs (self w)));
  d_residuals_shape : ∀ v, d_residuals w !! "u_s" = Some v →
    length v = length (variables (tacs (self w)));
}.

(** The state the assembler is in after [_update_internal(inputs, outputs)]. *)
Definition updated (inputs : Inputs) (u_s : list F) : Tacs :=
  {| dvs := dv_struct inputs; xpts := x_s0 inputs;
     variables := applyBCs u_s |}.

(** The matrix [_update_internal] assembles: at the new design variables
    and nodes and at the state variables the assembler held before. *)
Definition assembled (inputs : Inputs) (s : t) : Mat :=
  assembleJacobian f1 f0 f0
    {| dvs := dv_struct inputs; xpts := x_s0 inputs;
       variables := variables (tacs s) |}.

(** The component after [_update_internal(inputs, outputs)]. *)
Definition updated_self (inputs : Inputs) (u_s : list F) (s : t) : t :=
  {| tacs := updated inputs u_s;
     pc := factor (assembled inputs s);
     mat := assembled inputs s;
     res := res s; force := force s; ans := applyBCs u_s;
     struct_rhs := struct_rhs s; psi_s := psi_s s;
     xpt_sens := xpt_sens s; ndof := ndof s;
     write_f5 := write_f5 s; check_partials := check_partials s;
     rank := rank s |}.

(** The component is set up on a mesh with at least three degrees of
    freedom per node, and the state vector has room for every node. *)
Definition Mesh (inputs : Inputs) (s : t) : Prop :=
  3 ≤ ndof s ∧
  ndof s * (length (x_s0 inputs) / 3) ≤ length (variables (tacs s)).

(** The buffer the double loop of [apply_linear] leaves: entry [k] of node
    [k / ndof], component [k mod ndof], holds entry [3 * node + component]
    of the seed when the component is one of the first three, and zero
    otherwise. *)
Definition permuted (ndof nodes : nat) (seed : list F) (size : nat) : list F :=
  (λ k, if decide (k / ndof < nodes ∧ k mod ndof < 3)
        then default f0 (seed !! (3 * (k / ndof) + k mod ndof))
        else f0) <$> seq 0 size.

(** The assembler state the reverse branch of [apply_linear] hands to the
    sensitivity kernels: under [if 'u_s' in d_outputs] the state variables
    are set again, to the output state as it is. *)
Definition linearized (inputs : Inputs) (w : World) : Tacs :=
  if contains (d_outputs w) "u_s"
  then setVariables (outputs w) (updated inputs (outputs w))
  else updated inputs (outputs w).

(** What the reverse branch of [apply_linear] leaves in [d_outputs] and in
    [d_inputs] for the seed [seed = d_residuals['u_s']]. *)
Definition rev_d_outputs (inputs : Inputs) (w : World)
  : gmap string (list F) :=
  alter (λ o, vadd o (applyBCs (mult (assembled inputs (self w)) (outputs w)
                                     (np_zeros (length (res (self w)))))))
        "u_s" (d_outputs w).

Definition load_term (inputs : Inputs) (w : World) (seed : list F) : list F :=
  applyBCs (permuted (ndof (self w)) (length (x_s0 inputs) / 3) seed
                     (length (res (self w)))).
Definition node_term (inputs : Inputs) (w : World) (seed : list F) : list F :=
  evalAdjointResXptSensProduct (linearized inputs w) seed
    (xpt_sens (self w)).
Definition design_term (inputs : Inputs) (w : World) (seed : list F)
    (size : nat) : list F :=
  evalAdjointResProduct (linearized inputs w) seed (np_zeros size).

Definition rev_d_inputs (inputs : Inputs) (w : World) (seed : list F)
  : gmap string (list F) :=
  alter (λ o, if decide (rank (self w) = 0)
              then vadd o (design_term inputs w seed (length o)) else o)
        "dv_struct"
    (alter (λ o, vadd o (node_term inputs w seed)) "x_s0"
       (alter (λ o, vsub o (load_term inputs w seed)) "f_s" (d_inputs w))).

(** What a block of the reverse branch keeps of the component. *)
Record Stable (s s' : t) : Prop := {
  stable_rank : rank s' = rank s;
  stable_ndof : ndof s' = ndof s;
  stable_check : check_partials s' = check_partials s;
  stable_res : length (res s') = length (res s);
  stable_ans : length (ans s') = length (ans s);
  stable_force : length (force s') = length (force s);
  stable_psi_s : length (psi_s s') = length (psi_s s);
  stable_xpt_sens : length (xpt_sens s') = length (xpt_sens s);
}.

(** The reverse branch as an update of a seed vector [d], given what it
    reads from the component. *)
Definition rev_update (nd nodes size irank : nat) (point : Tacs)
    (xs seed : list F) (d : gmap string (list F)) : gmap string (list F) :=
  alter (λ o, if decide (irank = 0)
              then vadd o (evalAdjointResProduct point seed
                             (np_zeros (length o)))
              else o)
        "dv_struct"
    (alter (λ o, vadd o (evalAdjointResXptSensProduct point seed xs)) "x_s0"
       (alter (λ o, vsub o (applyBCs (permuted nd nodes seed size)))
              "f_s" d)).

(** What the reverse branch adds to the seed on input [name]. *)
Definition rev_contribution (inputs : Inputs) (w : World) (seed : list F)
    (name : string) : list F :=
  let size := length (default [] (d_inputs w !! name)) in
  if decide (name = "f_s") then vneg (load_term inputs w seed)
  else if decide (name = "x_s0") then node_term inputs w seed
  else if decide (name = "dv_struct" ∧ rank (self w) = 0)
       then design_term inputs w seed size
       else np_zeros size.

(** [apply_linear] in reverse mode on the residual seeds [d_res]. *)
Definition rev_run (inputs : Inputs) (d_res : gmap string (list F))
    (w : World) : World :=
  (apply_linear inputs mode_rev (set_d_residuals d_res w)).1.

(** [_update_internal(inputs, outputs)] run once more on the world. *)
Definition reassemble (inputs : Inputs) (w : World) : World :=
  (on_self (_update_internal inputs (Some (outputs w))) w).1.
End defs.
End TacsSolver.

(** ** class TacsFunctions(ExplicitComponent) *)

Module TacsFunctions.
Section defs.
Context `{TacsEngine}.

Record t : Type := {
  tacs : Tacs;
  mat : Mat;
  pc : PC;
  ans : list F;
  xpt_sens : list F;
  mass : bool;
  check_partials : bool;
  func_list : list (Func OtherFunc);
}.

Definition set_tacs (f : Tacs → Tacs) (s : t) : t :=
  {| tacs := f (tacs s); mat := mat s; pc := pc s; ans := ans s;
     xpt_sens := xpt_sens s; mass := mass s;
     check_partials := check_partials s; func_list := func_list s |}.
Definition set_mat (x : Mat) (s : t) : t :=
  {| tacs := tacs s; mat := x; pc := pc s; ans := ans s;
     xpt_sens := xpt_sens s; mass := mass s;
     check_partials := check_partials s; func_list := func_list s |}.
Definition set_pc (x : PC) (s : t) : t :=
  {| tacs := tacs s; mat := mat s; pc := x; ans := ans s;
     xpt_sens := xpt_sens s; mass := mass s;
     check_partials := check_partials s; func_list := func_list s |}.
Definition set_ans (x : list F) (s : t) : t :=
  {| tacs := tacs s; mat := mat s; pc := pc s; ans := x;
     xpt_sens := xpt_sens s; mass := mass s;
     check_partials := check_partials s; func_list := func_list s |}.
Definition set_xpt_sens (x : list F) (s : t) : t :=
  {| tacs := tacs s; mat := mat s; pc := pc s; ans := ans s;
     xpt_sens := x; mass := mass s;
     check_partials := check_partials s; func_list := func_list s |}.

Record Inputs : Type := {
  dv_struct : list F;
  x_s0 : list F;
  u_s : list F;
}.

Record World : Type := {
  self : t;
  outputs : gmap string (list F);
  d_inputs : gmap string (list F);
}.

Definition set_self (x : t) (w : World) : World :=
  {| self := x; outputs := outputs w; d_inputs := d_inputs w |}.
Definition on_self {A} (m : M t A) : M World A := λ w,
  let '(s', o) := m (self w) in (set_self s' w, o).

(** The world [w] with component [s] and input seeds [din]. *)
Definition frame (w : World) (s : t) (din : gmap string (list F)) : World :=
  {| self := s; outputs := outputs w; d_inputs := din |}.
Definition set_outputs (x : gmap string (list F)) (w : World) : World :=
  {| self := self w; outputs := x; d_inputs := d_inputs w |}.
Definition set_d_inputs (x : gmap string (list F)) (w : World) : World :=
  {| self := self w; outputs := outputs w; d_inputs := x |}.

(** [initialize]: [self.mass = False], [self.check_partials = True]. *)
Record Flags : Type := { init_mass : bool; init_check_partials : bool }.
Definition initialize : Flags :=
  {| init_mass := false; init_check_partials := true |}.

Record Declared : Type := {
  component : t;
  inputs_decl : gmap string Port;
  outputs_decl : gmap string (list F);
}.

(** The loop of [setup] that takes the mass functional out of the list:
    the state is ([self.mass], declared outputs, [func_no_mass]). *)
Definition split_mass (func : Func OtherFunc)
    (acc : bool * gmap string (list F) * list (Func OtherFunc))
  : bool * gmap string (list F) * list (Func OtherFunc) :=
  let '(mass, outs, func_no_mass) := acc in
  match func with
  | StructuralMass =>
      if mass then (mass, outs, func_no_mass)
      else (true, <["mass" := [f0]]> outs, func_no_mass)
  | Other _ => (mass, outs, func_no_mass ++ [func])
  end.

(** [setup]: [job] lists, by rank, what [tacs_func_setup(comm)] returns. *)
Definition setup (flags : Flags)
    (job : list (list (Func OtherFunc) * Tacs * nat * Mat * PC))
    (irank : nat) (local : list (Func OtherFunc) * Tacs * nat * Mat * PC)
  : Declared :=
  let '(func_list, tacs, ndv, mat, pc) := local in
  let ans := createVec tacs in
  let state_size := length ans in
  let xpt_sens := createNodeVec tacs in
  let node_size := length xpt_sens in
  let s_list := allgather job (λ l, length (createVec l.1.1.1.2)) in
  let n_list := allgather job (λ l, length (createNodeVec l.1.1.1.2)) in
  let s1 := np_sum (take irank s_list) in
  let s2 := np_sum (take (irank + 1) s_list) in
  let n1 := np_sum (take irank n_list) in
  let n2 := np_sum (take (irank + 1) n_list) in
  let '(mass, outs, func_no_mass) :=
    foldl (λ acc func, split_mass func acc)
          (init_mass flags, ∅, []) func_list in
  let outs :=
    if decide (0 < length func_no_mass)
    then <["f_struct" := replicate (length func_no_mass) f1]> outs
    else outs in
  {| component :=
       {| tacs := tacs; mat := mat; pc := pc; ans := ans;
          xpt_sens := xpt_sens; mass := mass;
          check_partials := init_check_partials flags;
          func_list := func_no_mass |};
     inputs_decl :=
       <["u_s" := {| shape := state_size;
                     src_indices := Some (np_arange s1 s2) |}]>
       (<["x_s0" := {| shape := node_size;
                       src_indices := Some (np_arange n1 n2) |}]>
       (<["dv_struct" := {| shape := ndv; src_indices := None |}]> ∅));
     outputs_decl := outs |}.

Definition _update_internal (inputs : Inputs) : M t unit :=
  modify (set_tacs (setDesignVars (dv_struct inputs)));;
  xpts_array ← gets (λ s, getNodes (tacs s));
  xpts_array ← lift (assign_slice xpts_array (x_s0 inputs));
  modify (set_tacs (setNodes xpts_array));;
  let alpha := f1 in
  let beta := f0 in
  let gamma := f0 in
  xpts_array ← gets (λ s, getNodes (tacs s));
  xpts_array ← lift (assign_slice xpts_array (x_s0 inputs));
  modify (set_tacs (setNodes xpts_array));;
  modify (λ s, set_mat (assembleJacobian alpha beta gamma (tacs s)) s);;
  modify (λ s, set_pc (factor (mat s)) s);;
  ans_array ← gets ans;
  ans_array ← lift (assign_slice ans_array (u_s inputs));
  modify (set_ans ans_array);;
  modify (λ s, set_ans (applyBCs (ans s)) s);;
  modify (λ s, set_tacs (setVariables (ans s)) s).

Definition compute (inputs : Inputs) : M World unit :=
  check ← gets (λ w, check_partials (self w));
  when check (on_self (_update_internal inputs));;
  outs ← gets outputs;
  when (contains outs "f_struct") (
    values ← gets (λ w, evalFunctions (tacs (self w)) (func_list (self w)));
    outs ← lift (vec_set outs "f_struct" values);
    modify (set_outputs outs));;
  outs ← gets outputs;
  when (contains outs "mass") (
    let func := StructuralMass in
    values ← gets (λ w, evalFunctions (tacs (self w)) [func]);
    outs ← lift (vec_set outs "mass" values);
    modify (set_outputs outs)).

(** The three accumulation statements of [compute_jacvec_product].  Each
    is written once in the source for the mass and once in the loop over
    the functionals; the two copies differ in the output seed that
    multiplies the sensitivity, [times] here. *)

(** [dvsens = np.zeros(d_inputs['dv_struct'].size)],
    [self.tacs.evalDVSens(func, dvsens)],
    [d_inputs['dv_struct'] += np.array(dvsens) * seed] *)
Definition design_sens (func : Func OtherFunc)
    (times : list F → outcome (list F)) : M World unit :=
  d_in ← gets d_inputs;
  dv_seed ← lift (vec_get d_in "dv_struct");
  let dvsens := np_zeros (length dv_seed) in
  dvsens ← gets (λ w, evalDVSens (tacs (self w)) func dvsens);
  product ← lift (times dvsens);
  d_in ← lift (vec_iadd d_in "dv_struct" product);
  modify (set_d_inputs d_in).

(** [self.tacs.evalXptSens(func, xpt_sens)],
    [d_inputs['x_s0'] += np.array(xpt_sens_array) * seed] *)
Definition node_sens (func : Func OtherFunc)
    (times : list F → outcome (list F)) : M World unit :=
  on_self (modify (λ s,
    set_xpt_sens (evalXptSens (tacs s) func (xpt_sens s)) s));;
  xpt_sens_array ← gets (λ w, xpt_sens (self w));
  product ← lift (times xpt_sens_array);
  d_in ← gets d_inputs;
  d_in ← lift (vec_iadd d_in "x_s0" product);
  modify (set_d_inputs d_in).

(** [prod = self.tacs.createVec()], [self.tacs.evalSVSens(func, prod)],
    [d_inputs['u_s'] += np.array(prod_array) * seed] *)
Definition state_sens (func : Func OtherFunc)
    (times : list F → outcome (list F)) : M World unit :=
  prod_array ← gets (λ w,
    evalSVSens (tacs (self w)) func (createVec (tacs (self w))));
  product ← lift (times prod_array);
  d_in ← gets d_inputs;
  d_in ← lift (vec_iadd d_in "u_s" product);
  modify (set_d_inputs d_in).

(** [x * d_outputs['mass']] and [x * d_outputs['f_struct'][ifunc]] *)
Definition times_mass (d_outputs : gmap string (list F)) (x : list F)
  : outcome (list F) :=
  seed ← vec_get d_outputs "mass"; np_mul x seed.
Definition times_func (d_outputs : gmap string (list F)) (ifunc : nat)
    (x : list F) : outcome (list F) :=
  seeds ← vec_get d_outputs "f_struct";
  seed ← getitem seeds ifunc;
  mret (scale x seed).

(** The part of [compute_jacvec_product] under [if 'mass' in d_outputs]. *)
Definition mass_seeds (d_outputs : gmap string (list F)) : M World unit :=
  let func := StructuralMass in
  d_in ← gets d_inputs;
  when (contains d_in "dv_struct") (design_sens func (times_mass d_outputs));;
  d_in ← gets d_inputs;
  when (contains d_in "x_s0") (node_sens func (times_mass d_outputs)).

(** One turn of the loop under [if 'f_struct' in d_outputs].  The value
    [evalFunctions([func])] returns there is thrown away. *)
Definition func_seeds (d_outputs : gmap string (list F))
    (entry : nat * Func OtherFunc) : M World unit :=
  let '(ifunc, func) := entry in
  d_in ← gets d_inputs;
  when (contains d_in "dv_struct")
    (design_sens func (times_func d_outputs ifunc));;
  d_in ← gets d_inputs;
  when (contains d_in "x_s0")
    (node_sens func (times_func d_outputs ifunc));;
  d_in ← gets d_inputs;
  when (contains d_in "u_s")
    (state_sens func (times_func d_outputs ifunc)).

(** [enumerate(l)] *)
Definition enumerate {A} (l : list A) : list (nat * A) :=
  zip (seq 0 (length l)) l.

Definition compute_jacvec_product (inputs : Inputs)
    (d_outputs : gmap string (list F)) (mode : string) : M World unit :=
  when (bool_decide (mode = mode_fwd)) (
    check ← gets (λ w, check_partials (self w));
    if (check : bool) then mret () : M World unit
    else raise not_implemented);;
  when (bool_decide (mode = mode_rev)) (
    check ← gets (λ w, check_partials (self w));
    when check (on_self (_update_internal inputs));;
    when (contains d_outputs "mass") (mass_seeds d_outputs);;
    when (contains d_outputs "f_struct") (
      funcs ← gets (λ w, func_list (self w));
      for_ (enumerate funcs) (func_seeds d_outputs))).

(** The vectors have the shapes [setup] declares. *)
Record Shaped (inputs : Inputs) (w : World) : Prop := {
  ans_shape : length (ans (self w)) = length (variables (tacs (self w)));
  xpt_sens_shape :
    length (xpt_sens (self w)) = length (xpts (tacs (self w)));
  x_s0_shape : length (x_s0 inputs) = length (xpts (tacs (self w)));
  u_s_shape : length (u_s inputs) = length (variables (tacs (self w)));
  f_struct_shape : ∀ v, outputs w !! "f_struct" = Some v →
    length v = length (func_list (self w));
  mass_shape : ∀ v, outputs w !! "mass" = Some v → length v = 1;
  d_x_s0_shape : ∀ v, d_inputs w !! "x_s0" = Some v →
    length v = length (xpts (tacs (self w)));
  d_u_s_shape : ∀ v, d_inputs w !! "u_s" = Some v →
    length v = length (variables (tacs (self w)));
}.

(** The output seeds have the shapes of the outputs. *)
Record SeedShaped (d_outputs : gmap string (list F)) (s : t) : Prop := {
  d_mass_shape : ∀ v, d_outputs !! "mass" = Some v → length v = 1;
  d_f_struct_shape : ∀ v, d_outputs !! "f_struct" = Some v →
    length v = length (func_list s);
}.

(** The input seeds have the shapes of the inputs of a component whose
    node vector has [nodes] entries and whose state vector [states]. *)
Definition seeds_fit (nodes states : nat) (d : gmap string (list F))
  : Prop :=
  (∀ o, d !! "x_s0" = Some o → nodes = length o) ∧
  (∀ o, d !! "u_s" = Some o → states = length o).

(** The state the assembler is in after [_update_internal(inputs)], and
    the component after it. *)
Definition updated (inputs : Inputs) : Tacs :=
  {| dvs := dv_struct inputs; xpts := x_s0 inputs;
     variables := applyBCs (u_s inputs) |}.
Definition assembled (inputs : Inputs) (s : t) : Mat :=
  assembleJacobian f1 f0 f0
    {| dvs := dv_struct inputs; xpts := x_s0 inputs;
       variables := variables (tacs s) |}.
Definition updated_self (inputs : Inputs) (s : t) : t :=
  {| tacs := updated inputs; mat := assembled inputs s;
     pc := factor (assembled inputs s); ans := applyBCs (u_s inputs);
     xpt_sens := xpt_sens s; mass := mass s;
     check_partials := check_partials s; func_list := func_list s |}.

(** The assembler state [compute] and [compute_jacvec_product] evaluate
    at: [_update_internal] runs only under [check_partials]. *)
Definition point (inputs : Inputs) (s : t) : Tacs :=
  if check_partials s then updated inputs else tacs s.

(** What the derivative of one functional [func], seeded with the scalar
    [seed], adds to the input seeds; [state] tells whether the seed on
    [u_s] takes part (it does not for the mass). *)
Definition func_update (state : bool) (at_ : Tacs) (xs : list F)
    (func : Func OtherFunc) (seed : F) (d : gmap string (list F))
  : gmap string (list F) :=
  (if state
   then alter (λ o, vadd o (scale (evalSVSens at_ func (createVec at_)) seed))
              "u_s"
   else id)
    (alter (λ o, vadd o (scale (evalXptSens at_ func xs) seed)) "x_s0"
       (alter (λ o, vadd o (scale (evalDVSens at_ func
                                      (np_zeros (length o))) seed))
              "dv_struct" d)).

(** The loop over the functionals, numbered from [first]. *)
Definition funcs_update (at_ : Tacs) (xs seeds : list F) (first : nat)
    (funcs : list (Func OtherFunc)) (d : gmap string (list F))
  : gmap string (list F) :=
  foldl (λ d entry, func_update true at_ xs entry.2
                      (default f0 (seeds !! entry.1)) d)
        d (zip (seq first (length funcs)) funcs).

(** What reverse-mode [compute_jacvec_product] leaves in [d_inputs]. *)
Definition jac_update (inputs : Inputs) (s : t)
    (d_outputs : gmap string (list F)) (d : gmap string (list F))
  : gmap string (list F) :=
  let d :=
    match d_outputs !! "mass" with
    | Some seed =>
        func_update false (point inputs s) (xpt_sens s) StructuralMass
          (default f0 (seed !! 0)) d
    | None => d
    end in
  match d_outputs !! "f_struct" with
  | Some seeds =>
      funcs_update (point inputs s) (xpt_sens s) seeds 0 (func_list s) d
  | None => d
  end.

(** Reverse-mode [compute_jacvec_product] on the output seeds
    [d_outputs]. *)
Definition rev_run (inputs : Inputs) (d_outputs : gmap string (list F))
    (w : World) : World :=
  (compute_jacvec_product inputs d_outputs mode_rev w).1.

(** [_update_internal(inputs)] run once more on the world. *)
Definition reassemble (inputs : Inputs) (w : World) : World :=
  (on_self (_update_internal inputs) w).1.

(** [jac_update] as a list of steps, one per functional: whether the
    state seed takes part, the functional, and the scalar output seed. *)
Definition apply_steps (at_ : Tacs) (xs : list F)
    (steps : list (bool * Func OtherFunc * F)) (d : gmap string (list F))
  : gmap string (list F) :=
  foldl (λ d st, func_update st.1.1 at_ xs st.1.2 st.2 d) d steps.

Definition jac_steps (s : t) (d_outputs : gmap string (list F))
  : list (bool * Func OtherFunc * F) :=
  match d_outputs !! "mass" with
  | Some seed => [(false, StructuralMass, default f0 (seed !! 0))]
  | None => []
  end ++
  match d_outputs !! "f_struct" with
  | Some seeds =>
      (λ entry, (true, entry.2, default f0 (seeds !! entry.1)))
      <$> zip (seq 0 (length (func_list s))) (func_list s)
  | None => []
  end.
End defs.
End TacsFunctions.

(** ** class PrescribedLoad(ExplicitComponent) *)

Module PrescribedLoad.
Section defs.
Context `{Scalar}.

Record t : Type := { ndof : nat }.

(** [initialize]: [self.ndof = 0]. *)
Definition initialize : t := {| ndof := 0 |}.

Record Declared : Type := {
  component : t;
  inputs_decl : gmap string Port;
  outputs_decl : gmap string (list F);
}.

(** [setup]: [job] lists, by rank, what [get_tacs()] returns. *)
Definition setup (job : list Tacs) (irank : nat) (local : Tacs)
  : outcome Declared :=
  let tacs := local in
  let xpts := createNodeVec tacs in
  let node_size := length xpts in
  let tmp := createVec tacs in
  let state_size := length tmp in
  ndof ← ndof_of state_size node_size;
  let n_list := allgather job (λ l, length (createNodeVec l)) in
  let n1 := np_sum (take irank n_list) in
  let n2 := np_sum (take (irank + 1) n_list) in
  mret {|
    component := {| ndof := ndof |};
    inputs_decl :=
      <["x_s0" := {| shape := node_size;
                     src_indices := Some (np_arange n1 n2) |}]> ∅;
    outputs_decl := <["f_s" := replicate state_size f1]> ∅;
  |}.

(** [compute]: [outputs['f_s'] = load_function(inputs['x_s0'], self.ndof)] *)
Definition compute (load_function : list F → nat → list F)
    (x_s0 : list F) : M (t * gmap string (list F)) unit :=
  s ← gets fst;
  outs ← gets snd;
  outs ← lift (vec_set outs "f_s" (load_function x_s0 (ndof s)));
  modify (λ w, (w.1, outs)).
End defs.
End PrescribedLoad.

(** ** What the statements below need *)

(** The indices a declared input reads. *)
Definition declared_indices (ports : gmap string Port) (name : string)
  : list nat :=
  match ports !! name with
  | Some port => default [] (src_indices port)
  | None => []
  end.

(** [idx r] is the index range of rank [r] for a global vector whose local
    sizes are [sizes]: each range is the contiguous block that starts where
    the lower ranks end, the ranges taken in rank order enumerate
    [0, sum sizes) exactly once, and every index of a lower rank is below
    every index of a higher rank. *)
Definition partitions (sizes : list nat) (idx : nat → list nat) : Prop :=
  (∀ r s, sizes !! r = Some s → idx r = seq (np_sum (take r sizes)) s) ∧
  concat (idx <$> seq 0 (length sizes)) = seq 0 (np_sum sizes) ∧
  (∀ r r' i j, r < r' → r' < length sizes →
     i ∈ idx r → j ∈ idx r' → i < j).

Section laws.
Context `{TacsEngine}.

Definition state_size (t : Tacs) : nat := length (createVec t).
Definition node_size (t : Tacs) : nat := length (createNodeVec t).

(** The indices rank [r] declares for input [name]. *)
Definition solver_indices (flags : TacsSolver.Flags)
    (job : list (Tacs * Mat * PC * nat)) (name : string) (r : nat)
  : list nat :=
  match job !! r with
  | Some local =>
      match TacsSolver.setup flags job r local with
      | Ok d => declared_indices (TacsSolver.inputs_decl d) name
      | Raise _ => []
      end
  | None => []
  end.
Definition functions_indices (flags : TacsFunctions.Flags)
    (job : list (list (Func OtherFunc) * Tacs * nat * Mat * PC))
    (name : string) (r : nat) : list nat :=
  match job !! r with
  | Some local =>
      declared_indices
        (TacsFunctions.inputs_decl (TacsFunctions.setup flags job r local))
        name
  | None => []
  end.
Definition load_indices (job : list Tacs) (name : string) (r : nat)
  : list nat :=
  match job !! r with
  | Some local =>
      match PrescribedLoad.setup job r local with
      | Ok d => declared_indices (PrescribedLoad.inputs_decl d) name
      | Raise _ => []
      end
  | None => []
  end.

(** The engine works in place on vectors of fixed size: a kernel returns
    as many entries as the vector it was handed has. *)
Record EngineShapes : Prop := {
  applyBCs_length : ∀ v, length (applyBCs v) = length v;
  assembleRes_length : ∀ t v, length (assembleRes t v) = length v;
  mult_length : ∀ m x v, length (mult m x v) = length v;
  solve_length : ∀ m p b v, length (solve m p b v) = length v;
  evalFunctions_length : ∀ t fs, length (evalFunctions t fs) = length fs;
  evalDVSens_length : ∀ t f v, length (evalDVSens t f v) = length v;
  evalXptSens_length : ∀ t f v, length (evalXptSens t f v) = length v;
  evalSVSens_length : ∀ t f v, length (evalSVSens t f v) = length v;
  evalAdjointResProduct_length :
    ∀ t x v, length (evalAdjointResProduct t x v) = length v;
  evalAdjointResXptSensProduct_length :
    ∀ t x v, length (evalAdjointResXptSensProduct t x v) = length v;
}.

(** The engine solves a linear-elastic model exactly: the residual is
    the stiffness matrix applied to the state variables (on the degrees of
    freedom that are not held), the matrix depends on the design variables
    and nodes only, the solver returns the solution of the linear system,
    and that solution keeps the boundary conditions of its right-hand
    side. *)
Record LinearElastic : Prop := {
  residual_is_operator : ∀ t t' v,
    dvs t' = dvs t → xpts t' = xpts t → length v = length (variables t) →
    applyBCs (assembleRes t v)
    = applyBCs (mult (assembleJacobian f1 f0 f0 t') (variables t) v);
  solve_exact : ∀ m b v r,
    length b = length v → length r = length v →
    mult m (solve m (factor m) b v) r = b;
  solve_keeps_BCs : ∀ m b v,
    applyBCs b = b →
    applyBCs (solve m (factor m) b v) = solve m (factor m) b v;
  applyBCs_idem : ∀ v, applyBCs (applyBCs v) = applyBCs v;
  applyBCs_sub : ∀ a b,
    length a = length b →
    applyBCs (vsub a b) = vsub (applyBCs a) (applyBCs b);
  fsub_diag : ∀ x, fsub x x = f0;
}.

(** The mass functional does not read the state variables. *)
Definition MassIgnoresState : Prop :=
  ∀ t t', dvs t = dvs t' → xpts t = xpts t' →
    evalFunctions t [StructuralMass] = evalFunctions t' [StructuralMass].

(** The sensitivity kernels that fill a node vector do not read what the
    vector held before. *)
Record KernelsOverwrite : Prop := {
  adjoint_xpt_overwrites : ∀ t x v v',
    length v = length v' →
    evalAdjointResXptSensProduct t x v = evalAdjointResXptSensProduct t x v';
  xpt_sens_overwrites : ∀ t f v v',
    length v = length v' → evalXptSens t f v = evalXptSens t f v';
}.
End laws.

(** ** A small engine to run the components on

    Integer scalars; every degree of freedom is a unit spring to ground and
    degree of freedom 0 is held, so that the stiffness matrix is the
    identity.  The mass is the sum of the design variables; a functional
    [Other c] is [c] times the sum of the state variables. *)
Module Mock.
Definition scalar : Scalar :=
  {| F := Z; f0 := 0%Z; f1 := 1%Z;
     fadd := Z.add; fsub := Z.sub; fmul := Z.mul |}.

Definition total (v : list Z) : Z := foldr Z.add 0%Z v.

Definition hold (v : list Z) : list Z :=
  match v with
  | [] => []
  | _ :: v' => 0%Z :: v'
  end.

Definition value (t : @Tacs scalar) (f : Func Z) : Z :=
  match f with
  | StructuralMass => total (dvs t)
  | Other c => (c * total (variables t))%Z
  end.

Definition engine : @TacsEngine scalar :=
  @Build_TacsEngine scalar unit unit Z
    (* applyBCs *) hold
    (* assembleRes *) (λ t v, resize (length v) 0%Z (variables t))
    (* assembleJacobian *) (λ _ _ _ _, ())
    (* factor *) (λ _, ())
    (* mult *) (λ _ x v, resize (length v) 0%Z x)
    (* solve *) (λ _ _ b v, resize (length v) 0%Z b)
    (* evalFunctions *) (λ t fs, value t <$> fs)
    (* evalDVSens *) (λ t f v,
       replicate (length v)
         match f with StructuralMass => 1%Z | Other _ => 0%Z end)
    (* evalXptSens *) (λ t f v,
       replicate (length v)
         match f with StructuralMass => 0%Z | Other c => c end)
    (* evalSVSens *) (λ t f v,
       replicate (length v)
         match f with StructuralMass => 0%Z | Other c => c end)
    (* evalAdjointResProduct *) (λ t x v, replicate (length v) (total x))
    (* evalAdjointResXptSensProduct *)
    (λ t x v, replicate (length v) (total x)).

(** A mesh of [n] nodes with [k] degrees of freedom each, at rest. *)
Definition mesh (n k : nat) : @Tacs scalar :=
  @Build_Tacs scalar [1%Z] (replicate (3 * n) 0%Z) (replicate (k * n) 0%Z).



(** *** The components set up on the small engine *)

#[local] Existing Instance scalar.
#[local] Existing Instance engine.

(** Two ranks: two nodes on rank 0, one node on rank 1, four degrees of
    freedom per node, one design variable. *)
Definition solver_job : list (Tacs * unit * unit * nat) :=
  [(mesh 2 4, (), (), 1); (mesh 1 4, (), (), 1)].
Definition functions_job
  : list (list (Func Z) * Tacs * nat * unit * unit) :=
  [([StructuralMass; Other 2%Z; Other 3%Z], mesh 2 4, 1, (), ());
   ([StructuralMass; Other 2%Z; Other 3%Z], mesh 1 4, 1, (), ())].
Definition load_job : list Tacs := [mesh 2 4; mesh 1 4].

(** The solver component [setup] leaves on rank 0 and on rank 1. *)
Definition solver : TacsSolver.t :=
  {| TacsSolver.tacs := mesh 2 4; TacsSolver.pc := ();
     TacsSolver.mat := ();
     TacsSolver.res := replicate 8 0%Z;
     TacsSolver.force := replicate 8 0%Z;
     TacsSolver.ans := replicate 8 0%Z;
     TacsSolver.struct_rhs := replicate 8 0%Z;
     TacsSolver.psi_s := replicate 8 0%Z;
     TacsSolver.xpt_sens := replicate 6 0%Z;
     TacsSolver.ndof := 4; TacsSolver.write_f5 := true;
     TacsSolver.check_partials := true; TacsSolver.rank := 0 |}.
Definition solver1 : TacsSolver.t :=
  {| TacsSolver.tacs := mesh 1 4; TacsSolver.pc := ();
     TacsSolver.mat := ();
     TacsSolver.res := replicate 4 0%Z;
     TacsSolver.force := replicate 4 0%Z;
     TacsSolver.ans := replicate 4 0%Z;
     TacsSolver.struct_rhs := replicate 4 0%Z;
     TacsSolver.psi_s := replicate 4 0%Z;
     TacsSolver.xpt_sens := replicate 3 0%Z;
     TacsSolver.ndof := 4; TacsSolver.write_f5 := true;
     TacsSolver.check_partials := true; TacsSolver.rank := 1 |}.

Definition inputs : TacsSolver.Inputs :=
  {| TacsSolver.dv_struct := [2%Z];
     TacsSolver.x_s0 := [0; 0; 0; 1; 0; 0]%Z;
     TacsSolver.f_s := [7; 1; 2; 3; 4; 5; 6; 7]%Z |}.
Definition inputs1 : TacsSolver.Inputs :=
  {| TacsSolver.dv_struct := [2%Z];
     TacsSolver.x_s0 := [2; 0; 0]%Z;
     TacsSolver.f_s := [7; 1; 2; 3]%Z |}.

(** The seeds of two sibling branches on the residual. *)
Definition seed_a : gmap string (list Z) :=
  <["u_s" := [1; 2; 3; 4; 5; 6; 7; 8]%Z]> ∅.
Definition seed_b : gmap string (list Z) :=
  <["u_s" := [8; 7; 6; 5; 4; 3; 2; 1]%Z]> ∅.

Definition world : TacsSolver.World :=
  {| TacsSolver.self := solver;
     TacsSolver.outputs := [9; 1; 1; 2; 0; 1; 3; 1]%Z;
     TacsSolver.residuals := replicate 8 0%Z;
     TacsSolver.d_inputs :=
       <["f_s" := [1; 1; 1; 1; 1; 1; 1; 1]%Z]>
       (<["x_s0" := [0; 0; 0; 0; 0; 1]%Z]>
       (<["dv_struct" := [5%Z]]> ∅));
     TacsSolver.d_outputs := <["u_s" := [0; 0; 1; 0; 0; 0; 0; 0]%Z]> ∅;
     TacsSolver.d_residuals := seed_a;
     TacsSolver.stdout := []; TacsSolver.files := [] |}.
Definition world1 : TacsSolver.World :=
  {| TacsSolver.self := solver1;
     TacsSolver.outputs := [9; 1; 1; 2]%Z;
     TacsSolver.residuals := replicate 4 0%Z;
     TacsSolver.d_inputs :=
       <["f_s" := [1; 1; 1; 1]%Z]>
       (<["x_s0" := [0; 0; 1]%Z]>
       (<["dv_struct" := [5%Z]]> ∅));
     TacsSolver.d_outputs := <["u_s" := [0; 0; 1; 0]%Z]> ∅;
     TacsSolver.d_residuals := <["u_s" := [1; 2; 3; 4]%Z]> ∅;
     TacsSolver.stdout := []; TacsSolver.files := [] |}.

(** The function component [setup] leaves on rank 0, with the outputs it
    declares. *)
Definition functions : TacsFunctions.t :=
  {| TacsFunctions.tacs := mesh 2 4; TacsFunctions.mat := ();
     TacsFunctions.pc := ();
     TacsFunctions.ans := replicate 8 0%Z;
     TacsFunctions.xpt_sens := replicate 6 0%Z;
     TacsFunctions.mass := true; TacsFunctions.check_partials := true;
     TacsFunctions.func_list := [Other 2%Z; Other 3%Z] |}.
Definition functions_world : TacsFunctions.World :=
  {| TacsFunctions.self := functions;
     TacsFunctions.outputs :=
       <["f_struct" := [1; 1]%Z]> (<["mass" := [0%Z]]> ∅);
     TacsFunctions.d_inputs :=
       <["u_s" := [1; 0; 0; 0; 0; 0; 0; 0]%Z]>
       (<["x_s0" := [0; 0; 0; 0; 0; 1]%Z]>
       (<["dv_struct" := [5%Z]]> ∅)) |}.

(** Two inputs that differ in the state only. *)
Definition at_rest : TacsFunctions.Inputs :=
  {| TacsFunctions.dv_struct := [2%Z];
     TacsFunctions.x_s0 := [0; 0; 0; 1; 0; 0]%Z;
     TacsFunctions.u_s := [0; 0; 0; 0; 0; 0; 0; 0]%Z |}.
Definition displaced : TacsFunctions.Inputs :=
  {| TacsFunctions.dv_struct := [2%Z];
     TacsFunctions.x_s0 := [0; 0; 0; 1; 0; 0]%Z;
     TacsFunctions.u_s := [9; 1; 1; 2; 0; 1; 3; 1]%Z |}.

(** The seeds on the two outputs. *)
Definition seed_mass : gmap string (list Z) := <["mass" := [3%Z]]> ∅.
Definition seed_funcs : gmap string (list Z) :=
  <["f_struct" := [1; 2]%Z]> ∅.
End Mock.

(** ** class TacsMesh(ExplicitComponent) *)

Module TacsMesh.
Section defs.
Context `{Scalar}.

Record t : Type := {
  tacs : Tacs;
  xpts : list F;
}.

Record Declared : Type := {
  component : t;
  outputs_decl : gmap string (list F);
}.

(** [setup]: [local] is what [tacs_mesh_setup(comm)] returns on this rank.
    [self.xpts = tacs.createNodeVec()] followed by
    [self.tacs.getNodes(self.xpts)] leaves the node coordinates in
    [self.xpts]. *)
Definition setup (local : Tacs) : Declared :=
  let tacs := local in
  let xpts := getNodes tacs in
  let node_size := length xpts in
  {| component := {| tacs := tacs; xpts := xpts |};
     outputs_decl := <["x_s0" := replicate node_size f1]> ∅ |}.

(** [compute]: [outputs['x_s0'] = self.xpts.getArray()] *)
Definition compute (s : t) : M (gmap string (list F)) unit :=
  outs ← get;
  outs ← lift (vec_set outs "x_s0" (xpts s));
  modify (λ _, outs).
End defs.
End TacsMesh.

(** ** TacsSolver._design_vector_changed

    The method reads and writes [self.x_save] only, which is the state
    here. *)

Module DesignVector.
Section defs.
Context `{Scalar}.

(** numpy's test of one pair of entries, [|a - b| <= atol + rtol * |b|],
    at the tolerances of the call ([rtol = atol = 1e-10]). *)
Variable isclose : F → F → bool.

(** [np.allclose(a, b, rtol, atol)]: the two arrays are broadcast against
    each other and every pair of entries is tested. *)
Definition np_allclose (a b : list F) : outcome bool :=
  if decide (length a = length b)
  then Ok (forallb id (zip_with isclose a b))
  else match a, b with
       | [x], _ => Ok (forallb (isclose x) b)
       | _, [y] => Ok (forallb (λ x, isclose x y) a)
       | _, _ =>
           Raise (ValueError "operands could not be broadcast together")
       end.

Definition _design_vector_changed (x : list F)
  : M (option (list F)) bool :=
  x_save ← get;
  match x_save with
  | None => modify (λ _, Some x);; mret true
  | Some saved =>
      close ← lift (np_allclose x saved);
      if negb close
      then modify (λ _, Some x);; mret true
      else mret false
  end.
End defs.
End DesignVector.

(** ** What the further statements need *)

(** [isinstance(func, functions.StructuralMass)] *)
Definition is_mass {OtherFunc} (func : Func OtherFunc) : bool :=
  match func with
  | StructuralMass => true
  | Other _ => false
  end.

Section further.
Context `{TacsEngine}.

(** The world OpenMDAO hands to the methods of a [TacsSolver] right after
    [setup]: the component [setup] leaves, the output and the residual at
    the declared value, and seed vectors [din], [dout], [dres]. *)
Definition solver_world (d : TacsSolver.Declared)
    (din dout dres : gmap string (list F)) : TacsSolver.World :=
  let u := default [] (TacsSolver.outputs_decl d !! "u_s") in
  {| TacsSolver.self := TacsSolver.component d;
     TacsSolver.outputs := u;
     TacsSolver.residuals := u;
     TacsSolver.d_inputs := din;
     TacsSolver.d_outputs := dout;
     TacsSolver.d_residuals := dres;
     TacsSolver.stdout := [];
     TacsSolver.files := [] |}.

(** The worlds the double loop of [apply_linear] passes through, started
    from [frame w s din dout]: only [self.res] moves. *)
Definition scattering (w : TacsSolver.World) (s : TacsSolver.t)
    (din dout : gmap string (list F)) (w' : TacsSolver.World) : Prop :=
  ∃ buf, w' = TacsSolver.frame w (TacsSolver.set_res buf s) din dout.

(** What one step of reverse-mode [compute_jacvec_product] adds to the
    seed on input [name], an array of [size] entries.  A step [st] is a
    functional [st.1.2] with its scalar output seed [st.2]; [st.1.1]
    tells whether the seed on [u_s] takes part (it does not for the
    mass).  Inputs other than [dv_struct], [x_s0] and [u_s] receive
    nothing. *)
Definition step_term (at_ : Tacs) (xs : list F) (name : string)
    (size : nat) (st : bool * Func OtherFunc * F) : option (list F) :=
  if decide (name = "dv_struct")
  then Some (scale (evalDVSens at_ st.1.2 (np_zeros size)) st.2)
  else if decide (name = "x_s0")
  then Some (scale (evalXptSens at_ st.1.2 xs) st.2)
  else if decide (name = "u_s")
  then (if st.1.1
        then Some (scale (evalSVSens at_ st.1.2 (createVec at_)) st.2)
        else None)
  else None.

(** The arrays reverse-mode [compute_jacvec_product], called with the
    output seeds [d_outputs], adds one after the other to the seed on
    input [name]: the term of the mass first, then one term per
    functional of the list. *)
Definition jac_contributions (inputs : TacsFunctions.Inputs)
    (s : TacsFunctions.t) (d_outputs : gmap string (list F))
    (name : string) (size : nat) : list (list F) :=
  omap (step_term (TacsFunctions.point inputs s) (TacsFunctions.xpt_sens s)
                  name size)
       (TacsFunctions.jac_steps s d_outputs).

(** The linear solver is the one [factor] builds from the matrix. *)
Definition Factored (s : TacsSolver.t) : Prop :=
  TacsSolver.pc s = factor (TacsSolver.mat s).
End further.

(** ** Further cases on the small engine *)

Module Cases.
#[local] Existing Instance Mock.scalar.
#[local] Existing Instance Mock.engine.

(** Two nodes, at the origin and at [(1, 0, 0)], four states per node. *)
Definition wing : Tacs :=
  @Build_Tacs Mock.scalar [1%Z] [0; 0; 0; 1; 0; 0]%Z (replicate 8 0%Z).


(** Node coordinates of the wrong size. *)
Definition narrow : TacsSolver.Inputs :=
  {| TacsSolver.dv_struct := [2%Z];
     TacsSolver.x_s0 := [0; 1]%Z;
     TacsSolver.f_s := [7; 1; 2; 3; 4; 5; 6; 7]%Z |}.
Definition narrow_functions : TacsFunctions.Inputs :=
  {| TacsFunctions.dv_struct := [2%Z];
     TacsFunctions.x_s0 := [0; 1]%Z;
     TacsFunctions.u_s := [9; 1; 1; 2; 0; 1; 3; 1]%Z |}.

(** Two nodes with two states each: a plane problem. *)
Definition flat_solver : TacsSolver.t :=
  {| TacsSolver.tacs := Mock.mesh 2 2; TacsSolver.pc := ();
     TacsSolver.mat := ();
     TacsSolver.res := replicate 4 0%Z;
     TacsSolver.force := replicate 4 0%Z;
     TacsSolver.ans := replicate 4 0%Z;
     TacsSolver.struct_rhs := replicate 4 0%Z;
     TacsSolver.psi_s := replicate 4 0%Z;
     TacsSolver.xpt_sens := replicate 6 0%Z;
     TacsSolver.ndof := 2; TacsSolver.write_f5 := true;
     TacsSolver.check_partials := true; TacsSolver.rank := 0 |}.
Definition flat_inputs : TacsSolver.Inputs :=
  {| TacsSolver.dv_struct := [2%Z];
     TacsSolver.x_s0 := [0; 0; 0; 1; 0; 0]%Z;
     TacsSolver.f_s := [7; 1; 2; 3]%Z |}.
Definition flat_world : TacsSolver.World :=
  {| TacsSolver.self := flat_solver;
     TacsSolver.outputs := [9; 1; 1; 2]%Z;
     TacsSolver.residuals := replicate 4 0%Z;
     TacsSolver.d_inputs :=
       <["f_s" := [1; 1; 1; 1]%Z]> (<["dv_struct" := [5%Z]]> ∅);
     TacsSolver.d_outputs := <["u_s" := [0; 0; 1; 0]%Z]> ∅;
     TacsSolver.d_residuals := <["u_s" := [1; 2; 3; 4]%Z]> ∅;
     TacsSolver.stdout := []; TacsSolver.files := [] |}.

(** A unit load on every state. *)
Definition unit_load (x_s0 : list Z) (ndof : nat) : list Z :=
  replicate (ndof * (length x_s0 / 3)) 1%Z.

(** The saved design vector of [_design_vector_changed]. *)
Definition saved : option (list Z) := Some [1; 3]%Z.
End Cases.

(** * Properties *)

(** ** Distributed index ranges *)

Lemma np_sum_app (l k : list nat) : np_sum (l ++ k) = np_sum l + np_sum k.
Proof.
  induction l as [|x l IH]; simpl; [done|]. rewrite IH. lia.
Qed.

Lemma np_sum_take_S (l : list nat) (r s : nat) :
  l !! r = Some s → np_sum (take (r + 1) l) = np_sum (take r l) + s.
Proof.
  intros Hr. rewrite Nat.add_1_r. rewrite (take_S_r _ _ _ Hr).
  rewrite np_sum_app. simpl. lia.
Qed.

Lemma np_sum_take_le (l : list nat) (r r' : nat) :
  r ≤ r' → np_sum (take r l) ≤ np_sum (take r' l).
Proof.
  revert r r'. induction l as [|x l IH]; intros r r' Hle.
  - by rewrite !take_nil.
  - destruct r as [|r]; [simpl; lia|].
    destruct r' as [|r']; [lia|]. simpl.
    specialize (IH r r'). lia.
Qed.

Lemma np_arange_block (l : list nat) (r s : nat) :
  l !! r = Some s →
  np_arange (np_sum (take r l)) (np_sum (take (r + 1) l))
  = seq (np_sum (take r l)) s.
Proof.
  intros Hr. unfold np_arange. rewrite (np_sum_take_S _ _ _ Hr).
  f_equal. lia.
Qed.

(** Any family of blocks [seq (sum of the lower sizes) size] partitions. *)
Lemma blocks_partition (sizes : list nat) (idx : nat → list nat) :
  (∀ r s, sizes !! r = Some s → idx r = seq (np_sum (take r sizes)) s) →
  partitions sizes idx.
Proof.
  intros Hidx. split; [done|]. split.
  - clear -Hidx. revert idx Hidx.
    induction sizes as [|s sizes IH] using rev_ind; intros idx Hidx; [done|].
    rewrite length_app, Nat.add_1_r, seq_S, fmap_app, concat_app.
    rewrite np_sum_app. simpl. rewrite Nat.add_0_r, app_nil_r.
    rewrite seq_app. f_equal.
    + rewrite <- (IH idx); [done|].
      intros r x Hr. rewrite (Hidx r x).
      * rewrite take_app_le; [done|].
        apply lookup_lt_Some in Hr. lia.
      * by apply lookup_app_l_Some.
    + rewrite (Hidx (length sizes) s).
      * rewrite take_app_length. done.
      * rewrite lookup_app_r by lia. by rewrite Nat.sub_diag.
  - intros r r' i j Hlt Hr' Hi Hj.
    destruct (lookup_lt_is_Some_2 sizes r') as [s' Hs']; [done|].
    destruct (lookup_lt_is_Some_2 sizes r) as [s Hs]; [lia|].
    rewrite (Hidx _ _ Hs) in Hi. rewrite (Hidx _ _ Hs') in Hj.
    apply list_elem_of_In, in_seq in Hi.
    apply list_elem_of_In, in_seq in Hj.
    pose proof (np_sum_take_S _ _ _ Hs) as Hnext.
    pose proof (np_sum_take_le sizes (r + 1) r' ltac:(lia)). lia.
Qed.

(** ** Degrees of freedom per node *)

Lemma int_floor (q : Q) : (0 <= q)%Q → int q = Qfloor q.
Proof.
  destruct q as [n d]. unfold Qle, int, Qfloor. simpl. intros Hn.
  apply Z.quot_div_nonneg; lia.
Qed.

Lemma of_size_nonneg (n : nat) : (0 <= of_size n)%Q.
Proof. unfold of_size, Qle. simpl. lia. Qed.

Lemma of_size_zero (n : nat) : (of_size n == 0)%Q → n = 0.
Proof. unfold of_size, Qeq. simpl. lia. Qed.

Lemma truediv_ok (a b : Q) : ¬ (b == 0)%Q → truediv a b = Ok (a / b)%Q.
Proof.
  intros Hb. unfold truediv.
  destruct (Qeq_bool b 0) eqn:E; [|done].
  apply Qeq_bool_iff in E. done.
Qed.

Lemma truediv_zero (a b : Q) : (b == 0)%Q → truediv a b = Raise ZeroDivisionError.
Proof.
  intros Hb. unfold truediv. apply Qeq_bool_iff in Hb. by rewrite Hb.
Qed.

Lemma third_nonzero (n : nat) : n ≠ 0 → ¬ (of_size n / 3 == 0)%Q.
Proof.
  intros Hn Hq. apply Hn, of_size_zero.
  assert (Hn3 : (of_size n == of_size n / 3 * 3)%Q) by (field; done).
  rewrite Hn3, Hq. reflexivity.
Qed.

(** In exact arithmetic [int(state_size/(node_size/3))] is the quotient of
    [3 * state_size] by [node_size], rounded down. *)
Lemma ndof_of_quotient (state_size node_size : nat) :
  node_size ≠ 0 →
  ndof_of state_size node_size = Ok (3 * state_size / node_size).
Proof.
  intros Hn. unfold ndof_of.
  rewrite (truediv_ok _ 3%Q) by done. simpl.
  rewrite truediv_ok by by apply third_nonzero. simpl. f_equal.
  assert (Hq : (of_size state_size / (of_size node_size / 3) ==
                inject_Z (Z.of_nat (3 * state_size)) /
                inject_Z (Z.of_nat node_size))%Q).
  { unfold of_size. rewrite Nat2Z.inj_mul, inject_Z_mult. simpl (Z.of_nat 3).
    field. intros Hz. apply Hn. by apply of_size_zero. }
  rewrite int_floor.
  - rewrite (Qfloor_comp _ _ Hq), <- Zdiv_Qdiv, <- Nat2Z.inj_div.
    apply Nat2Z.id.
  - rewrite Hq. apply Qle_shift_div_l.
    + unfold Qlt. simpl. lia.
    + rewrite Qmult_0_l. unfold Qle. simpl. lia.
Qed.

Lemma ndof_of_no_nodes (state_size : nat) :
  ndof_of state_size 0 = Raise ZeroDivisionError.
Proof. reflexivity. Qed.

Lemma ndof_of_exact (n k : nat) : n ≠ 0 → ndof_of (k * n) (3 * n) = Ok k.
Proof.
  intros Hn. rewrite ndof_of_quotient by lia. f_equal.
  replace (3 * (k * n)) with (k * (3 * n)) by lia.
  apply Nat.div_mul. lia.
Qed.

(** Where the exact line stands for the double one.  For every node size
    [3 * n] with [1 <= n <= 100] and every state size below 300 the two
    return the same number, and both raise on an empty mesh.  At 7 states
    on 10 node coordinates both return 2.  At 35 states on 7 node
    coordinates the double line returns 14 and the exact one 15. *)
Lemma ndof_of_on_doubles :
  forallb (λ n, forallb (λ s, same_ndof (ndof_of_double s (3 * n))
                                         (ndof_of s (3 * n)))
                        (seq 0 300))
          (seq 1 100) = true ∧
  ndof_of_double 8 0 = Raise ZeroDivisionError ∧
  ndof_of 8 0 = Raise ZeroDivisionError ∧
  ndof_of_double 7 10 = Ok 2 ∧ ndof_of 7 10 = Ok 2 ∧
  ndof_of_double 35 7 = Ok 14 ∧ ndof_of 35 7 = Ok 15.
Proof.
  split; [vm_compute; reflexivity|].
  repeat split; vm_compute; reflexivity.
Qed.

Section setup.
Context `{TacsEngine}.

Lemma createVec_length (t : Tacs) : length (createVec t) = length (variables t).
Proof. apply length_replicate. Qed.

Lemma createNodeVec_length (t : Tacs) : length (createNodeVec t) = length (xpts t).
Proof. apply length_replicate. Qed.

Lemma declared_indices_insert (ports : gmap string Port) name p :
  declared_indices (<[name:=p]> ports) name = default [] (src_indices p).
Proof. unfold declared_indices. by rewrite lookup_insert_eq. Qed.

Lemma declared_indices_insert_ne (ports : gmap string Port) name name' p :
  name ≠ name' →
  declared_indices (<[name:=p]> ports) name' = declared_indices ports name'.
Proof. intros. unfold declared_indices. by rewrite lookup_insert_ne. Qed.

Lemma solver_setup_ok flags (job : list (Tacs * Mat * PC * nat)) r local :
  node_size local.1.1.1 ≠ 0 →
  ∃ d, TacsSolver.setup flags job r local = Ok d ∧
    TacsSolver.ndof (TacsSolver.component d)
      = 3 * state_size local.1.1.1 / node_size local.1.1.1 ∧
    declared_indices (TacsSolver.inputs_decl d) "f_s"
      = np_arange
          (np_sum (take r (allgather job (λ l, state_size l.1.1.1))))
          (np_sum (take (r + 1) (allgather job (λ l, state_size l.1.1.1)))) ∧
    declared_indices (TacsSolver.inputs_decl d) "x_s0"
      = np_arange
          (np_sum (take r (allgather job (λ l, node_size l.1.1.1))))
          (np_sum (take (r + 1) (allgather job (λ l, node_size l.1.1.1)))).
Proof.
  destruct local as [[[t m] p] ndv]. simpl. intros Hn.
  unfold TacsSolver.setup. fold (state_size t) (node_size t).
  rewrite ndof_of_quotient by done. simpl.
  eexists. split; [reflexivity|]. simpl. split; [done|]. split.
  - by rewrite declared_indices_insert.
  - rewrite declared_indices_insert_ne by done.
    by rewrite declared_indices_insert.
Qed.

Lemma load_setup_ok (job : list Tacs) r (local : Tacs) :
  node_size local ≠ 0 →
  ∃ d, PrescribedLoad.setup job r local = Ok d ∧
    PrescribedLoad.ndof (PrescribedLoad.component d)
      = 3 * state_size local / node_size local ∧
    declared_indices (PrescribedLoad.inputs_decl d) "x_s0"
      = np_arange (np_sum (take r (allgather job node_size)))
                  (np_sum (take (r + 1) (allgather job node_size))).
Proof.
  intros Hn. unfold PrescribedLoad.setup. fold (state_size local) (node_size local).
  rewrite ndof_of_quotient by done. simpl.
  eexists. split; [reflexivity|]. simpl. split; [done|].
  by rewrite declared_indices_insert.
Qed.

Lemma functions_setup_indices flags
    (job : list (list (Func OtherFunc) * Tacs * nat * Mat * PC)) r local :
  let d := TacsFunctions.setup flags job r local in
  declared_indices (TacsFunctions.inputs_decl d) "u_s"
    = np_arange
        (np_sum (take r (allgather job (λ l, state_size l.1.1.1.2))))
        (np_sum (take (r + 1) (allgather job (λ l, state_size l.1.1.1.2)))) ∧
  declared_indices (TacsFunctions.inputs_decl d) "x_s0"
    = np_arange
        (np_sum (take r (allgather job (λ l, node_size l.1.1.1.2))))
        (np_sum (take (r + 1) (allgather job (λ l, node_size l.1.1.1.2)))).
Proof.
  destruct local as [[[[fs t] ndv] m] p]. unfold TacsFunctions.setup.
  destruct (foldl _ _ _) as [[ms outs] fnm]. simpl. split.
  - by rewrite declared_indices_insert.
  - rewrite declared_indices_insert_ne by done.
    by rewrite declared_indices_insert.
Qed.

Lemma allgather_lookup {A} (job : list A) (f : A → nat) r s :
  allgather job f !! r = Some s → ∃ l, job !! r = Some l ∧ s = f l.
Proof.
  unfold allgather. rewrite list_lookup_fmap.
  destruct (job !! r) as [l|]; simpl; [|done].
  intros [= <-]. eauto.
Qed.

(** C1.  On every rank, [setup] declares for a distributed input the
    index range [np.arange(s1, s2)] with [s1] the sum of the local sizes of
    the lower ranks and [s2] that sum plus the rank's own size.  For any
    number of ranks and any local sizes these ranges are contiguous
    blocks, ordered by rank and disjoint, and in rank order they enumerate
    [0, sum of the sizes) exactly once.  [TacsFunctions.setup] computes
    them for any sizes; [TacsSolver.setup] and [PrescribedLoad.setup]
    first derive [ndof], which needs a rank to have a node. *)
Theorem setup_ranges_partition :
  (∀ flags (job : list (list (Func OtherFunc) * Tacs * nat * Mat * PC)),
     partitions (allgather job (λ l, state_size l.1.1.1.2))
                (functions_indices flags job "u_s") ∧
     partitions (allgather job (λ l, node_size l.1.1.1.2))
                (functions_indices flags job "x_s0")) ∧
  (∀ flags (job : list (Tacs * Mat * PC * nat)),
     Forall (λ l, node_size l.1.1.1 ≠ 0) job →
     Forall (λ r, ∃ l, job !! r = Some l ∧
               is_ok (TacsSolver.setup flags job r l) = true)
            (seq 0 (length job)) ∧
     partitions (allgather job (λ l, state_size l.1.1.1))
                (solver_indices flags job "f_s") ∧
     partitions (allgather job (λ l, node_size l.1.1.1))
                (solver_indices flags job "x_s0")) ∧
  (∀ job : list Tacs,
     Forall (λ l, node_size l ≠ 0) job →
     Forall (λ r, ∃ l, job !! r = Some l ∧
               is_ok (PrescribedLoad.setup job r l) = true)
            (seq 0 (length job)) ∧
     partitions (allgather job node_size) (load_indices job "x_s0")).
Proof.
  split; [|split].
  - intros flags job. split; apply blocks_partition; intros r s Hs;
      destruct (allgather_lookup _ _ _ _ Hs) as (l & Hl & ->);
      unfold functions_indices; rewrite Hl;
      destruct (functions_setup_indices flags job r l) as [Hu Hx].
    + rewrite Hu. by apply np_arange_block.
    + rewrite Hx. by apply np_arange_block.
  - intros flags job Hjob. rewrite Forall_lookup in Hjob. split; [|split].
    + apply Forall_forall. intros r Hr.
      apply list_elem_of_In, in_seq in Hr.
      destruct (lookup_lt_is_Some_2 job r) as [l Hl]; [lia|].
      exists l. split; [done|].
      destruct (solver_setup_ok flags job r l (Hjob _ _ Hl)) as (d & -> & _).
      done.
    + apply blocks_partition. intros r s Hs.
      destruct (allgather_lookup _ _ _ _ Hs) as (l & Hl & ->).
      unfold solver_indices. rewrite Hl.
      destruct (solver_setup_ok flags job r l (Hjob _ _ Hl))
        as (d & -> & _ & Hf & _).
      rewrite Hf. by apply np_arange_block.
    + apply blocks_partition. intros r s Hs.
      destruct (allgather_lookup _ _ _ _ Hs) as (l & Hl & ->).
      unfold solver_indices. rewrite Hl.
      destruct (solver_setup_ok flags job r l (Hjob _ _ Hl))
        as (d & -> & _ & _ & Hx).
      rewrite Hx. by apply np_arange_block.
  - intros job Hjob. rewrite Forall_lookup in Hjob. split.
    + apply Forall_forall. intros r Hr.
      apply list_elem_of_In, in_seq in Hr.
      destruct (lookup_lt_is_Some_2 job r) as [l Hl]; [lia|].
      exists l. split; [done|].
      destruct (load_setup_ok job r l (Hjob _ _ Hl)) as (d & -> & _).
      done.
    + apply blocks_partition. intros r s Hs.
      destruct (allgather_lookup _ _ _ _ Hs) as (l & Hl & ->).
      unfold load_indices. rewrite Hl.
      destruct (load_setup_ok job r l (Hjob _ _ Hl)) as (d & -> & _ & Hx).
      rewrite Hx. by apply np_arange_block.
Qed.

End setup.

(** ** numpy and the monad *)

Section numpy_facts.
Context `{Scalar}.

Lemma broadcast_to_same (n : nat) (src : list F) :
  length src = n → broadcast_to n src = Ok src.
Proof. intros Hn. unfold broadcast_to. by rewrite decide_True. Qed.

Lemma broadcast_to_length (n : nat) (src x : list F) :
  broadcast_to n src = Ok x → length x = n.
Proof.
  unfold broadcast_to. destruct (decide _) as [Hn|Hn].
  - by intros [= <-].
  - destruct src as [|y [|z src]]; try done.
    intros [= <-]. apply length_replicate.
Qed.

Lemma broadcast_to_idem (n : nat) (src x : list F) :
  broadcast_to n src = Ok x → broadcast_to (length x) src = Ok x.
Proof.
  intros Hx. by rewrite (broadcast_to_length _ _ _ Hx).
Qed.

Lemma assign_slice_same (dst src : list F) :
  length src = length dst → assign_slice dst src = Ok src.
Proof. apply broadcast_to_same. Qed.

Lemma assign_slice_length (dst src x : list F) :
  assign_slice dst src = Ok x → length x = length dst.
Proof. apply broadcast_to_length. Qed.

Lemma assign_slice_idem (dst src x : list F) :
  assign_slice dst src = Ok x → assign_slice x src = Ok x.
Proof. apply broadcast_to_idem. Qed.

Lemma assign_slice_resized (dst dst' src : list F) :
  length dst = length dst' → assign_slice dst src = assign_slice dst' src.
Proof. unfold assign_slice. by intros ->. Qed.

Lemma iadd_same (dst src : list F) :
  length src = length dst → iadd dst src = Ok (vadd dst src).
Proof. intros Hl. unfold iadd. by rewrite broadcast_to_same. Qed.

Lemma isub_same (dst src : list F) :
  length src = length dst → isub dst src = Ok (vsub dst src).
Proof. intros Hl. unfold isub. by rewrite broadcast_to_same. Qed.

Lemma vadd_length (a b : list F) :
  length b = length a → length (vadd a b) = length a.
Proof. intros Hl. unfold vadd. rewrite length_zip_with. lia. Qed.

Lemma vsub_length (a b : list F) :
  length b = length a → length (vsub a b) = length a.
Proof. intros Hl. unfold vsub. rewrite length_zip_with. lia. Qed.

Lemma np_zeros_length (n : nat) : length (np_zeros n) = n.
Proof. apply length_replicate. Qed.

Lemma fill_length (a : list F) (x : F) : length (fill a x) = length a.
Proof. apply length_replicate. Qed.

Lemma contains_Some (v : gmap string (list F)) name a :
  v !! name = Some a → contains v name = true.
Proof. intros Hv. unfold contains. apply bool_decide_eq_true_2. eauto. Qed.

Lemma contains_None (v : gmap string (list F)) name :
  v !! name = None → contains v name = false.
Proof.
  intros Hv. unfold contains. apply bool_decide_eq_false_2.
  rewrite Hv. by intros [? ?].
Qed.

Lemma contains_insert_other (v : gmap string (list F)) name name' a :
  is_Some (v !! name) → contains (<[name:=a]> v) name' = contains v name'.
Proof.
  intros [b Hb]. unfold contains. apply bool_decide_ext.
  destruct (decide (name = name')) as [<-|Hne].
  - rewrite lookup_insert_eq, Hb. split; eauto.
  - by rewrite lookup_insert_ne.
Qed.

Lemma vec_iadd_same (v : gmap string (list F)) name a x :
  v !! name = Some a → length x = length a →
  vec_iadd v name x = Ok (<[name := vadd a x]> v).
Proof.
  intros Hv Hl. unfold vec_iadd, vec_get. rewrite Hv. simpl.
  by rewrite iadd_same.
Qed.

Lemma vec_isub_same (v : gmap string (list F)) name a x :
  v !! name = Some a → length x = length a →
  vec_isub v name x = Ok (<[name := vsub a x]> v).
Proof.
  intros Hv Hl. unfold vec_isub, vec_get. rewrite Hv. simpl.
  by rewrite isub_same.
Qed.

Lemma vec_set_same (v : gmap string (list F)) name a x :
  v !! name = Some a → length x = length a →
  vec_set v name x = Ok (<[name := x]> v).
Proof.
  intros Hv Hl. unfold vec_set, vec_get. rewrite Hv. simpl.
  by rewrite assign_slice_same.
Qed.
End numpy_facts.

(** Closes a goal about the length of a vector from the shape facts in
    the context. *)
Ltac shape_solve :=
  try done; try congruence;
  try (let Hl := fresh in
       intros ? Hl;
       repeat match goal with
         | Hs : ∀ v, _ !! _ = Some v → _ |- _ =>
             try rewrite (Hs _ Hl); clear Hs
         end;
       congruence).

Ltac unfold_monad :=
  unfold mbind, M_bind, mret, M_ret, gets, modify, lift, raise, when.

(** ** TacsSolver *)

Section solver.
Context `{TacsEngine}.
Import TacsSolver.

Lemma solver_t_ext (s1 s2 : t) :
  tacs s1 = tacs s2 → pc s1 = pc s2 → mat s1 = mat s2 → res s1 = res s2 →
  force s1 = force s2 → ans s1 = ans s2 → struct_rhs s1 = struct_rhs s2 →
  psi_s s1 = psi_s s2 → xpt_sens s1 = xpt_sens s2 → ndof s1 = ndof s2 →
  write_f5 s1 = write_f5 s2 → check_partials s1 = check_partials s2 →
  rank s1 = rank s2 → s1 = s2.
Proof.
  destruct s1, s2. simpl.
  by intros -> -> -> -> -> -> -> -> -> -> -> -> ->.
Qed.

Lemma solver_World_ext (w1 w2 : World) :
  self w1 = self w2 → outputs w1 = outputs w2 →
  residuals w1 = residuals w2 → d_inputs w1 = d_inputs w2 →
  d_outputs w1 = d_outputs w2 → d_residuals w1 = d_residuals w2 →
  stdout w1 = stdout w2 → files w1 = files w2 → w1 = w2.
Proof. destruct w1, w2. simpl. by intros -> -> -> -> -> -> -> ->. Qed.

(** *** What the methods leave alone *)

Lemma on_self_frame {A} (m : M t A) (w : World) :
  let w' := (on_self m w).1 in
  outputs w' = outputs w ∧ residuals w' = residuals w ∧
  d_inputs w' = d_inputs w ∧ d_outputs w' = d_outputs w ∧
  d_residuals w' = d_residuals w ∧ stdout w' = stdout w ∧
  files w' = files w.
Proof. unfold on_self. destruct (m (self w)) as [s' o]. done. Qed.

Lemma update_frame (inputs : Inputs) (u : option (list F)) (s : t) :
  let s' := (_update_internal inputs u s).1 in
  check_partials s' = check_partials s ∧ write_f5 s' = write_f5 s ∧
  rank s' = rank s ∧ ndof s' = ndof s.
Proof.
  unfold _update_internal. unfold_monad. simpl.
  destruct (assign_slice _ _) as [x|e]; simpl; [|done].
  destruct (assign_slice _ _) as [x'|e]; simpl; [|done].
  destruct u as [u|]; simpl; [|done].
  destruct (assign_slice _ _) as [a|e]; simpl; done.
Qed.

(** *** [_update_internal] on vectors of the declared shapes *)

Lemma update_ok (inputs : Inputs) (u : list F) (s : t) :
  length (x_s0 inputs) = length (xpts (tacs s)) →
  length u = length (ans s) →
  _update_internal inputs (Some u) s = (updated_self inputs u s, Ok ()).
Proof.
  intros Hx Hu. unfold _update_internal. unfold_monad. simpl.
  unfold getNodes. rewrite (assign_slice_same _ _ Hx). simpl.
  rewrite assign_slice_same by done. simpl.
  rewrite (assign_slice_same _ _ Hu). simpl. done.
Qed.

Lemma on_self_update_ok (inputs : Inputs) (w : World) :
  Shaped inputs w →
  on_self (_update_internal inputs (Some (outputs w))) w
  = (set_self (updated_self inputs (outputs w) (self w)) w, Ok ()).
Proof.
  intros Hw. unfold on_self.
  by rewrite update_ok by (destruct Hw; congruence).
Qed.

Lemma update_no_state_ok (inputs : Inputs) (s : t) :
  length (x_s0 inputs) = length (xpts (tacs s)) →
  _update_internal inputs None s =
    (set_pc (factor (assembled inputs s))
       (set_mat (assembled inputs s)
          (set_tacs (λ t, setNodes (x_s0 inputs)
                            (setDesignVars (dv_struct inputs) t)) s)),
     Ok ()).
Proof.
  intros Hx. unfold _update_internal. unfold_monad. simpl.
  unfold getNodes. rewrite (assign_slice_same _ _ Hx). simpl.
  rewrite assign_slice_same by done. simpl. done.
Qed.

Lemma on_self_update_no_state_ok (inputs : Inputs) (w : World) :
  Shaped inputs w →
  on_self (_update_internal inputs None) w
  = (set_self
       (set_pc (factor (assembled inputs (self w)))
          (set_mat (assembled inputs (self w))
             (set_tacs (λ t, setNodes (x_s0 inputs)
                               (setDesignVars (dv_struct inputs) t))
                       (self w)))) w,
     Ok ()).
Proof.
  intros Hw. unfold on_self.
  by rewrite update_no_state_ok by (destruct Hw; congruence).
Qed.

(** C10.  In reverse mode, when [d_residuals] has no entry ['u_s'],
    [apply_linear] leaves [d_inputs] and [d_outputs] as they were, whether
    it returns or raises. *)
Theorem apply_linear_without_state_seed (inputs : Inputs) (w : World) :
  d_residuals w !! "u_s" = None →
  d_inputs (apply_linear inputs mode_rev w).1 = d_inputs w ∧
  d_outputs (apply_linear inputs mode_rev w).1 = d_outputs w.
Proof.
  intros Hseed. unfold apply_linear. unfold_monad. simpl.
  pose proof (on_self_frame (_update_internal inputs (Some (outputs w))) w)
    as (_ & _ & Hin & Hout & Hres & _).
  destruct (on_self _ w) as [w' [[]|e]]; simpl in *; [|done].
  rewrite Hres, (contains_None _ _ Hseed). done.
Qed.

Lemma update_shaped (HS : EngineShapes) (inputs : Inputs) (w : World) :
  Shaped inputs w →
  Shaped inputs (on_self (_update_internal inputs (Some (outputs w))) w).1.
Proof.
  intros Hw. rewrite on_self_update_ok by done. simpl.
  destruct Hw. split; simpl; rewrite ?(applyBCs_length HS); shape_solve.
Qed.

End solver.

Ltac solver_norm :=
  cbv beta iota zeta delta
    [mbind M_bind mret M_ret gets modify lift raise when id
     TacsSolver.on_self TacsSolver.set_self TacsSolver.set_outputs
     TacsSolver.set_residuals TacsSolver.set_d_inputs
     TacsSolver.set_d_outputs TacsSolver.set_d_residuals TacsSolver.print
     TacsSolver.writeToFile TacsSolver.frame
     TacsSolver.set_tacs TacsSolver.set_pc TacsSolver.set_mat
     TacsSolver.set_res TacsSolver.set_force TacsSolver.set_ans
     TacsSolver.set_psi_s TacsSolver.set_xpt_sens
     TacsSolver.self TacsSolver.outputs TacsSolver.residuals
     TacsSolver.d_inputs TacsSolver.d_outputs TacsSolver.d_residuals
     TacsSolver.stdout TacsSolver.files
     TacsSolver.tacs TacsSolver.pc TacsSolver.mat TacsSolver.res
     TacsSolver.force TacsSolver.ans TacsSolver.struct_rhs TacsSolver.psi_s
     TacsSolver.xpt_sens TacsSolver.ndof TacsSolver.write_f5
     TacsSolver.check_partials TacsSolver.rank
     setDesignVars setNodes setVariables getNodes dvs xpts variables
     TacsSolver.updated TacsSolver.updated_self TacsSolver.assembled
     fst snd].

(** Two runs are compared field by field, so that each field is computed
    on its own. *)
Ltac world_eq :=
  f_equal; apply solver_World_ext; simpl; try reflexivity;
  try (apply solver_t_ext; simpl; reflexivity).

Section solver_residual.
Context `{TacsEngine}.
Import TacsSolver.

(** *** [apply_nonlinear] and [solve_nonlinear] *)

(** The residual [apply_nonlinear] stores. *)
Lemma apply_nonlinear_run (HS : EngineShapes) (inputs : Inputs) (w : World) :
  Shaped inputs w →
  let R := applyBCs (vsub (assembleRes (updated inputs (outputs w))
                                       (np_zeros (length (res (self w)))))
                          (f_s inputs)) in
  apply_nonlinear inputs w
  = (set_residuals R
       (set_self (set_res R (updated_self inputs (outputs w) (self w))) w),
     Ok ()).
Proof.
  intros Hw R.
  assert (Hx : length (x_s0 inputs) = length (xpts (tacs (self w))))
    by (destruct Hw; congruence).
  assert (Hu : length (outputs w) = length (ans (self w)))
    by (destruct Hw; congruence).
  assert (Hf : length (f_s inputs) = length (res (self w)))
    by (destruct Hw; congruence).
  assert (Hr : length (res (self w)) = length (residuals w))
    by (destruct Hw; congruence).
  clear Hw. subst R. unfold apply_nonlinear, _update_internal.
  destruct w as [s out rs di do dr so fi]. destruct s as [[]].
  revert Hx Hu Hf Hr. solver_norm. intros Hx Hu Hf Hr.
  rewrite (assign_slice_same _ _ Hx). solver_norm.
  rewrite assign_slice_same by reflexivity. solver_norm.
  rewrite (assign_slice_same _ _ Hu). solver_norm.
  rewrite isub_same
    by (by rewrite (assembleRes_length HS), fill_length).
  solver_norm.
  rewrite assign_slice_same; [done|].
  rewrite (applyBCs_length HS), vsub_length;
    by rewrite (assembleRes_length HS), fill_length.
Qed.

(** The state [solve_nonlinear] stores. *)
Lemma solve_nonlinear_run (HS : EngineShapes) (inputs : Inputs) (w : World) :
  Shaped inputs w →
  let U := solve (assembled inputs (self w))
                 (factor (assembled inputs (self w)))
                 (applyBCs (f_s inputs)) (ans (self w)) in
  let s' := set_tacs (setVariables U)
              (set_ans U
                 (set_force (applyBCs (f_s inputs))
                    (set_pc (factor (assembled inputs (self w)))
                       (set_mat (assembled inputs (self w))
                          (set_tacs (λ t, setNodes (x_s0 inputs)
                                            (setDesignVars (dv_struct inputs) t))
                                    (self w)))))) in
  solve_nonlinear inputs w
  = ((if write_f5 (self w) then writeToFile "wing.f5" else id)
       (set_self s' (set_outputs U w)), Ok ()).
Proof.
  intros Hw U s'.
  assert (Hx : length (x_s0 inputs) = length (xpts (tacs (self w))))
    by (destruct Hw; congruence).
  assert (Hf : length (f_s inputs) = length (force (self w)))
    by (destruct Hw; congruence).
  assert (HU : length U = length (outputs w)).
  { unfold U. rewrite (solve_length HS). destruct Hw; congruence. }
  clear Hw. subst s' U. unfold solve_nonlinear, _update_internal.
  destruct w as [s out rs di do dr so fi]. destruct s as [[]].
  revert Hx Hf HU. solver_norm. intros Hx Hf HU.
  rewrite (assign_slice_same _ _ Hx). solver_norm.
  rewrite assign_slice_same by reflexivity. solver_norm.
  rewrite (assign_slice_same _ _ Hf). solver_norm.
  rewrite (assign_slice_same _ _ HU). solver_norm.
  by destruct write_f6.
Qed.

Lemma solve_nonlinear_shaped (HS : EngineShapes) (inputs : Inputs) (w : World) :
  Shaped inputs w → Shaped inputs (solve_nonlinear inputs w).1.
Proof.
  intros Hw. rewrite solve_nonlinear_run by done.
  assert (HU : length (solve (assembled inputs (self w))
                 (factor (assembled inputs (self w)))
                 (applyBCs (f_s inputs)) (ans (self w)))
               = length (variables (tacs (self w)))).
  { rewrite (solve_length HS). by destruct Hw. }
  destruct Hw. revert HU.
  destruct w as [s out rs di do dr so fi]. destruct s as [[]].
  simpl in *. intros HU.
  destruct write_f6; split; simpl;
    rewrite ?HU, ?(applyBCs_length HS); shape_solve.
Qed.

Lemma solve_nonlinear_facts (HS : EngineShapes) (inputs : Inputs) (w : World) :
  Shaped inputs w →
  (solve_nonlinear inputs w).2 = Ok () ∧
  outputs (solve_nonlinear inputs w).1
  = solve (assembled inputs (self w)) (factor (assembled inputs (self w)))
          (applyBCs (f_s inputs)) (ans (self w)) ∧
  res (self (solve_nonlinear inputs w).1) = res (self w) ∧
  files (solve_nonlinear inputs w).1
  = files w ++ (if write_f5 (self w) then ["wing.f5"] else []).
Proof.
  intros Hw. rewrite solve_nonlinear_run by done.
  destruct w as [s out rs di do dr so fi]. destruct s as [[]]. simpl.
  destruct write_f6; simpl; by rewrite ?app_nil_r.
Qed.

Lemma apply_nonlinear_facts (HS : EngineShapes) (inputs : Inputs) (w : World) :
  Shaped inputs w →
  (apply_nonlinear inputs w).2 = Ok () ∧
  residuals (apply_nonlinear inputs w).1
  = applyBCs (vsub (assembleRes (updated inputs (outputs w))
                                (np_zeros (length (res (self w)))))
                   (f_s inputs)).
Proof. intros Hw. by rewrite apply_nonlinear_run by done. Qed.

Lemma vsub_diag (v : list F) :
  (∀ x, fsub x x = f0) → vsub v v = np_zeros (length v).
Proof.
  intros Hd. unfold vsub, np_zeros.
  induction v as [|x v IH]; simpl; [done|]. by rewrite Hd, IH.
Qed.

(** C2.  [apply_nonlinear] stores the residual [K u - f_s]: the engine's
    residual assembly at the state the component pushed into it (the
    output state with boundary conditions applied), minus the load, with
    boundary conditions applied to the difference.  [solve_nonlinear]
    applies the boundary conditions to the load before it hands it to the
    linear solver.  When the engine solves a linear-elastic model exactly
    (tolerance zero), the residual at the state [solve_nonlinear] returns
    is the zero vector. *)
Theorem residual_contract (HS : EngineShapes) (inputs : Inputs) (w : World) :
  Shaped inputs w →
  ((apply_nonlinear inputs w).2 = Ok () ∧
   residuals (apply_nonlinear inputs w).1
   = applyBCs (vsub (assembleRes
                       {| dvs := dv_struct inputs; xpts := x_s0 inputs;
                          variables := applyBCs (outputs w) |}
                       (np_zeros (length (res (self w)))))
                    (f_s inputs))) ∧
  ((solve_nonlinear inputs w).2 = Ok () ∧
   outputs (solve_nonlinear inputs w).1
   = solve (assembled inputs (self w)) (factor (assembled inputs (self w)))
           (applyBCs (f_s inputs)) (ans (self w))) ∧
  (LinearElastic →
   (apply_nonlinear inputs (solve_nonlinear inputs w).1).2 = Ok () ∧
   residuals (apply_nonlinear inputs (solve_nonlinear inputs w).1).1
   = np_zeros (length (f_s inputs))).
Proof.
  intros Hw.
  destruct (apply_nonlinear_facts HS inputs w Hw) as [Hok Hres].
  destruct (solve_nonlinear_facts HS inputs w Hw) as (Hsok & Hout & Hsres & _).
  split; [done|]. split; [done|]. intros HL.
  pose proof (solve_nonlinear_shaped HS inputs w Hw) as Hw1.
  destruct (apply_nonlinear_facts HS inputs _ Hw1) as [Hok1 Hres1].
  split; [done|]. rewrite Hres1, Hout, Hsres. clear Hres1 Hok1 Hw1.
  set (m := assembled inputs (self w)).
  set (b := applyBCs (f_s inputs)).
  set (U := solve m (factor m) b (ans (self w))).
  set (z := np_zeros (length (res (self w)))).
  assert (Hlf : length (f_s inputs) = length (res (self w)))
    by (destruct Hw; congruence).
  assert (Hla : length (ans (self w)) = length (res (self w)))
    by (destruct Hw; congruence).
  assert (Hz : length z = length (res (self w)))
    by apply length_replicate.
  assert (Hb : applyBCs b = b) by apply (applyBCs_idem HL).
  assert (HU : applyBCs U = U) by by apply (solve_keeps_BCs HL).
  rewrite (applyBCs_sub HL)
    by (by rewrite (assembleRes_length HS), Hz, Hlf).
  rewrite (residual_is_operator HL (updated inputs U)
             {| dvs := dv_struct inputs; xpts := x_s0 inputs;
                variables := variables (tacs (self w)) |} z); try done.
  2:{ simpl. rewrite (applyBCs_length HS). unfold U.
      by rewrite (solve_length HS), Hz, Hla. }
  simpl. rewrite HU. fold (assembled inputs (self w)). fold m.
  unfold U at 1. rewrite (solve_exact HL).
  - rewrite Hb. fold b. rewrite vsub_diag by apply (fsub_diag HL).
    unfold b. by rewrite (applyBCs_length HS).
  - unfold b. by rewrite (applyBCs_length HS), Hlf, Hla.
  - by rewrite Hz, Hla.
Qed.
End solver_residual.

Section solver_modes.
Context `{TacsEngine}.
Import TacsSolver.

(** C4, as the code has it.  A forward-mode call is gated by the
    component's [check_partials] flag.  With the flag set, [solve_linear]
    prints a line and returns and [apply_linear] returns after its update
    step; with the flag cleared both raise
    [ValueError('forward mode requested but not implemented')].  In either
    case no seed vector changes. *)
Theorem forward_mode_gate (inputs : Inputs) (w : World) :
  solve_linear mode_fwd w
  = (if check_partials (self w) then (print "solver fwd" w, Ok ())
     else (w, Raise not_implemented)) ∧
  (apply_linear inputs mode_fwd w).2
  = match (on_self (_update_internal inputs (Some (outputs w))) w).2 with
    | Ok _ =>
        if check_partials (self w) then Ok () else Raise not_implemented
    | Raise e => Raise e
    end ∧
  d_inputs (apply_linear inputs mode_fwd w).1 = d_inputs w ∧
  d_outputs (apply_linear inputs mode_fwd w).1 = d_outputs w ∧
  d_residuals (apply_linear inputs mode_fwd w).1 = d_residuals w.
Proof.
  split.
  - unfold solve_linear. unfold_monad. simpl.
    by destruct (check_partials (self w)).
  - unfold apply_linear. unfold_monad. simpl.
    pose proof (on_self_frame (_update_internal inputs (Some (outputs w))) w)
      as (_ & _ & Hin & Hout & Hres & _).
    pose proof (update_frame inputs (Some (outputs w)) (self w))
      as (Hcheck & _).
    unfold on_self in *.
    destruct (_update_internal inputs (Some (outputs w)) (self w))
      as [s' [[]|e]]; simpl in *; [|done].
    rewrite Hcheck. by destruct (check_partials (self w)).
Qed.
End solver_modes.

(** ** The double loop of [apply_linear] *)

Lemma node_count (n : nat) :
  truediv (of_size n) 3%Q = Ok (of_size n / 3)%Q ∧
  Z.to_nat (int (of_size n / 3)%Q) = n / 3.
Proof.
  split; [by apply truediv_ok|].
  rewrite int_floor.
  - change 3%Q with (inject_Z 3). unfold of_size.
    rewrite <- Zdiv_Qdiv. change 3%Z with (Z.of_nat 3).
    rewrite <- Nat2Z.inj_div. apply Nat2Z.id.
  - apply Qle_shift_div_l; [done|]. rewrite Qmult_0_l. apply of_size_nonneg.
Qed.

Lemma slot_div (nd i j : nat) : j < nd → (nd * i + j) / nd = i.
Proof. intros Hj. symmetry. by apply (Nat.div_unique _ _ _ j). Qed.

Lemma slot_mod (nd i j : nat) : j < nd → (nd * i + j) mod nd = j.
Proof. intros Hj. symmetry. by apply (Nat.mod_unique _ _ i). Qed.

Section permuted.
Context `{Scalar}.

Lemma permuted_length nd n (seed : list F) size :
  length (TacsSolver.permuted nd n seed size) = size.
Proof. unfold TacsSolver.permuted. by rewrite length_fmap, length_seq. Qed.

Lemma permuted_lookup nd n (seed : list F) size k :
  k < size →
  TacsSolver.permuted nd n seed size !! k
  = Some (if decide (k / nd < n ∧ k mod nd < 3)
          then default f0 (seed !! (3 * (k / nd) + k mod nd))
          else f0).
Proof.
  intros Hk. unfold TacsSolver.permuted.
  rewrite list_lookup_fmap, lookup_seq_lt by done. done.
Qed.

Lemma permuted_none nd (seed : list F) size :
  TacsSolver.permuted nd 0 seed size = replicate size f0.
Proof.
  apply list_eq. intros k. destruct (decide (k < size)) as [Hk|Hk].
  - rewrite permuted_lookup by done.
    rewrite decide_False by lia. by rewrite lookup_replicate_2.
  - rewrite !lookup_ge_None_2; [done| |].
    + rewrite length_replicate. lia.
    + rewrite permuted_length. lia.
Qed.

(** Entry [nd * i + j] holds entry [3 * i + j] of the seed. *)
Lemma permuted_slot nd n (seed : list F) size i j :
  3 ≤ nd → i < n → j < 3 → nd * i + j < size → 3 * i + j < length seed →
  TacsSolver.permuted nd n seed size !! (nd * i + j) = seed !! (3 * i + j).
Proof.
  intros Hnd Hi Hj Hsize Hseed. rewrite permuted_lookup by done.
  rewrite slot_div, slot_mod by lia. rewrite decide_True by done.
  destruct (lookup_lt_is_Some_2 seed (3 * i + j) Hseed) as [x ->]. done.
Qed.

(** The entries that are not among the first three of a node are zero. *)
Lemma permuted_rest nd n (seed : list F) size k :
  k < size → ¬ (k / nd < n ∧ k mod nd < 3) →
  TacsSolver.permuted nd n seed size !! k = Some f0.
Proof.
  intros Hk Hno. rewrite permuted_lookup by done.
  by rewrite decide_False.
Qed.

(** One turn of the outer loop. *)
Lemma permuted_step nd i (seed : list F) size :
  3 ≤ nd → nd * S i ≤ size →
  <[nd * i + 2 := default f0 (seed !! (3 * i + 2))]>
    (<[nd * i + 1 := default f0 (seed !! (3 * i + 1))]>
       (<[nd * i + 0 := default f0 (seed !! (3 * i + 0))]>
          (TacsSolver.permuted nd i seed size)))
  = TacsSolver.permuted nd (S i) seed size.
Proof.
  intros Hnd Hsize. apply list_eq. intros k.
  destruct (decide (k < size)) as [Hk|Hk].
  2:{ rewrite !lookup_ge_None_2; [done| |];
        rewrite ?length_insert, permuted_length; lia. }
  rewrite (permuted_lookup nd (S i)) by done.
  destruct (decide (k = nd * i + 2)) as [->|H2].
  { rewrite list_lookup_insert_eq
      by (rewrite !length_insert, permuted_length; lia).
    rewrite slot_div, slot_mod by lia. by rewrite decide_True by lia. }
  rewrite list_lookup_insert_ne by done.
  destruct (decide (k = nd * i + 1)) as [->|H1].
  { rewrite list_lookup_insert_eq
      by (rewrite !length_insert, permuted_length; lia).
    rewrite slot_div, slot_mod by lia. by rewrite decide_True by lia. }
  rewrite list_lookup_insert_ne by done.
  destruct (decide (k = nd * i + 0)) as [->|H0].
  { rewrite list_lookup_insert_eq by (rewrite permuted_length; lia).
    rewrite slot_div, slot_mod by lia. by rewrite decide_True by lia. }
  rewrite list_lookup_insert_ne by done.
  rewrite permuted_lookup by done. f_equal.
  pose proof (Nat.div_mod_eq k nd) as Hdm.
  destruct (decide (k / nd < i ∧ k mod nd < 3)) as [[Hq Hr]|Hno].
  - by rewrite decide_True by lia.
  - rewrite decide_False; [done|]. intros [Hq Hr].
    assert (k / nd = i) by lia. subst i. lia.
Qed.
End permuted.

Section solver_loop.
Context `{TacsEngine}.
Import TacsSolver.

(** The world whose residual buffer holds [buf]. *)
Local Abbreviation with_res w buf := (set_self (set_res buf (self w)) w).

Lemma with_res_again (w : World) (a b : list F) :
  set_self (set_res b (self (with_res w a))) (with_res w a) = with_res w b.
Proof. reflexivity. Qed.

Lemma scatter_entry_run (w : World) (buf seed : list F) (i j : nat) :
  d_residuals w !! "u_s" = Some seed →
  3 * i + j < length seed →
  ndof (self w) * i + j < length buf →
  scatter_entry i j (with_res w buf)
  = (with_res w
       (<[ndof (self w) * i + j := default f0 (seed !! (3 * i + j))]> buf),
     Ok ()).
Proof.
  intros Hseed Hread Hwrite.
  destruct (lookup_lt_is_Some_2 seed _ Hread) as [x Hx].
  unfold scatter_entry. unfold_monad.
  destruct w as [s out rs di do dr so fi]. destruct s as [[]].
  revert Hseed Hwrite. solver_norm. intros Hseed Hwrite.
  unfold vec_get. rewrite Hseed. solver_norm.
  unfold getitem. rewrite Hx. solver_norm.
  unfold setitem. rewrite decide_True by done. reflexivity.
Qed.

Lemma scatter_node_run (w : World) (buf seed : list F) (i : nat) :
  d_residuals w !! "u_s" = Some seed →
  3 * i + 2 < length seed →
  ndof (self w) * i + 2 < length buf →
  for_ (seq 0 3) (λ j, scatter_entry i j) (with_res w buf)
  = (with_res w
       (<[ndof (self w) * i + 2 := default f0 (seed !! (3 * i + 2))]>
          (<[ndof (self w) * i + 1 := default f0 (seed !! (3 * i + 1))]>
             (<[ndof (self w) * i + 0 := default f0 (seed !! (3 * i + 0))]>
                buf))),
     Ok ()).
Proof.
  intros Hseed Hread Hwrite. cbn [seq for_]. unfold mbind, M_bind.
  rewrite (scatter_entry_run w buf seed i 0) by (done || lia).
  rewrite (scatter_entry_run w _ seed i 1)
    by (rewrite ?length_insert; done || lia).
  rewrite (scatter_entry_run w _ seed i 2)
    by (rewrite ?length_insert; done || lia).
  reflexivity.
Qed.

Lemma for_cons {S A} (x : A) (xs : list A) (body : A → M S unit) (s : S) :
  for_ (x :: xs) body s
  = match body x s with
    | (s', Ok _) => for_ xs body s'
    | (s', Raise e) => (s', Raise e)
    end.
Proof. reflexivity. Qed.

Lemma scatter_run (w : World) (seed : list F) (size n : nat) :
  d_residuals w !! "u_s" = Some seed →
  3 ≤ ndof (self w) →
  ndof (self w) * n ≤ size → ndof (self w) * n ≤ length seed →
  for_ (seq 0 n) (λ i, for_ (seq 0 3) (λ j, scatter_entry i j))
       (with_res w (replicate size f0))
  = (with_res w (permuted (ndof (self w)) n seed size), Ok ()).
Proof.
  intros Hseed Hnd Hsize Hlen.
  rewrite <- (permuted_none (ndof (self w)) seed size).
  assert (Hgen : ∀ m a, a + m ≤ n →
    for_ (seq a m) (λ i, for_ (seq 0 3) (λ j, scatter_entry i j))
         (with_res w (permuted (ndof (self w)) a seed size))
    = (with_res w (permuted (ndof (self w)) (a + m) seed size), Ok ())).
  { induction m as [|m IH]; intros a Ha.
    - by rewrite Nat.add_0_r.
    - change (seq a (S m)) with (a :: seq (S a) m). rewrite for_cons.
      assert (ndof (self w) * S a ≤ ndof (self w) * n)
        by (apply Nat.mul_le_mono_l; lia).
      rewrite (scatter_node_run w _ seed a); [| done | nia |].
      2:{ rewrite permuted_length. nia. }
      rewrite permuted_step by (done || lia).
      rewrite IH by lia. by replace (S a + m) with (a + S m) by lia. }
  apply (Hgen n 0). lia.
Qed.
End solver_loop.

Section solver_reverse.
Context `{TacsEngine}.
Import TacsSolver.

Lemma frame_self (w : World) :
  frame w (self w) (d_inputs w) (d_outputs w) = w.
Proof. by destruct w. Qed.

Lemma on_self_pure (f : t → t) (w : World) :
  on_self (λ s, (f s, Ok ())) w = (set_self (f (self w)) w, Ok ()).
Proof. reflexivity. Qed.

(** *** The four blocks of the reverse branch *)

Lemma state_seed_run (HS : EngineShapes) (w : World) (s : t)
    (din dout : gmap string (list F)) (o : list F) :
  dout !! "u_s" = Some o →
  length (outputs w) = length (ans s) →
  length (res s) = length o →
  let R := applyBCs (mult (mat s) (outputs w) (np_zeros (length (res s)))) in
  state_seed (frame w s din dout)
  = (frame w
       (set_res R (set_tacs (setVariables (outputs w))
                     (set_ans (outputs w) s)))
       din (<["u_s" := vadd o R]> dout),
     Ok ()).
Proof.
  intros Ho Hu Hr R. subst R. unfold state_seed. unfold_monad.
  destruct w as [s0 out rs di do dr so fi]. destruct s as [[]].
  revert Hu Hr. solver_norm. intros Hu Hr.
  rewrite (assign_slice_same _ _ Hu). solver_norm.
  rewrite (vec_iadd_same _ _ o); [reflexivity|done|].
  by rewrite (applyBCs_length HS), (mult_length HS), fill_length.
Qed.

Lemma load_seed_run (HS : EngineShapes) (inputs : Inputs) (w : World)
    (s : t) (din dout : gmap string (list F)) (seed o : list F) :
  d_residuals w !! "u_s" = Some seed →
  din !! "f_s" = Some o →
  length o = length (res s) →
  3 ≤ ndof s →
  ndof s * (length (x_s0 inputs) / 3) ≤ length (res s) →
  ndof s * (length (x_s0 inputs) / 3) ≤ length seed →
  let B := applyBCs (permuted (ndof s) (length (x_s0 inputs) / 3) seed
                              (length (res s))) in
  load_seed inputs (frame w s din dout)
  = (frame w (set_res B s) (<["f_s" := vsub o B]> din) dout, Ok ()).
Proof.
  intros Hseed Ho Hlo Hnd Hsize Hlen B. subst B.
  unfold load_seed. unfold_monad.
  rewrite on_self_pure. cbv beta iota.
  destruct (node_count (length (x_s0 inputs))) as [-> ->].
  cbv beta iota. unfold fill.
  rewrite (scatter_run (frame w s din dout) seed); try done.
  cbv beta iota. rewrite on_self_pure. cbv beta iota.
  cbn [self res set_self set_res d_inputs frame].
  rewrite (vec_isub_same _ _ o); [reflexivity|done|].
  by rewrite (applyBCs_length HS), permuted_length.
Qed.

Lemma node_seed_run (HS : EngineShapes) (w : World) (s : t)
    (din dout : gmap string (list F)) (seed o : list F) :
  d_residuals w !! "u_s" = Some seed →
  din !! "x_s0" = Some o →
  length seed = length (ans s) →
  length (xpt_sens s) = length o →
  let X := evalAdjointResXptSensProduct (tacs s) seed (xpt_sens s) in
  node_seed (frame w s din dout)
  = (frame w (set_xpt_sens X (set_ans seed s))
       (<["x_s0" := vadd o X]> din) dout, Ok ()).
Proof.
  intros Hseed Ho Hls Hlx X. subst X. unfold node_seed. unfold_monad.
  destruct w as [s0 out rs di do dr so fi]. destruct s as [[]].
  revert Hseed Hls Hlx. solver_norm. intros Hseed Hls Hlx.
  unfold vec_get. rewrite Hseed. solver_norm.
  rewrite (assign_slice_same _ _ Hls). solver_norm.
  rewrite (vec_iadd_same _ _ o); [reflexivity|done|].
  by rewrite (evalAdjointResXptSensProduct_length HS).
Qed.

Lemma design_seed_run (HS : EngineShapes) (w : World) (s : t)
    (din dout : gmap string (list F)) (seed o : list F) :
  d_residuals w !! "u_s" = Some seed →
  din !! "dv_struct" = Some o →
  length seed = length (psi_s s) →
  let A := evalAdjointResProduct (tacs s) seed (np_zeros (length o)) in
  design_seed (frame w s din dout)
  = (frame w (set_psi_s seed s)
       (if decide (rank s = 0) then <["dv_struct" := vadd o A]> din
        else din) dout, Ok ()).
Proof.
  intros Hseed Ho Hls A. subst A. unfold design_seed. unfold_monad.
  destruct w as [s0 out rs di do dr so fi]. destruct s as [[]].
  revert Hseed Hls. solver_norm. intros Hseed Hls.
  unfold vec_get. rewrite Ho. solver_norm. rewrite Hseed. solver_norm.
  rewrite (assign_slice_same _ _ Hls). solver_norm.
  destruct (decide (rank0 = 0)) as [Hr|Hr].
  - rewrite bool_decide_eq_true_2 by done.
    solver_norm.
    rewrite (vec_iadd_same _ _ o); [reflexivity|done|].
    rewrite (evalAdjointResProduct_length HS). apply length_replicate.
  - by rewrite bool_decide_eq_false_2 by done.
Qed.
End solver_reverse.

Section solver_stages.
Context `{TacsEngine}.
Import TacsSolver.

Lemma when_true {S} (m : M S unit) (s : S) : when true m s = m s.
Proof. reflexivity. Qed.

Lemma when_false {S} (m : M S unit) (s : S) : when false m s = (s, Ok ()).
Proof. reflexivity. Qed.

Lemma frame_d_inputs (w : World) s din dout :
  d_inputs (frame w s din dout) = din.
Proof. reflexivity. Qed.

Lemma frame_d_outputs (w : World) s din dout :
  d_outputs (frame w s din dout) = dout.
Proof. reflexivity. Qed.

Lemma Stable_refl (s : t) : Stable s s.
Proof. by split. Qed.

Lemma Stable_trans (s1 s2 s3 : t) : Stable s1 s2 → Stable s2 s3 → Stable s1 s3.
Proof. intros [] []. split; congruence. Qed.

(** *** The blocks under their guards *)

Lemma state_stage (HS : EngineShapes) (w : World) (s : t)
    (din dout : gmap string (list F)) :
  length (outputs w) = length (ans s) →
  (∀ o, dout !! "u_s" = Some o → length (res s) = length o) →
  ∃ s',
    when (contains dout "u_s") state_seed (frame w s din dout)
    = (frame w s' din
         (alter (λ o, vadd o (applyBCs (mult (mat s) (outputs w)
                                          (np_zeros (length (res s))))))
                "u_s" dout),
       Ok ()) ∧
    tacs s' = (if contains dout "u_s"
               then setVariables (outputs w) (tacs s) else tacs s) ∧
    xpt_sens s' = xpt_sens s ∧
    Stable s s'.
Proof.
  intros Hu Hr. destruct (dout !! "u_s") as [o|] eqn:Ho.
  - rewrite (contains_Some _ _ _ Ho), when_true.
    rewrite (state_seed_run HS w s din dout o) by auto.
    rewrite (alter_alt_Some _ _ _ _ Ho).
    eexists. split; [reflexivity|]. split; [done|]. split; [done|].
    split; simpl; try done.
    rewrite (applyBCs_length HS), (mult_length HS). apply length_replicate.
  - rewrite (contains_None _ _ Ho), when_false.
    rewrite alter_id' by done.
    exists s. split; [done|]. split; [done|]. split; [done|].
    apply Stable_refl.
Qed.

Lemma load_stage (HS : EngineShapes) (inputs : Inputs) (w : World) (s : t)
    (din dout : gmap string (list F)) (seed : list F) :
  d_residuals w !! "u_s" = Some seed →
  (∀ o, din !! "f_s" = Some o → length o = length (res s)) →
  (din !! "f_s" = None ∨
   3 ≤ ndof s ∧
   ndof s * (length (x_s0 inputs) / 3) ≤ length (res s) ∧
   ndof s * (length (x_s0 inputs) / 3) ≤ length seed) →
  ∃ s',
    when (contains din "f_s") (load_seed inputs) (frame w s din dout)
    = (frame w s'
         (alter (λ o, vsub o (applyBCs
                   (permuted (ndof s) (length (x_s0 inputs) / 3) seed
                             (length (res s)))))
                "f_s" din) dout,
       Ok ()) ∧
    tacs s' = tacs s ∧ xpt_sens s' = xpt_sens s ∧ Stable s s'.
Proof.
  intros Hseed Hlo Hmesh. destruct (din !! "f_s") as [o|] eqn:Ho.
  - destruct Hmesh as [|(Hnd & Hsize & Hlen)]; [done|].
    rewrite (contains_Some _ _ _ Ho), when_true.
    rewrite (load_seed_run HS inputs w s din dout seed o) by auto.
    rewrite (alter_alt_Some _ _ _ _ Ho).
    eexists. split; [reflexivity|]. split; [done|]. split; [done|].
    split; simpl; try done.
    by rewrite (applyBCs_length HS), permuted_length.
  - rewrite (contains_None _ _ Ho), when_false.
    rewrite alter_id' by done.
    exists s. split; [done|]. split; [done|]. split; [done|].
    apply Stable_refl.
Qed.

Lemma node_stage (HS : EngineShapes) (w : World) (s : t)
    (din dout : gmap string (list F)) (seed : list F) :
  d_residuals w !! "u_s" = Some seed →
  length seed = length (ans s) →
  (∀ o, din !! "x_s0" = Some o → length (xpt_sens s) = length o) →
  ∃ s',
    when (contains din "x_s0") node_seed (frame w s din dout)
    = (frame w s'
         (alter (λ o, vadd o (evalAdjointResXptSensProduct (tacs s) seed
                                (xpt_sens s)))
                "x_s0" din) dout,
       Ok ()) ∧
    tacs s' = tacs s ∧ Stable s s'.
Proof.
  intros Hseed Hls Hlx. destruct (din !! "x_s0") as [o|] eqn:Ho.
  - rewrite (contains_Some _ _ _ Ho), when_true.
    rewrite (node_seed_run HS w s din dout seed o) by auto.
    rewrite (alter_alt_Some _ _ _ _ Ho).
    eexists. split; [reflexivity|]. split; [done|].
    split; simpl; try done.
    by rewrite (evalAdjointResXptSensProduct_length HS).
  - rewrite (contains_None _ _ Ho), when_false.
    rewrite alter_id' by done.
    exists s. split; [done|]. split; [done|]. apply Stable_refl.
Qed.

Lemma design_stage (HS : EngineShapes) (w : World) (s : t)
    (din dout : gmap string (list F)) (seed : list F) :
  d_residuals w !! "u_s" = Some seed →
  length seed = length (psi_s s) →
  ∃ s',
    when (contains din "dv_struct") design_seed (frame w s din dout)
    = (frame w s'
         (alter (λ o, if decide (rank s = 0)
                      then vadd o (evalAdjointResProduct (tacs s) seed
                                     (np_zeros (length o)))
                      else o)
                "dv_struct" din) dout,
       Ok ()) ∧
    tacs s' = tacs s ∧ Stable s s'.
Proof.
  intros Hseed Hls. destruct (din !! "dv_struct") as [o|] eqn:Ho.
  - rewrite (contains_Some _ _ _ Ho), when_true.
    rewrite (design_seed_run HS w s din dout seed o) by auto.
    rewrite (alter_alt_Some _ _ _ _ Ho).
    exists (set_psi_s seed s). split; [|split; [reflexivity|]].
    + destruct (decide (rank s = 0)); [reflexivity|].
      by rewrite insert_id.
    + split; simpl; done.
  - rewrite (contains_None _ _ Ho), when_false.
    rewrite alter_id' by done.
    exists s. split; [done|]. split; [done|]. apply Stable_refl.
Qed.
End solver_stages.

Section solver_reverse_run.
Context `{TacsEngine}.
Import TacsSolver.

Lemma updated_self_stable (HS : EngineShapes) (inputs : Inputs) (w : World) :
  Shaped inputs w → Stable (self w) (updated_self inputs (outputs w) (self w)).
Proof.
  intros Hw. destruct Hw. split; simpl; try done.
  rewrite (applyBCs_length HS). congruence.
Qed.

(** *** The reverse branch of [apply_linear] as a whole *)

Lemma apply_linear_rev_run (HS : EngineShapes) (inputs : Inputs) (w : World)
    (seed : list F) :
  Shaped inputs w →
  d_residuals w !! "u_s" = Some seed →
  (d_inputs w !! "f_s" = None ∨ Mesh inputs (self w)) →
  ∃ s', apply_linear inputs mode_rev w
        = (frame w s' (rev_d_inputs inputs w seed) (rev_d_outputs inputs w),
           Ok ()) ∧
        Stable (self w) s' ∧
        tacs s' = linearized inputs w.
Proof.
  intros Hw Hseed Hmesh.
  pose proof (updated_self_stable HS inputs w Hw) as Hst0.
  unfold apply_linear. unfold mbind, M_bind, gets. cbv beta iota.
  rewrite on_self_update_ok by done. cbv beta iota.
  rewrite bool_decide_eq_false_2 by done. rewrite when_false.
  cbv beta iota.
  rewrite bool_decide_eq_true_2 by done. rewrite when_true.
  cbv beta iota.
  change (set_self (updated_self inputs (outputs w) (self w)) w)
    with (frame w (updated_self inputs (outputs w) (self w))
                (d_inputs w) (d_outputs w)).
  set (s0 := updated_self inputs (outputs w) (self w)) in *.
  change (d_residuals (frame w s0 (d_inputs w) (d_outputs w)))
    with (d_residuals w).
  rewrite (contains_Some _ _ _ Hseed), when_true. cbv beta iota.
  rewrite frame_d_outputs.
  destruct (state_stage HS w s0 (d_inputs w) (d_outputs w))
    as (s1 & -> & Ht1 & Hx1 & Hst1).
  { destruct Hw, Hst0. unfold s0. simpl. rewrite (applyBCs_length HS). done. }
  { intros o Ho. destruct Hw. unfold s0. simpl.
    rewrite (d_outputs_shape0 o Ho). done. }
  cbv beta iota. rewrite frame_d_inputs.
  destruct (load_stage HS inputs w s1 (d_inputs w)
              (alter (λ o, vadd o (applyBCs (mult (mat s0) (outputs w)
                                      (np_zeros (length (res s0))))))
                     "u_s" (d_outputs w)) seed Hseed)
    as (s2 & -> & Ht2 & Hx2 & Hst2).
  { intros o Ho. destruct Hw, Hst1. rewrite stable_res0. unfold s0. simpl.
    rewrite (d_f_s_shape0 o Ho). done. }
  { destruct Hmesh as [Hno|[Hnd Hsize]]; [by left|right].
    destruct Hw, Hst1. rewrite stable_ndof0, stable_res0. unfold s0. simpl.
    rewrite (d_residuals_shape0 seed Hseed). rewrite res_shape0. done. }
  cbv beta iota. rewrite frame_d_inputs.
  destruct (node_stage HS w s2
              (alter (λ o, vsub o (applyBCs
                        (permuted (ndof s1) (length (x_s0 inputs) / 3) seed
                                  (length (res s1)))))
                     "f_s" (d_inputs w))
              (alter (λ o, vadd o (applyBCs (mult (mat s0) (outputs w)
                                      (np_zeros (length (res s0))))))
                     "u_s" (d_outputs w)) seed Hseed)
    as (s3 & -> & Ht3 & Hst3).
  { destruct Hw, Hst1, Hst2. rewrite stable_ans1, stable_ans0.
    unfold s0. simpl. rewrite (applyBCs_length HS).
    rewrite (d_residuals_shape0 seed Hseed). done. }
  { intros o Ho. rewrite lookup_alter_ne in Ho by done.
    destruct Hw. rewrite Hx2, Hx1. unfold s0. simpl.
    rewrite (d_x_s0_shape0 o Ho). done. }
  cbv beta iota. rewrite frame_d_inputs.
  destruct (design_stage HS w s3
              (alter (λ o, vadd o (evalAdjointResXptSensProduct (tacs s2)
                                     seed (xpt_sens s2)))
                     "x_s0"
                 (alter (λ o, vsub o (applyBCs
                           (permuted (ndof s1) (length (x_s0 inputs) / 3)
                                     seed (length (res s1)))))
                        "f_s" (d_inputs w)))
              (alter (λ o, vadd o (applyBCs (mult (mat s0) (outputs w)
                                      (np_zeros (length (res s0))))))
                     "u_s" (d_outputs w)) seed Hseed)
    as (s4 & -> & Ht4 & Hst4).
  { destruct Hw, Hst1, Hst2, Hst3.
    rewrite stable_psi_s2, stable_psi_s1, stable_psi_s0.
    unfold s0. simpl. rewrite (d_residuals_shape0 seed Hseed). done. }
  assert (Hlin : tacs s1 = linearized inputs w).
  { rewrite Ht1. unfold linearized. by destruct (contains _ _). }
  exists s4. split; [|split].
  - unfold rev_d_inputs, rev_d_outputs, load_term, node_term, design_term.
    destruct Hst1, Hst2, Hst3.
    rewrite Ht3, Ht2, Hx2, Hx1, Hlin.
    rewrite stable_rank2, stable_rank1, stable_rank0.
    rewrite stable_ndof0, stable_res0. reflexivity.
  - eauto using Stable_trans.
  - by rewrite Ht4, Ht3, Ht2, Hlin.
Qed.

Lemma linearized_shape (HS : EngineShapes) (inputs : Inputs) (w : World) :
  Shaped inputs w →
  length (variables (linearized inputs w))
  = length (variables (tacs (self w))) ∧
  length (xpts (linearized inputs w)) = length (xpts (tacs (self w))).
Proof.
  intros Hw. unfold linearized. destruct Hw.
  destruct (contains _ _); simpl; rewrite ?(applyBCs_length HS); done.
Qed.

Lemma rev_d_inputs_f_s inputs (w : World) seed :
  rev_d_inputs inputs w seed !! "f_s"
  = (λ o, vsub o (load_term inputs w seed)) <$> d_inputs w !! "f_s".
Proof.
  unfold rev_d_inputs.
  rewrite lookup_alter_ne, lookup_alter_ne by done.
  apply lookup_alter_eq.
Qed.

Lemma rev_d_inputs_x_s0 inputs (w : World) seed :
  rev_d_inputs inputs w seed !! "x_s0"
  = (λ o, vadd o (node_term inputs w seed)) <$> d_inputs w !! "x_s0".
Proof.
  unfold rev_d_inputs.
  rewrite lookup_alter_ne, lookup_alter_eq by done.
  by rewrite lookup_alter_ne by done.
Qed.

Lemma rev_d_inputs_dv_struct inputs (w : World) seed :
  rev_d_inputs inputs w seed !! "dv_struct"
  = (λ o, if decide (rank (self w) = 0)
          then vadd o (design_term inputs w seed (length o)) else o)
    <$> d_inputs w !! "dv_struct".
Proof.
  unfold rev_d_inputs. rewrite lookup_alter_eq.
  by rewrite lookup_alter_ne, lookup_alter_ne by done.
Qed.

Lemma rev_d_inputs_other inputs (w : World) seed name :
  name ≠ "f_s" → name ≠ "x_s0" → name ≠ "dv_struct" →
  rev_d_inputs inputs w seed !! name = d_inputs w !! name.
Proof.
  intros. unfold rev_d_inputs. by rewrite !lookup_alter_ne by done.
Qed.

(** C6, as the code has it.  On a component with at least three degrees
    of freedom per node whose state vector has room for every node, in
    reverse mode the seed on [f_s] is the old seed minus the buffer the
    double loop fills, with boundary conditions applied to the buffer
    before the subtraction.  Entry [ndof * i + j] of the buffer is entry
    [3 * i + j] of the state seed for every node [i] and [j] in [0 .. 2],
    and every other entry is zero. *)
Theorem load_seed_negative_identity (HS : EngineShapes) (inputs : Inputs)
    (w : World) (seed old : list F) :
  Shaped inputs w →
  Mesh inputs (self w) →
  d_residuals w !! "u_s" = Some seed →
  d_inputs w !! "f_s" = Some old →
  let nd := ndof (self w) in
  let nodes := length (x_s0 inputs) / 3 in
  let buffer := permuted nd nodes seed (length seed) in
  (apply_linear inputs mode_rev w).2 = Ok () ∧
  d_inputs (apply_linear inputs mode_rev w).1 !! "f_s"
  = Some (vsub old (applyBCs buffer)) ∧
  length buffer = length seed ∧
  (∀ i j, i < nodes → j < 3 →
     buffer !! (nd * i + j) = seed !! (3 * i + j)) ∧
  (∀ k, k < length seed → ¬ (k / nd < nodes ∧ k mod nd < 3) →
     buffer !! k = Some f0).
Proof.
  intros Hw Hmesh Hseed Hold nd nodes buffer.
  destruct (apply_linear_rev_run HS inputs w seed Hw Hseed (or_intror Hmesh))
    as (s' & -> & _). cbn [fst snd].
  assert (Hlen : length (res (self w)) = length seed).
  { destruct Hw. rewrite (d_residuals_shape0 seed Hseed). done. }
  assert (Hroom : nd * nodes ≤ length seed).
  { destruct Hmesh as [_ Hroom], Hw.
    by rewrite (d_residuals_shape0 seed Hseed). }
  destruct Hmesh as [Hnd _]. fold nd in Hnd.
  split; [done|]. split; [|split; [|split]].
  - rewrite frame_d_inputs, rev_d_inputs_f_s, Hold. simpl.
    unfold load_term. by rewrite Hlen.
  - apply permuted_length.
  - intros i j Hi Hj. apply permuted_slot; try done; nia.
  - intros k Hk Hno. by apply permuted_rest.
Qed.

(** C7.  In reverse mode the product the engine's kernel
    [evalAdjointResProduct] returns is added, as it is, to the seed on
    [dv_struct] on rank 0, and on no other rank. *)
Theorem design_seed_on_rank_zero (HS : EngineShapes) (inputs : Inputs)
    (w : World) (seed old : list F) :
  Shaped inputs w →
  (d_inputs w !! "f_s" = None ∨ Mesh inputs (self w)) →
  d_residuals w !! "u_s" = Some seed →
  d_inputs w !! "dv_struct" = Some old →
  let product :=
    evalAdjointResProduct (linearized inputs w) seed
                          (np_zeros (length old)) in
  let seed' := d_inputs (apply_linear inputs mode_rev w).1 !! "dv_struct" in
  (apply_linear inputs mode_rev w).2 = Ok () ∧
  (rank (self w) = 0 → seed' = Some (vadd old product)) ∧
  (rank (self w) ≠ 0 → seed' = Some old).
Proof.
  intros Hw Hmesh Hseed Hold product seed'. subst seed'.
  destruct (apply_linear_rev_run HS inputs w seed Hw Hseed Hmesh)
    as (s' & -> & _). cbn [fst snd].
  rewrite frame_d_inputs, rev_d_inputs_dv_struct, Hold. simpl.
  split; [done|]. split; intros Hr.
  - by rewrite decide_True.
  - by rewrite decide_False.
Qed.
End solver_reverse_run.

(** ** Accumulation *)

Section accumulation.
Context `{Scalar}.

Lemma vadd_swap (HE : ExactArithmetic) (o a b : list F) :
  vadd (vadd o a) b = vadd (vadd o b) a.
Proof.
  unfold vadd. revert a b. induction o as [|x o IH]; intros a b.
  - by destruct a, b.
  - destruct a as [|y a], b as [|z b]; simpl; try done.
    rewrite IH. f_equal.
    rewrite <- !(fadd_assoc HE). f_equal. apply (fadd_comm HE).
Qed.

Lemma vsub_vadd (HE : ExactArithmetic) (o a : list F) :
  vsub o a = vadd o (vneg a).
Proof.
  unfold vsub, vadd, vneg. revert a.
  induction o as [|x o IH]; intros [|y a]; simpl; try done.
  by rewrite IH, (fsub_fadd HE).
Qed.

Lemma vsub_swap (HE : ExactArithmetic) (o a b : list F) :
  vsub (vsub o a) b = vsub (vsub o b) a.
Proof. rewrite !(vsub_vadd HE). by apply vadd_swap. Qed.

Lemma vadd_zeros (HE : ExactArithmetic) (o : list F) :
  vadd o (np_zeros (length o)) = o.
Proof.
  unfold vadd, np_zeros. induction o as [|x o IH]; simpl; [done|].
  by rewrite IH, (fadd_0_r HE).
Qed.

Lemma vneg_length (a : list F) : length (vneg a) = length a.
Proof. apply length_fmap. Qed.

Lemma same_shape_lookup (d1 d2 : gmap string (list F)) name o :
  same_shape d1 d2 → d1 !! name = Some o →
  ∃ o', d2 !! name = Some o' ∧ length o' = length o.
Proof.
  intros Hs Ho. specialize (Hs name). rewrite Ho in Hs.
  destruct (d2 !! name) as [o'|]; simpl in *; [|done].
  exists o'. split; [done|]. congruence.
Qed.

Lemma same_shape_None (d1 d2 : gmap string (list F)) name :
  same_shape d1 d2 → d1 !! name = None → d2 !! name = None.
Proof.
  intros Hs Ho. specialize (Hs name). rewrite Ho in Hs.
  by destruct (d2 !! name).
Qed.

Lemma same_shape_sym (d1 d2 : gmap string (list F)) :
  same_shape d1 d2 → same_shape d2 d1.
Proof. intros Hs name. by rewrite Hs. Qed.

Lemma contains_alter (f : list F → list F) (d : gmap string (list F)) k k' :
  contains (alter f k d) k' = contains d k'.
Proof.
  unfold contains. apply bool_decide_ext. rewrite lookup_alter.
  destruct (decide (k = k')) as [->|]; [|done].
  destruct (d !! k'); simpl; split; intros [? ?]; eauto; done.
Qed.
End accumulation.

Section solver_accumulation.
Context `{TacsEngine}.
Import TacsSolver.

Lemma rev_d_inputs_update (inputs : Inputs) (w : World) (seed : list F) :
  rev_d_inputs inputs w seed
  = rev_update (ndof (self w)) (length (x_s0 inputs) / 3)
      (length (res (self w))) (rank (self w)) (linearized inputs w)
      (xpt_sens (self w)) seed (d_inputs w).
Proof. reflexivity. Qed.

Lemma rev_update_f_s nd n size r point xs seed (d : gmap string (list F)) :
  rev_update nd n size r point xs seed d !! "f_s"
  = (λ o, vsub o (applyBCs (permuted nd n seed size))) <$> d !! "f_s".
Proof.
  unfold rev_update. rewrite lookup_alter_ne, lookup_alter_ne by done.
  apply lookup_alter_eq.
Qed.

Lemma rev_update_x_s0 nd n size r point xs seed (d : gmap string (list F)) :
  rev_update nd n size r point xs seed d !! "x_s0"
  = (λ o, vadd o (evalAdjointResXptSensProduct point seed xs))
    <$> d !! "x_s0".
Proof.
  unfold rev_update. rewrite lookup_alter_ne, lookup_alter_eq by done.
  by rewrite lookup_alter_ne by done.
Qed.

Lemma rev_update_dv_struct nd n size r point xs seed
    (d : gmap string (list F)) :
  rev_update nd n size r point xs seed d !! "dv_struct"
  = (λ o, if decide (r = 0)
          then vadd o (evalAdjointResProduct point seed
                         (np_zeros (length o)))
          else o) <$> d !! "dv_struct".
Proof.
  unfold rev_update. rewrite lookup_alter_eq.
  by rewrite lookup_alter_ne, lookup_alter_ne by done.
Qed.

Lemma rev_update_other nd n size r point xs seed
    (d : gmap string (list F)) name :
  name ≠ "f_s" → name ≠ "x_s0" → name ≠ "dv_struct" →
  rev_update nd n size r point xs seed d !! name = d !! name.
Proof. intros. unfold rev_update. by rewrite !lookup_alter_ne by done. Qed.

Lemma rev_update_commute (HE : ExactArithmetic) (HS : EngineShapes)
    nd n size r point xs (a b : list F) (d : gmap string (list F)) :
  rev_update nd n size r point xs b (rev_update nd n size r point xs a d)
  = rev_update nd n size r point xs a (rev_update nd n size r point xs b d).
Proof.
  apply map_eq. intros k.
  destruct (decide (k = "f_s")) as [->|Hf].
  { rewrite !rev_update_f_s. destruct (d !! "f_s"); simpl; [|done].
    f_equal. by apply vsub_swap. }
  destruct (decide (k = "x_s0")) as [->|Hx].
  { rewrite !rev_update_x_s0. destruct (d !! "x_s0"); simpl; [|done].
    f_equal. by apply vadd_swap. }
  destruct (decide (k = "dv_struct")) as [->|Hdv].
  { rewrite !rev_update_dv_struct.
    destruct (d !! "dv_struct"); simpl; [|done].
    f_equal. destruct (decide (r = 0)); [|done].
    rewrite !vadd_length
      by (rewrite (evalAdjointResProduct_length HS);
          apply length_replicate).
    by apply vadd_swap. }
  by rewrite !rev_update_other.
Qed.

Lemma set_d_residuals_shaped (inputs : Inputs) (w : World)
    (d : gmap string (list F)) :
  Shaped inputs w →
  (∀ v, d !! "u_s" = Some v → length v = length (variables (tacs (self w)))) →
  Shaped inputs (set_d_residuals d w).
Proof. intros [] Hd. by split. Qed.

Lemma set_d_inputs_shaped (inputs : Inputs) (w : World)
    (d : gmap string (list F)) :
  Shaped inputs w → same_shape d (d_inputs w) →
  Shaped inputs (set_d_inputs d w).
Proof.
  intros [] Hd. split; try done; simpl; intros v Hv;
    destruct (same_shape_lookup _ _ _ _ Hd Hv) as (o & Ho & <-); auto.
Qed.

(** One reverse-mode call, seen from the world it started in. *)
Lemma rev_run_spec (HS : EngineShapes) (inputs : Inputs) (w : World)
    (d : gmap string (list F)) (seed : list F) :
  Shaped inputs w →
  d !! "u_s" = Some seed →
  length seed = length (variables (tacs (self w))) →
  (d_inputs w !! "f_s" = None ∨ Mesh inputs (self w)) →
  let w' := rev_run inputs d w in
  (apply_linear inputs mode_rev (set_d_residuals d w)).2 = Ok () ∧
  d_inputs w' = rev_d_inputs inputs w seed ∧
  d_outputs w' = rev_d_outputs inputs w ∧
  outputs w' = outputs w ∧
  d_residuals w' = d ∧
  Stable (self w) (self w') ∧
  tacs (self w') = linearized inputs w.
Proof.
  intros Hw Hd Hlen Hmesh w'. subst w'. unfold rev_run.
  assert (Hw' : Shaped inputs (set_d_residuals d w)).
  { apply set_d_residuals_shaped; [done|]. intros v Hv. congruence. }
  destruct (apply_linear_rev_run HS inputs (set_d_residuals d w) seed
              Hw' Hd Hmesh) as (s' & -> & Hst & Ht).
  done.
Qed.

Lemma rev_run_shaped (HS : EngineShapes) (inputs : Inputs) (w : World)
    (d : gmap string (list F)) (seed : list F) :
  Shaped inputs w →
  d !! "u_s" = Some seed →
  length seed = length (variables (tacs (self w))) →
  (d_inputs w !! "f_s" = None ∨ Mesh inputs (self w)) →
  Shaped inputs (rev_run inputs d w) ∧
  (d_inputs (rev_run inputs d w) !! "f_s" = None ∨
   Mesh inputs (self (rev_run inputs d w))).
Proof.
  intros Hw Hd Hlen Hmesh.
  destruct (rev_run_spec HS inputs w d seed Hw Hd Hlen Hmesh)
    as (_ & Hin & Hout & Hu & Hres & Hst & Ht).
  destruct (linearized_shape HS inputs w Hw) as [Hlv Hlx].
  assert (Hresid : residuals (rev_run inputs d w) = residuals w).
  { unfold rev_run.
    destruct (apply_linear_rev_run HS inputs (set_d_residuals d w) seed)
      as (s' & -> & _); try done.
    apply set_d_residuals_shaped; [done|]. intros v Hv. congruence. }
  split.
  - destruct Hw, Hst. split; rewrite ?Ht, ?Hlv, ?Hlx, ?Hu, ?Hresid;
      try congruence.
    + intros v. rewrite Hin, rev_d_inputs_f_s. intros Hv.
      apply fmap_Some in Hv as (o & Ho & ->).
      rewrite vsub_length; [by apply d_f_s_shape0|].
      unfold load_term.
      rewrite (applyBCs_length HS), permuted_length.
      rewrite (d_f_s_shape0 o Ho). done.
    + intros v. rewrite Hin, rev_d_inputs_x_s0. intros Hv.
      apply fmap_Some in Hv as (o & Ho & ->).
      rewrite vadd_length; [by apply d_x_s0_shape0|].
      unfold node_term.
      rewrite (evalAdjointResXptSensProduct_length HS).
      rewrite (d_x_s0_shape0 o Ho). done.
    + intros v. rewrite Hout. unfold rev_d_outputs. rewrite lookup_alter_eq.
      intros Hv. apply fmap_Some in Hv as (o & Ho & ->).
      rewrite vadd_length; [by apply d_outputs_shape0|].
      rewrite (applyBCs_length HS), (mult_length HS).
      unfold np_zeros. rewrite length_replicate.
      rewrite (d_outputs_shape0 o Ho). done.
  - destruct Hmesh as [Hno|[Hnd Hroom]].
    + left. by rewrite Hin, rev_d_inputs_f_s, Hno.
    + right. destruct Hst. split; rewrite ?stable_ndof0, ?Ht, ?Hlv; done.
Qed.
End solver_accumulation.

Section solver_commutation.
Context `{TacsEngine}.
Import TacsSolver.

(** [apply_linear] adds to the seeds it finds: what it adds to the seed on
    [name] does not depend on the values the seeds held. *)
Lemma apply_linear_additive (HE : ExactArithmetic) (HS : EngineShapes)
    (inputs : Inputs) (w : World) (seed : list F)
    (din : gmap string (list F)) (name : string) (old : list F) :
  Shaped inputs w →
  d_residuals w !! "u_s" = Some seed →
  (d_inputs w !! "f_s" = None ∨ Mesh inputs (self w)) →
  same_shape din (d_inputs w) →
  din !! name = Some old →
  (apply_linear inputs mode_rev (set_d_inputs din w)).2 = Ok () ∧
  d_inputs (apply_linear inputs mode_rev (set_d_inputs din w)).1 !! name
  = Some (vadd old (rev_contribution inputs w seed name)).
Proof.
  intros Hw Hseed Hmesh Hshape Hold.
  assert (Hw2 : Shaped inputs (set_d_inputs din w))
    by by apply set_d_inputs_shaped.
  assert (Hmesh2 : d_inputs (set_d_inputs din w) !! "f_s" = None ∨
                   Mesh inputs (self (set_d_inputs din w))).
  { destruct Hmesh as [Hno|Hm]; [left|by right]. simpl.
    by apply (same_shape_None (d_inputs w)); [apply same_shape_sym|]. }
  destruct (apply_linear_rev_run HS inputs _ seed Hw2 Hseed Hmesh2)
    as (s' & -> & _). cbn [fst snd]. split; [done|].
  rewrite frame_d_inputs.
  destruct (same_shape_lookup _ _ _ _ Hshape Hold) as (o' & Ho' & Hlo').
  assert (Hsize : length (default [] (d_inputs w !! name)) = length old)
    by (by rewrite Ho').
  unfold rev_contribution. cbv zeta. rewrite Hsize.
  destruct (decide (name = "f_s")) as [->|Hf].
  { rewrite rev_d_inputs_f_s. cbn [d_inputs set_d_inputs]. rewrite Hold.
    simpl. by rewrite (vsub_vadd HE). }
  destruct (decide (name = "x_s0")) as [->|Hx].
  { rewrite rev_d_inputs_x_s0. cbn [d_inputs set_d_inputs]. by rewrite Hold. }
  destruct (decide (name = "dv_struct")) as [->|Hdv].
  { rewrite rev_d_inputs_dv_struct. cbn [d_inputs set_d_inputs self].
    rewrite Hold. simpl. destruct (decide (rank (self w) = 0)) as [Hr|Hr].
    - by rewrite decide_True.
    - rewrite decide_False by (by intros [_ ?]).
      by rewrite (vadd_zeros HE). }
  rewrite rev_d_inputs_other by done. cbn [d_inputs set_d_inputs].
  rewrite Hold. rewrite decide_False by (by intros [? _]).
  by rewrite (vadd_zeros HE).
Qed.

Lemma rev_update_overwrite (HK : KernelsOverwrite) nd n size r point
    (xs xs' seed : list F) (d : gmap string (list F)) :
  length xs = length xs' →
  rev_update nd n size r point xs seed d
  = rev_update nd n size r point xs' seed d.
Proof.
  intros Hl. unfold rev_update.
  by rewrite (adjoint_xpt_overwrites HK point seed xs xs').
Qed.

(** Two reverse-mode calls in a row, seen from the first world. *)
Lemma two_rev_runs (HS : EngineShapes) (HK : KernelsOverwrite)
    (inputs : Inputs) (w : World) (dA dB : gmap string (list F))
    (a b : list F) :
  Shaped inputs w →
  (d_inputs w !! "f_s" = None ∨ Mesh inputs (self w)) →
  dA !! "u_s" = Some a → dB !! "u_s" = Some b →
  length a = length (variables (tacs (self w))) →
  length b = length (variables (tacs (self w))) →
  let upd seed :=
    rev_update (ndof (self w)) (length (x_s0 inputs) / 3)
      (length (res (self w))) (rank (self w)) (linearized inputs w)
      (xpt_sens (self w)) seed in
  (apply_linear inputs mode_rev
     (set_d_residuals dB (rev_run inputs dA w))).2 = Ok () ∧
  d_inputs (rev_run inputs dB (rev_run inputs dA w))
  = upd b (upd a (d_inputs w)) ∧
  d_outputs (rev_run inputs dB (rev_run inputs dA w))
  = alter (λ o, vadd o (applyBCs
             (mult (assembleJacobian f1 f0 f0
                      {| dvs := dv_struct inputs; xpts := x_s0 inputs;
                         variables := variables (linearized inputs w) |})
                   (outputs w) (np_zeros (length (res (self w)))))))
          "u_s" (rev_d_outputs inputs w).
Proof.
  intros Hw Hmesh HA HB Hla Hlb upd.
  destruct (rev_run_spec HS inputs w dA a Hw HA Hla Hmesh)
    as (_ & Hin & Hout & Hu & _ & Hst & Ht).
  destruct (rev_run_shaped HS inputs w dA a Hw HA Hla Hmesh) as [Hw1 Hmesh1].
  destruct (linearized_shape HS inputs w Hw) as [Hlv _].
  set (w1 := rev_run inputs dA w) in *.
  assert (Hlb1 : length b = length (variables (tacs (self w1))))
    by (by rewrite Ht, Hlv).
  destruct (rev_run_spec HS inputs w1 dB b Hw1 HB Hlb1 Hmesh1)
    as (Hok & Hin2 & Hout2 & _).
  assert (Hlin : linearized inputs w1 = linearized inputs w).
  { unfold linearized. rewrite Hout, Hu. unfold rev_d_outputs.
    by rewrite contains_alter. }
  destruct Hst.
  split; [done|]. split.
  - rewrite Hin2, rev_d_inputs_update, Hin, rev_d_inputs_update, Hlin.
    rewrite stable_ndof0, stable_res0, stable_rank0.
    by rewrite (rev_update_overwrite HK _ _ _ _ _ (xpt_sens (self w1))
                  (xpt_sens (self w))).
  - rewrite Hout2. unfold rev_d_outputs at 1. rewrite Hout, Hu.
    unfold assembled. rewrite Ht, stable_res0. done.
Qed.

(** The seeds two reverse-mode calls leave do not depend on the order of
    the calls. *)
Lemma apply_linear_commutes (HE : ExactArithmetic) (HS : EngineShapes)
    (HK : KernelsOverwrite) (inputs : Inputs) (w : World)
    (dA dB : gmap string (list F)) (a b : list F) :
  Shaped inputs w →
  (d_inputs w !! "f_s" = None ∨ Mesh inputs (self w)) →
  dA !! "u_s" = Some a → dB !! "u_s" = Some b →
  length a = length (variables (tacs (self w))) →
  length b = length (variables (tacs (self w))) →
  d_inputs (rev_run inputs dB (rev_run inputs dA w))
  = d_inputs (rev_run inputs dA (rev_run inputs dB w)) ∧
  d_outputs (rev_run inputs dB (rev_run inputs dA w))
  = d_outputs (rev_run inputs dA (rev_run inputs dB w)).
Proof.
  intros Hw Hmesh HA HB Hla Hlb.
  destruct (two_rev_runs HS HK inputs w dA dB a b) as (_ & -> & ->);
    try done.
  destruct (two_rev_runs HS HK inputs w dB dA b a) as (_ & -> & ->);
    try done.
  split; [|done]. by apply rev_update_commute.
Qed.
End solver_commutation.

(** *** [_update_internal] run again *)

Section solver_idempotent.
Context `{TacsEngine}.
Import TacsSolver.

Lemma reassemble_run (HS : EngineShapes) (inputs : Inputs) (w : World) :
  Shaped inputs w →
  reassemble inputs w
  = set_self (updated_self inputs (outputs w) (self w)) w ∧
  Shaped inputs (reassemble inputs w).
Proof.
  intros Hw. split.
  - unfold reassemble. by rewrite on_self_update_ok.
  - by apply update_shaped.
Qed.

Lemma reassemble_iter (HS : EngineShapes) (inputs : Inputs) (w : World)
    (k : nat) :
  Shaped inputs w →
  let w' := Nat.iter k (reassemble inputs) w in
  Shaped inputs w' ∧ outputs w' = outputs w ∧
  res (self w') = res (self w) ∧
  (0 < k → tacs (self w') = updated inputs (outputs w)).
Proof.
  intros Hw. induction k as [|k IH]; simpl.
  - split; [done|]. split; [done|]. split; [done|]. intros ?. lia.
  - destruct IH as (Hk & Hout & Hres & _).
    destruct (reassemble_run HS inputs _ Hk) as [-> Hs].
    split; [done|]. simpl. rewrite Hout. done.
Qed.

(** Running [_update_internal] any number of extra
    times on the same inputs and outputs changes neither the assembler
    state it leaves nor the residual [apply_nonlinear] then stores. *)
Lemma apply_nonlinear_after_reassemble (HS : EngineShapes)
    (inputs : Inputs) (w : World) (k : nat) :
  Shaped inputs w →
  let w' := Nat.iter k (reassemble inputs) w in
  (apply_nonlinear inputs w').2 = Ok () ∧
  (apply_nonlinear inputs w).2 = Ok () ∧
  residuals (apply_nonlinear inputs w').1
  = residuals (apply_nonlinear inputs w).1 ∧
  tacs (self (reassemble inputs w'))
  = tacs (self (reassemble inputs w)).
Proof.
  intros Hw w'.
  destruct (reassemble_iter HS inputs w k Hw) as (Hk & Hout & Hres & _).
  fold w' in Hk, Hout, Hres.
  destruct (apply_nonlinear_facts HS inputs w Hw) as [-> ->].
  destruct (apply_nonlinear_facts HS inputs w' Hk) as [-> ->].
  rewrite Hout, Hres. repeat split.
  destruct (reassemble_run HS inputs w Hw) as [-> _].
  destruct (reassemble_run HS inputs w' Hk) as [-> _].
  simpl. by rewrite Hout.
Qed.
End solver_idempotent.

(** ** TacsFunctions *)

Ltac functions_norm :=
  cbv beta iota zeta delta
    [mbind M_bind mret M_ret gets modify lift raise when id
     TacsFunctions.on_self TacsFunctions.set_self TacsFunctions.set_outputs
     TacsFunctions.set_d_inputs TacsFunctions.frame
     TacsFunctions.set_tacs TacsFunctions.set_pc TacsFunctions.set_mat
     TacsFunctions.set_ans TacsFunctions.set_xpt_sens
     TacsFunctions.self TacsFunctions.outputs TacsFunctions.d_inputs
     TacsFunctions.tacs TacsFunctions.pc TacsFunctions.mat
     TacsFunctions.ans TacsFunctions.xpt_sens TacsFunctions.mass
     TacsFunctions.check_partials TacsFunctions.func_list
     setDesignVars setNodes setVariables getNodes dvs xpts variables
     TacsFunctions.updated TacsFunctions.updated_self
     TacsFunctions.assembled fst snd].

Section functions.
Context `{TacsEngine}.
Import TacsFunctions.

Lemma functions_on_self_frame {A} (m : M t A) (w : World) :
  outputs (on_self m w).1 = outputs w ∧
  d_inputs (on_self m w).1 = d_inputs w.
Proof. unfold on_self. by destruct (m (self w)). Qed.

Lemma functions_update_ok (inputs : Inputs) (s : t) :
  length (x_s0 inputs) = length (xpts (tacs s)) →
  length (u_s inputs) = length (ans s) →
  _update_internal inputs s = (updated_self inputs s, Ok ()).
Proof.
  intros Hx Hu. unfold _update_internal. destruct s.
  revert Hx Hu. functions_norm. intros Hx Hu.
  rewrite (assign_slice_same _ _ Hx). functions_norm.
  rewrite assign_slice_same by reflexivity. functions_norm.
  rewrite (assign_slice_same _ _ Hu). reflexivity.
Qed.

Lemma functions_update_frame (inputs : Inputs) (s : t) :
  let s' := (_update_internal inputs s).1 in
  check_partials s' = check_partials s ∧ func_list s' = func_list s ∧
  mass s' = mass s.
Proof.
  unfold _update_internal. destruct s. functions_norm.
  destruct (assign_slice _ _) as [x|e]; [|done]. functions_norm.
  destruct (assign_slice _ _) as [x'|e]; [|done]. functions_norm.
  destruct (assign_slice _ _) as [a|e]; done.
Qed.

(** [compute] under [check_partials], on vectors of the declared shapes. *)
Lemma compute_run (HS : EngineShapes) (inputs : Inputs) (w : World) :
  Shaped inputs w →
  let at_ := point inputs (self w) in
  compute inputs w
  = ({| self := if check_partials (self w)
                then updated_self inputs (self w) else self w;
        outputs :=
          alter (λ _, evalFunctions at_ [StructuralMass]) "mass"
            (alter (λ _, evalFunctions at_ (func_list (self w)))
                   "f_struct" (outputs w));
        d_inputs := d_inputs w |}, Ok ()).
Proof.
  intros Hw at_. subst at_. unfold compute, point.
  assert (Hup : _update_internal inputs (self w)
                = (updated_self inputs (self w), Ok ())).
  { apply functions_update_ok; destruct Hw; congruence. }
  destruct Hw. destruct w as [s outs din]. destruct s.
  simpl in *. revert Hup. functions_norm. intros Hup.
  destruct check_partials0.
  - functions_norm. rewrite Hup. functions_norm.
    destruct (outs !! "f_struct") as [v|] eqn:Hv.
    + rewrite (contains_Some _ _ _ Hv). functions_norm.
      rewrite (vec_set_same _ _ v) by
        (try done; rewrite (evalFunctions_length HS); symmetry; auto).
      functions_norm. rewrite contains_insert_other by eauto.
      rewrite (alter_alt_Some _ _ _ _ Hv).
      destruct (outs !! "mass") as [m|] eqn:Hm.
      * rewrite (contains_Some _ _ _ Hm). functions_norm.
        rewrite (vec_set_same _ _ m);
          [| by rewrite lookup_insert_ne
           | rewrite (evalFunctions_length HS); symmetry; auto ].
        rewrite (alter_alt_Some _ _ _ m) by by rewrite lookup_insert_ne.
        reflexivity.
      * rewrite (contains_None _ _ Hm). functions_norm.
        rewrite alter_id' by by rewrite lookup_insert_ne.
        reflexivity.
    + rewrite (contains_None _ _ Hv). functions_norm.
      rewrite (alter_id' _ _ "f_struct") by done.
      destruct (outs !! "mass") as [m|] eqn:Hm.
      * rewrite (contains_Some _ _ _ Hm). functions_norm.
        rewrite (vec_set_same _ _ m);
          [| done | rewrite (evalFunctions_length HS); symmetry; auto ].
        rewrite (alter_alt_Some _ _ _ m) by done. reflexivity.
      * rewrite (contains_None _ _ Hm). functions_norm.
        rewrite alter_id' by done. reflexivity.
  - functions_norm.
    destruct (outs !! "f_struct") as [v|] eqn:Hv.
    + rewrite (contains_Some _ _ _ Hv). functions_norm.
      rewrite (vec_set_same _ _ v) by
        (try done; rewrite (evalFunctions_length HS); symmetry; auto).
      functions_norm. rewrite contains_insert_other by eauto.
      rewrite (alter_alt_Some _ _ _ _ Hv).
      destruct (outs !! "mass") as [m|] eqn:Hm.
      * rewrite (contains_Some _ _ _ Hm). functions_norm.
        rewrite (vec_set_same _ _ m);
          [| by rewrite lookup_insert_ne
           | rewrite (evalFunctions_length HS); symmetry; auto ].
        rewrite (alter_alt_Some _ _ _ m) by by rewrite lookup_insert_ne.
        reflexivity.
      * rewrite (contains_None _ _ Hm). functions_norm.
        rewrite alter_id' by by rewrite lookup_insert_ne.
        reflexivity.
    + rewrite (contains_None _ _ Hv). functions_norm.
      rewrite (alter_id' _ _ "f_struct") by done.
      destruct (outs !! "mass") as [m|] eqn:Hm.
      * rewrite (contains_Some _ _ _ Hm). functions_norm.
        rewrite (vec_set_same _ _ m);
          [| done | rewrite (evalFunctions_length HS); symmetry; auto ].
        rewrite (alter_alt_Some _ _ _ m) by done. reflexivity.
      * rewrite (contains_None _ _ Hm). functions_norm.
        rewrite alter_id' by done. reflexivity.
Qed.
End functions.

Section functions_blocks.
Context `{TacsEngine}.
Import TacsFunctions.

Lemma np_mul_singleton (a : list F) (y : F) : np_mul a [y] = Ok (scale a y).
Proof.
  unfold np_mul, scale. destruct (decide (length a = length [y])) as [Hl|Hl].
  - destruct a as [|x [|x' a]]; try done.
  - destruct a as [|x [|x' a]]; try done.
Qed.

Lemma scale_length (a : list F) (y : F) : length (scale a y) = length a.
Proof. apply length_fmap. Qed.

Lemma set_xpt_sens_same (s : t) : set_xpt_sens (xpt_sens s) s = s.
Proof. by destruct s. Qed.

Lemma frame_d_inputs' (w : World) s din : d_inputs (frame w s din) = din.
Proof. reflexivity. Qed.

Lemma times_mass_run (d_outputs : gmap string (list F)) (m : F) x :
  d_outputs !! "mass" = Some [m] →
  times_mass d_outputs x = Ok (scale x m).
Proof.
  intros Hm. unfold times_mass, vec_get. rewrite Hm. simpl.
  apply np_mul_singleton.
Qed.

Lemma times_func_run (d_outputs : gmap string (list F)) seeds k g x :
  d_outputs !! "f_struct" = Some seeds → seeds !! k = Some g →
  times_func d_outputs k x = Ok (scale x g).
Proof.
  intros Hs Hg. unfold times_func, vec_get, getitem. rewrite Hs. simpl.
  by rewrite Hg.
Qed.

(** *** The three accumulation statements under their guards *)

Lemma design_sens_run (HS : EngineShapes) (w : World) (s : t)
    (din : gmap string (list F)) func times (g : F) :
  (∀ x, times x = Ok (scale x g)) →
  when (contains din "dv_struct") (design_sens func times) (frame w s din)
  = (frame w s
       (alter (λ o, vadd o (scale (evalDVSens (tacs s) func
                                     (np_zeros (length o))) g))
              "dv_struct" din),
     Ok ()).
Proof.
  intros Htimes. destruct (din !! "dv_struct") as [o|] eqn:Ho.
  - rewrite (contains_Some _ _ _ Ho), when_true.
    unfold design_sens. unfold_monad.
    destruct w as [s0 outs din0]. destruct s. functions_norm.
    unfold vec_get. rewrite Ho. functions_norm.
    rewrite Htimes. functions_norm.
    rewrite (vec_iadd_same _ _ o);
      [| done
       | by rewrite scale_length, (evalDVSens_length HS), np_zeros_length ].
    by rewrite (alter_alt_Some _ _ _ _ Ho).
  - rewrite (contains_None _ _ Ho), when_false.
    by rewrite alter_id' by done.
Qed.

Lemma node_sens_run (HS : EngineShapes) (w : World) (s : t)
    (din : gmap string (list F)) func times (g : F) :
  (∀ x, times x = Ok (scale x g)) →
  (∀ o, din !! "x_s0" = Some o → length (xpt_sens s) = length o) →
  ∃ X, length X = length (xpt_sens s) ∧
    when (contains din "x_s0") (node_sens func times) (frame w s din)
    = (frame w (set_xpt_sens X s)
         (alter (λ o, vadd o (scale (evalXptSens (tacs s) func (xpt_sens s))
                                    g))
                "x_s0" din),
       Ok ()).
Proof.
  intros Htimes Hx. destruct (din !! "x_s0") as [o|] eqn:Ho.
  - exists (evalXptSens (tacs s) func (xpt_sens s)).
    split; [apply (evalXptSens_length HS)|].
    rewrite (contains_Some _ _ _ Ho), when_true.
    unfold node_sens. unfold_monad. specialize (Hx o eq_refl).
    destruct w as [s0 outs din0]. destruct s.
    revert Hx. functions_norm. intros Hx.
    rewrite Htimes. functions_norm.
    rewrite (vec_iadd_same _ _ o);
      [| done | by rewrite scale_length, (evalXptSens_length HS) ].
    by rewrite (alter_alt_Some _ _ _ _ Ho).
  - exists (xpt_sens s). split; [done|].
    rewrite (contains_None _ _ Ho), when_false.
    by rewrite alter_id', set_xpt_sens_same by done.
Qed.

Lemma state_sens_run (HS : EngineShapes) (w : World) (s : t)
    (din : gmap string (list F)) func times (g : F) :
  (∀ x, times x = Ok (scale x g)) →
  (∀ o, din !! "u_s" = Some o → length (variables (tacs s)) = length o) →
  when (contains din "u_s") (state_sens func times) (frame w s din)
  = (frame w s
       (alter (λ o, vadd o (scale (evalSVSens (tacs s) func
                                     (createVec (tacs s))) g))
              "u_s" din),
     Ok ()).
Proof.
  intros Htimes Hu. destruct (din !! "u_s") as [o|] eqn:Ho.
  - rewrite (contains_Some _ _ _ Ho), when_true.
    unfold state_sens. unfold_monad. specialize (Hu o eq_refl).
    destruct w as [s0 outs din0]. destruct s.
    revert Hu. functions_norm. intros Hu.
    rewrite Htimes. functions_norm.
    rewrite (vec_iadd_same _ _ o);
      [| done
       | by rewrite scale_length, (evalSVSens_length HS),
              createVec_length ].
    by rewrite (alter_alt_Some _ _ _ _ Ho).
  - rewrite (contains_None _ _ Ho), when_false.
    by rewrite alter_id' by done.
Qed.
End functions_blocks.

Section functions_loop.
Context `{TacsEngine}.
Import TacsFunctions.

Lemma func_update_fit (HS : EngineShapes) state at_ xs func g d :
  seeds_fit (length xs) (length (variables at_)) d →
  seeds_fit (length xs) (length (variables at_))
            (func_update state at_ xs func g d).
Proof.
  intros [Hx Hu]. unfold func_update. split; intros o.
  - destruct state; simpl.
    + rewrite lookup_alter_ne, lookup_alter_eq by done.
      rewrite lookup_alter_ne by done. intros Ho.
      apply fmap_Some in Ho as (o' & Ho' & ->).
      rewrite vadd_length; [by apply Hx|].
      rewrite scale_length, (evalXptSens_length HS). by apply Hx.
    + rewrite lookup_alter_eq, lookup_alter_ne by done. intros Ho.
      apply fmap_Some in Ho as (o' & Ho' & ->).
      rewrite vadd_length; [by apply Hx|].
      rewrite scale_length, (evalXptSens_length HS). by apply Hx.
  - destruct state; simpl.
    + rewrite lookup_alter_eq, !lookup_alter_ne by done. intros Ho.
      apply fmap_Some in Ho as (o' & Ho' & ->).
      rewrite vadd_length; [by apply Hu|].
      rewrite scale_length, (evalSVSens_length HS), createVec_length.
      by apply Hu.
    + rewrite !lookup_alter_ne by done. apply Hu.
Qed.

Lemma func_update_overwrite (HK : KernelsOverwrite) state at_ xs xs' func g
    (d : gmap string (list F)) :
  length xs = length xs' →
  func_update state at_ xs func g d = func_update state at_ xs' func g d.
Proof.
  intros Hl. unfold func_update.
  by rewrite (xpt_sens_overwrites HK at_ func xs xs').
Qed.

Lemma funcs_update_overwrite (HK : KernelsOverwrite) at_ xs xs' seeds a fs
    (d : gmap string (list F)) :
  length xs = length xs' →
  funcs_update at_ xs seeds a fs d = funcs_update at_ xs' seeds a fs d.
Proof.
  intros Hl. unfold funcs_update.
  generalize (zip (seq a (length fs)) fs). intros l. revert d.
  induction l as [|e l IH]; intros d; cbn [foldl]; [done|].
  by rewrite IH, (func_update_overwrite HK _ _ xs xs').
Qed.

Lemma funcs_update_cons at_ xs seeds a f fs (d : gmap string (list F)) :
  funcs_update at_ xs seeds a (f :: fs) d
  = funcs_update at_ xs seeds (S a) fs
      (func_update true at_ xs f (default f0 (seeds !! a)) d).
Proof. reflexivity. Qed.

Lemma mass_seeds_run (HS : EngineShapes) (w : World) (s : t)
    (din d_outputs : gmap string (list F)) (m : F) :
  d_outputs !! "mass" = Some [m] →
  seeds_fit (length (xpt_sens s)) (length (variables (tacs s))) din →
  ∃ X, length X = length (xpt_sens s) ∧
    mass_seeds d_outputs (frame w s din)
    = (frame w (set_xpt_sens X s)
         (func_update false (tacs s) (xpt_sens s) StructuralMass m din),
       Ok ()).
Proof.
  intros Hm [Hx Hu]. unfold mass_seeds, func_update.
  unfold mbind, M_bind, gets. cbv beta iota zeta.
  rewrite frame_d_inputs'.
  rewrite (design_sens_run HS w s din _ _ m)
    by (intros x; by apply times_mass_run).
  cbv beta iota. rewrite frame_d_inputs', contains_alter.
  destruct (node_sens_run HS w s
              (alter (λ o, vadd o (scale (evalDVSens (tacs s) StructuralMass
                                            (np_zeros (length o))) m))
                     "dv_struct" din)
              StructuralMass (times_mass d_outputs) m)
    as (X & HX & Hrun).
  { intros x. by apply times_mass_run. }
  { intros o. rewrite lookup_alter_ne by done. apply Hx. }
  exists X. split; [done|].
  rewrite contains_alter in Hrun. rewrite Hrun. reflexivity.
Qed.

Lemma func_seeds_run (HS : EngineShapes) (w : World) (s : t)
    (din d_outputs : gmap string (list F)) (seeds : list F) (k : nat)
    (func : Func OtherFunc) (g : F) :
  d_outputs !! "f_struct" = Some seeds → seeds !! k = Some g →
  seeds_fit (length (xpt_sens s)) (length (variables (tacs s))) din →
  ∃ X, length X = length (xpt_sens s) ∧
    func_seeds d_outputs (k, func) (frame w s din)
    = (frame w (set_xpt_sens X s)
         (func_update true (tacs s) (xpt_sens s) func g din),
       Ok ()).
Proof.
  intros Hs Hg [Hx Hu]. unfold func_seeds, func_update.
  unfold mbind, M_bind, gets. cbv beta iota zeta.
  rewrite frame_d_inputs'.
  rewrite (design_sens_run HS w s din _ _ g)
    by (intros x; by apply (times_func_run _ seeds)).
  cbv beta iota. rewrite frame_d_inputs', contains_alter.
  destruct (node_sens_run HS w s
              (alter (λ o, vadd o (scale (evalDVSens (tacs s) func
                                            (np_zeros (length o))) g))
                     "dv_struct" din)
              func (times_func d_outputs k) g)
    as (X & HX & Hrun).
  { intros x. by apply (times_func_run _ seeds). }
  { intros o. rewrite lookup_alter_ne by done. apply Hx. }
  exists X. split; [done|].
  rewrite contains_alter in Hrun. rewrite Hrun.
  cbv beta iota. rewrite frame_d_inputs'.
  rewrite (state_sens_run HS w (set_xpt_sens X s) _ _ _ g).
  - reflexivity.
  - intros x. by apply (times_func_run _ seeds).
  - intros o. rewrite !lookup_alter_ne by done. apply Hu.
Qed.
End functions_loop.

Section functions_reverse_run.
Context `{TacsEngine}.
Import TacsFunctions.

Lemma funcs_loop_run (HS : EngineShapes) (HK : KernelsOverwrite)
    (w : World) (d_outputs : gmap string (list F)) (seeds : list F)
    (fs : list (Func OtherFunc)) :
  d_outputs !! "f_struct" = Some seeds →
  ∀ a s din,
    a + length fs ≤ length seeds →
    seeds_fit (length (xpt_sens s)) (length (variables (tacs s))) din →
    ∃ X, length X = length (xpt_sens s) ∧
      for_ (zip (seq a (length fs)) fs) (func_seeds d_outputs)
           (frame w s din)
      = (frame w (set_xpt_sens X s)
           (funcs_update (tacs s) (xpt_sens s) seeds a fs din),
         Ok ()).
Proof.
  intros Hs. induction fs as [|f fs IH]; intros a s din Ha Hfit.
  - exists (xpt_sens s). split; [done|].
    by rewrite set_xpt_sens_same.
  - cbn [length] in *.
    change (zip (seq a (S (length fs))) (f :: fs))
      with ((a, f) :: zip (seq (S a) (length fs)) fs).
    rewrite for_cons.
    destruct (lookup_lt_is_Some_2 seeds a) as [g Hg]; [lia|].
    destruct (func_seeds_run HS w s din d_outputs seeds a f g Hs Hg Hfit)
      as (X1 & HX1 & ->).
    destruct (IH (S a) (set_xpt_sens X1 s)
                 (func_update true (tacs s) (xpt_sens s) f g din))
      as (X2 & HX2 & ->); [lia| |].
    { cbn [xpt_sens tacs set_xpt_sens]. rewrite HX1.
      by apply func_update_fit. }
    exists X2. split; [by rewrite HX2|].
    rewrite funcs_update_cons, Hg. cbn [default xpt_sens tacs set_xpt_sens].
    by rewrite (funcs_update_overwrite HK _ X1 (xpt_sens s)).
Qed.

Lemma functions_on_self_update_ok (inputs : Inputs) (w : World) :
  Shaped inputs w →
  on_self (_update_internal inputs) w
  = (set_self (updated_self inputs (self w)) w, Ok ()).
Proof.
  intros Hw. unfold on_self.
  by rewrite functions_update_ok by (destruct Hw; congruence).
Qed.

(** *** Reverse-mode [compute_jacvec_product] as a whole *)

Lemma jac_run (HS : EngineShapes) (HK : KernelsOverwrite) (inputs : Inputs)
    (d_outputs : gmap string (list F)) (w : World) :
  Shaped inputs w → SeedShaped d_outputs (self w) →
  ∃ X, length X = length (xpt_sens (self w)) ∧
    compute_jacvec_product inputs d_outputs mode_rev w
    = (frame w
         (set_xpt_sens X
            (if check_partials (self w)
             then updated_self inputs (self w) else self w))
         (jac_update inputs (self w) d_outputs (d_inputs w)),
       Ok ()).
Proof.
  intros Hw Hd. unfold compute_jacvec_product.
  unfold mbind, M_bind, gets. cbv beta iota.
  rewrite bool_decide_eq_false_2 by done. rewrite when_false.
  cbv beta iota. rewrite bool_decide_eq_true_2 by done. rewrite when_true.
  cbv beta iota.
  set (s0 := if check_partials (self w)
             then updated_self inputs (self w) else self w).
  assert (Hup : when (check_partials (self w))
                  (on_self (_update_internal inputs)) w
                = (frame w s0 (d_inputs w), Ok ())).
  { unfold s0. destruct (check_partials (self w)).
    - rewrite when_true. by rewrite functions_on_self_update_ok.
    - rewrite when_false. by destruct w. }
  rewrite Hup. cbv beta iota. clear Hup.
  assert (Htacs : tacs s0 = point inputs (self w)).
  { unfold s0, point. by destruct (check_partials (self w)). }
  assert (Hxs : xpt_sens s0 = xpt_sens (self w)).
  { unfold s0. by destruct (check_partials (self w)). }
  assert (Hfl : func_list s0 = func_list (self w)).
  { unfold s0. by destruct (check_partials (self w)). }
  assert (Hfit : seeds_fit (length (xpt_sens s0))
                   (length (variables (tacs s0))) (d_inputs w)).
  { rewrite Hxs, Htacs. unfold point. destruct Hw.
    split; intros o Ho.
    - rewrite (d_x_s0_shape0 o Ho). done.
    - rewrite (d_u_s_shape0 o Ho).
      destruct (check_partials (self w)); simpl;
        rewrite ?(applyBCs_length HS); congruence. }
  unfold jac_update. rewrite <- Htacs, <- Hxs, <- Hfl.
  destruct Hd as [Hdm Hdf].
  destruct (d_outputs !! "mass") as [seed|] eqn:Hm.
  - assert (∃ m, seed = [m]) as [m ->].
    { specialize (Hdm seed eq_refl). destruct seed as [|m [|? ?]]; try done.
      by exists m. }
    rewrite (contains_Some _ _ _ Hm), when_true.
    destruct (mass_seeds_run HS w s0 (d_inputs w) d_outputs m Hm Hfit)
      as (X1 & HX1 & ->).
    cbv beta iota. cbn [lookup list_lookup default].
    destruct (d_outputs !! "f_struct") as [seeds|] eqn:Hf.
    + rewrite (contains_Some _ _ _ Hf), when_true.
      unfold mbind, M_bind, gets. cbv beta iota.
      cbn [self frame func_list set_xpt_sens]. unfold enumerate.
      destruct (funcs_loop_run HS HK w d_outputs seeds (func_list s0) Hf 0
                  (set_xpt_sens X1 s0)
                  (func_update false (tacs s0) (xpt_sens s0)
                               StructuralMass m (d_inputs w)))
        as (X2 & HX2 & Hrun).
      { rewrite Hfl. rewrite (Hdf seeds eq_refl). done. }
      { cbn [xpt_sens tacs set_xpt_sens]. rewrite HX1.
        by apply func_update_fit. }
      cbn [func_list set_xpt_sens] in Hrun. rewrite Hrun.
      cbn [xpt_sens set_xpt_sens] in HX2.
      exists X2. split; [by rewrite HX2, HX1, Hxs|].
      cbn [xpt_sens tacs set_xpt_sens].
      by rewrite (funcs_update_overwrite HK _ X1 (xpt_sens s0)).
    + rewrite (contains_None _ _ Hf), when_false.
      exists X1. split; [by rewrite HX1, Hxs|]. done.
  - rewrite (contains_None _ _ Hm), when_false. cbv beta iota.
    destruct (d_outputs !! "f_struct") as [seeds|] eqn:Hf.
    + rewrite (contains_Some _ _ _ Hf), when_true.
      unfold mbind, M_bind, gets. cbv beta iota.
      cbn [self frame]. unfold enumerate.
      destruct (funcs_loop_run HS HK w d_outputs seeds (func_list s0) Hf 0
                  s0 (d_inputs w))
        as (X2 & HX2 & ->); [|done|].
      { rewrite Hfl. rewrite (Hdf seeds eq_refl). done. }
      exists X2. split; [by rewrite HX2, Hxs|]. done.
    + rewrite (contains_None _ _ Hf), when_false.
      exists (xpt_sens s0). split; [by rewrite Hxs|].
      by rewrite set_xpt_sens_same.
Qed.
End functions_reverse_run.

Section functions_idempotent.
Context `{TacsEngine}.
Import TacsFunctions.

Lemma functions_reassemble_run (HS : EngineShapes) (inputs : Inputs)
    (w : World) :
  Shaped inputs w →
  reassemble inputs w = set_self (updated_self inputs (self w)) w ∧
  Shaped inputs (reassemble inputs w).
Proof.
  intros Hw. unfold reassemble.
  rewrite functions_on_self_update_ok by done. split; [done|].
  destruct Hw. split; simpl; rewrite ?(applyBCs_length HS); shape_solve.
Qed.

Lemma functions_reassemble_iter (HS : EngineShapes) (inputs : Inputs)
    (w : World) (k : nat) :
  Shaped inputs w →
  let w' := Nat.iter k (reassemble inputs) w in
  Shaped inputs w' ∧ outputs w' = outputs w ∧
  check_partials (self w') = check_partials (self w) ∧
  func_list (self w') = func_list (self w) ∧
  (0 < k → tacs (self w') = updated inputs).
Proof.
  intros Hw. induction k as [|k IH]; simpl.
  - split; [done|]. split; [done|]. split; [done|]. split; [done|].
    intros ?. lia.
  - destruct IH as (Hk & Hout & Hc & Hf & _).
    destruct (functions_reassemble_run HS inputs _ Hk) as [-> Hs].
    split; [done|]. simpl. by rewrite Hout, Hc, Hf.
Qed.

(** [compute] after any number of extra runs of
    [_update_internal] on the same inputs stores the same function values;
    under [check_partials], which makes [compute] run the step itself, the
    same values as without any extra run. *)
Lemma compute_after_reassemble (HS : EngineShapes) (inputs : Inputs)
    (w : World) (k : nat) :
  Shaped inputs w →
  let once := reassemble inputs w in
  let more := Nat.iter (S k) (reassemble inputs) w in
  (compute inputs more).2 = Ok () ∧
  outputs (compute inputs more).1 = outputs (compute inputs once).1 ∧
  tacs (self more) = tacs (self once) ∧
  (check_partials (self w) = true →
   outputs (compute inputs more).1 = outputs (compute inputs w).1).
Proof.
  intros Hw once more.
  destruct (functions_reassemble_iter HS inputs w (S k) Hw)
    as (Hm & Hout & Hc & Hf & Ht).
  destruct (functions_reassemble_iter HS inputs w 1 Hw)
    as (Ho & Hout1 & Hc1 & Hf1 & Ht1).
  fold more in Hm, Hout, Hc, Hf, Ht.
  change (Nat.iter 1 (reassemble inputs) w) with once in *.
  rewrite (compute_run HS inputs more Hm), (compute_run HS inputs once Ho),
    (compute_run HS inputs w Hw).
  cbn [fst snd outputs]. unfold point.
  rewrite Hout, Hout1, Hc, Hc1, Hf, Hf1, Ht, Ht1 by lia.
  split; [done|]. split; [|split; [done|]].
  - by destruct (check_partials (self w)).
  - by intros ->.
Qed.
End functions_idempotent.

Section functions_mass.
Context `{TacsEngine}.
Import TacsFunctions.

Lemma vec_iadd_other (v v' : gmap string (list F)) k x name :
  vec_iadd v k x = Ok v' → name ≠ k → v' !! name = v !! name.
Proof.
  unfold vec_iadd, vec_get. destruct (v !! k) as [a|]; simpl; [|done].
  destruct (iadd a x) as [a'|]; simpl; [|done].
  intros [= <-] Hne. by rewrite lookup_insert_ne.
Qed.

(** *** What the mass path leaves alone *)

Lemma design_sens_frame func times (w : World) name :
  name ≠ "dv_struct" →
  d_inputs (design_sens func times w).1 !! name = d_inputs w !! name.
Proof.
  intros Hne. unfold design_sens. unfold_monad.
  destruct w as [s outs din]. destruct s. functions_norm.
  destruct (vec_get din "dv_struct") as [o|]; [|done]. functions_norm.
  destruct (times _) as [p|]; [|done]. functions_norm.
  destruct (vec_iadd din "dv_struct" p) as [d'|] eqn:Hd; [|done].
  functions_norm. by apply (vec_iadd_other _ _ _ _ _ Hd).
Qed.

Lemma node_sens_frame func times (w : World) name :
  name ≠ "x_s0" →
  d_inputs (node_sens func times w).1 !! name = d_inputs w !! name.
Proof.
  intros Hne. unfold node_sens. unfold_monad.
  destruct w as [s outs din]. destruct s. functions_norm.
  destruct (times _) as [p|]; [|done]. functions_norm.
  destruct (vec_iadd din "x_s0" p) as [d'|] eqn:Hd; [|done].
  functions_norm. by apply (vec_iadd_other _ _ _ _ _ Hd).
Qed.

Lemma mass_seeds_frame d_outputs (w : World) name :
  name ≠ "dv_struct" → name ≠ "x_s0" →
  d_inputs (mass_seeds d_outputs w).1 !! name = d_inputs w !! name.
Proof.
  intros Hdv Hx. unfold mass_seeds. unfold mbind, M_bind, gets.
  cbv beta iota zeta.
  assert (H1 : d_inputs (when (contains (d_inputs w) "dv_struct")
                 (design_sens StructuralMass (times_mass d_outputs)) w).1
               !! name = d_inputs w !! name).
  { destruct (contains _ _); [|done]. rewrite when_true.
    by apply design_sens_frame. }
  destruct (when (contains (d_inputs w) "dv_struct") _ w) as [w1 [[]|e]];
    cbn [fst] in *; [|done].
  rewrite <- H1.
  destruct (contains (d_inputs w1) "x_s0"); [|done]. rewrite when_true.
  by apply node_sens_frame.
Qed.

(** Without a seed on [f_struct], [compute_jacvec_product] changes no
    input seed other than those on [dv_struct] and [x_s0], in any mode and
    whether it returns or raises. *)
Lemma mass_path_frame (inputs : Inputs) (d_outputs : gmap string (list F))
    (mode : string) (w : World) (name : string) :
  d_outputs !! "f_struct" = None →
  name ≠ "dv_struct" → name ≠ "x_s0" →
  d_inputs (compute_jacvec_product inputs d_outputs mode w).1 !! name
  = d_inputs w !! name.
Proof.
  intros Hf Hdv Hx. unfold compute_jacvec_product.
  unfold mbind, M_bind, gets. cbv beta iota.
  assert (Hfwd : ∀ b, d_inputs (when b (λ s : World,
                   (if check_partials (self s)
                    then mret () else raise not_implemented) s) w).1
                 = d_inputs w).
  { intros []; [|done]. rewrite when_true.
    by destruct (check_partials (self w)). }
  specialize (Hfwd (bool_decide (mode = mode_fwd))).
  destruct (when (bool_decide (mode = mode_fwd)) _ w) as [w0 [[]|e]];
    cbn [fst] in *; [|by rewrite Hfwd].
  rewrite <- Hfwd. clear Hfwd.
  destruct (bool_decide (mode = mode_rev)); [|done]. rewrite when_true.
  cbv beta iota.
  assert (Hup : d_inputs (when (check_partials (self w0))
                  (on_self (_update_internal inputs)) w0).1 = d_inputs w0).
  { destruct (check_partials (self w0)); [|done]. rewrite when_true.
    apply functions_on_self_frame. }
  destruct (when (check_partials (self w0)) _ w0) as [w1 [[]|e]];
    cbn [fst] in *; [|by rewrite Hup].
  rewrite <- Hup. clear Hup.
  rewrite (contains_None _ _ Hf).
  destruct (contains d_outputs "mass").
  - rewrite when_true.
    pose proof (mass_seeds_frame d_outputs w1 name Hdv Hx) as Hm.
    destruct (mass_seeds d_outputs w1) as [w2 [[]|e]]; cbn [fst] in *;
      [|done].
    by rewrite when_false.
  - by rewrite !when_false.
Qed.

(** With the declared shapes, [compute] returns and stores in ['mass']
    what the engine evaluates for the mass functional; under
    [MassIgnoresState] that value is the same for two inputs that differ
    in [u_s] only. *)
Lemma mass_output_independent (HS : EngineShapes) (HM : MassIgnoresState)
    (i1 i2 : Inputs) (w : World) :
  Shaped i1 w → Shaped i2 w →
  dv_struct i1 = dv_struct i2 → x_s0 i1 = x_s0 i2 →
  (compute i1 w).2 = Ok () ∧ (compute i2 w).2 = Ok () ∧
  outputs (compute i1 w).1 !! "mass" = outputs (compute i2 w).1 !! "mass" ∧
  outputs (compute i1 w).1 !! "mass"
  = (λ _, evalFunctions (point i1 (self w)) [StructuralMass])
    <$> outputs w !! "mass" ∧
  outputs (compute i1 w).1 !! "f_struct"
  = (λ _, evalFunctions (point i1 (self w)) (func_list (self w)))
    <$> outputs w !! "f_struct".
Proof.
  intros H1 H2 Hdv Hx.
  rewrite (compute_run HS i1 w H1), (compute_run HS i2 w H2).
  cbn [fst snd outputs]. split; [done|]. split; [done|].
  rewrite !lookup_alter_eq, !lookup_alter_ne by done.
  rewrite !lookup_alter_eq.
  split; [|done].
  destruct (outputs w !! "mass"); simpl; [|done]. f_equal.
  unfold point. destruct (check_partials (self w)); [|done].
  by apply HM.
Qed.
End functions_mass.

(** *** Accumulation in [compute_jacvec_product] *)

Section functions_accumulation.
Context `{TacsEngine}.
Import TacsFunctions.

Lemma func_update_dv_struct state at_ xs func g (d : gmap string (list F)) :
  func_update state at_ xs func g d !! "dv_struct"
  = (λ o, vadd o (scale (evalDVSens at_ func (np_zeros (length o))) g))
    <$> d !! "dv_struct".
Proof.
  unfold func_update. destruct state; cbn [id].
  - rewrite !lookup_alter_ne by done. apply lookup_alter_eq.
  - rewrite lookup_alter_ne by done. apply lookup_alter_eq.
Qed.

Lemma func_update_x_s0 state at_ xs func g (d : gmap string (list F)) :
  func_update state at_ xs func g d !! "x_s0"
  = (λ o, vadd o (scale (evalXptSens at_ func xs) g)) <$> d !! "x_s0".
Proof.
  unfold func_update. destruct state; cbn [id].
  - rewrite lookup_alter_ne, lookup_alter_eq by done.
    by rewrite lookup_alter_ne by done.
  - rewrite lookup_alter_eq. by rewrite lookup_alter_ne by done.
Qed.

Lemma func_update_u_s state at_ xs func g (d : gmap string (list F)) :
  func_update state at_ xs func g d !! "u_s"
  = (λ o, if state
          then vadd o (scale (evalSVSens at_ func (createVec at_)) g)
          else o) <$> d !! "u_s".
Proof.
  unfold func_update. destruct state; cbn [id].
  - rewrite lookup_alter_eq. by rewrite !lookup_alter_ne by done.
  - rewrite !lookup_alter_ne by done. by destruct (d !! "u_s").
Qed.

Lemma func_update_other state at_ xs func g (d : gmap string (list F)) name :
  name ≠ "dv_struct" → name ≠ "x_s0" → name ≠ "u_s" →
  func_update state at_ xs func g d !! name = d !! name.
Proof.
  intros. unfold func_update. destruct state; cbn [id];
    by rewrite !lookup_alter_ne by done.
Qed.

Lemma func_update_commute (HE : ExactArithmetic) (HS : EngineShapes)
    at_ xs st1 f1 g1 st2 f2 g2 (d : gmap string (list F)) :
  func_update st1 at_ xs f1 g1 (func_update st2 at_ xs f2 g2 d)
  = func_update st2 at_ xs f2 g2 (func_update st1 at_ xs f1 g1 d).
Proof.
  apply map_eq. intros k.
  destruct (decide (k = "dv_struct")) as [->|Hdv].
  { rewrite !func_update_dv_struct.
    destruct (d !! "dv_struct"); simpl; [|done]. f_equal.
    rewrite !vadd_length
      by (by rewrite scale_length, (evalDVSens_length HS), np_zeros_length).
    by apply vadd_swap. }
  destruct (decide (k = "x_s0")) as [->|Hx].
  { rewrite !func_update_x_s0. destruct (d !! "x_s0"); simpl; [|done].
    f_equal. by apply vadd_swap. }
  destruct (decide (k = "u_s")) as [->|Hu].
  { rewrite !func_update_u_s. destruct (d !! "u_s"); simpl; [|done].
    f_equal. destruct st1, st2; try done. by apply vadd_swap. }
  by rewrite !func_update_other.
Qed.

Lemma apply_steps_cons at_ xs st steps (d : gmap string (list F)) :
  apply_steps at_ xs (st :: steps) d
  = apply_steps at_ xs steps (func_update st.1.1 at_ xs st.1.2 st.2 d).
Proof. reflexivity. Qed.

Lemma apply_steps_app at_ xs l1 l2 (d : gmap string (list F)) :
  apply_steps at_ xs (l1 ++ l2) d
  = apply_steps at_ xs l2 (apply_steps at_ xs l1 d).
Proof. apply foldl_app. Qed.

Lemma step_commutes (HE : ExactArithmetic) (HS : EngineShapes)
    at_ xs st f g steps (d : gmap string (list F)) :
  func_update st at_ xs f g (apply_steps at_ xs steps d)
  = apply_steps at_ xs steps (func_update st at_ xs f g d).
Proof.
  revert d. induction steps as [|s steps IH]; intros d; [done|].
  rewrite !apply_steps_cons, IH. f_equal. by apply func_update_commute.
Qed.

Lemma apply_steps_commute (HE : ExactArithmetic) (HS : EngineShapes)
    at_ xs l1 l2 (d : gmap string (list F)) :
  apply_steps at_ xs l1 (apply_steps at_ xs l2 d)
  = apply_steps at_ xs l2 (apply_steps at_ xs l1 d).
Proof.
  revert d. induction l1 as [|s l1 IH]; intros d; [done|].
  rewrite !apply_steps_cons. rewrite step_commutes by done. apply IH.
Qed.

Lemma funcs_update_steps at_ xs seeds fs (d : gmap string (list F)) :
  funcs_update at_ xs seeds 0 fs d
  = apply_steps at_ xs
      ((λ entry, (true, entry.2, default f0 (seeds !! entry.1)))
       <$> zip (seq 0 (length fs)) fs) d.
Proof. unfold funcs_update, apply_steps. by rewrite foldl_fmap. Qed.

Lemma jac_update_steps (inputs : Inputs) (s : t)
    (d_outputs d : gmap string (list F)) :
  jac_update inputs s d_outputs d
  = apply_steps (point inputs s) (xpt_sens s) (jac_steps s d_outputs) d.
Proof.
  unfold jac_update, jac_steps. rewrite apply_steps_app.
  destruct (d_outputs !! "mass"), (d_outputs !! "f_struct");
    by rewrite ?funcs_update_steps.
Qed.

(** The steps add the same terms to two seed vectors of the same
    shapes. *)
Lemma apply_steps_additive at_ xs steps name :
  ∀ (d d' : gmap string (list F)) o o',
    d !! name = Some o → d' !! name = Some o' → length o = length o' →
    ∃ terms,
      apply_steps at_ xs steps d !! name = Some (foldl vadd o terms) ∧
      apply_steps at_ xs steps d' !! name = Some (foldl vadd o' terms).
Proof.
  induction steps as [|[[st f] g] steps IH]; intros d d' o o' Ho Ho' Hl.
  - by exists [].
  - rewrite !apply_steps_cons. cbn [fst snd].
    destruct (decide (name = "dv_struct")) as [->|Hdv].
    { destruct (IH (func_update st at_ xs f g d)
                   (func_update st at_ xs f g d')
                   (vadd o (scale (evalDVSens at_ f (np_zeros (length o))) g))
                   (vadd o' (scale (evalDVSens at_ f (np_zeros (length o))) g)))
        as (terms & -> & ->).
      - by rewrite func_update_dv_struct, Ho.
      - by rewrite func_update_dv_struct, Ho', Hl.
      - unfold vadd. rewrite !length_zip_with. lia.
      - by eexists (_ :: terms). }
    destruct (decide (name = "x_s0")) as [->|Hx].
    { destruct (IH (func_update st at_ xs f g d)
                   (func_update st at_ xs f g d')
                   (vadd o (scale (evalXptSens at_ f xs) g))
                   (vadd o' (scale (evalXptSens at_ f xs) g)))
        as (terms & -> & ->).
      - by rewrite func_update_x_s0, Ho.
      - by rewrite func_update_x_s0, Ho'.
      - unfold vadd. rewrite !length_zip_with. lia.
      - by eexists (_ :: terms). }
    destruct (decide (name = "u_s")) as [->|Hu].
    { destruct st.
      - destruct (IH (func_update true at_ xs f g d)
                     (func_update true at_ xs f g d')
                     (vadd o (scale (evalSVSens at_ f (createVec at_)) g))
                     (vadd o' (scale (evalSVSens at_ f (createVec at_)) g)))
          as (terms & -> & ->).
        + by rewrite func_update_u_s, Ho.
        + by rewrite func_update_u_s, Ho'.
        + unfold vadd. rewrite !length_zip_with. lia.
        + by eexists (_ :: terms).
      - apply IH; [| |done].
        + by rewrite func_update_u_s, Ho.
        + by rewrite func_update_u_s, Ho'. }
    apply IH; [| |done]; by rewrite func_update_other.
Qed.
End functions_accumulation.

Section functions_commutation.
Context `{TacsEngine}.
Import TacsFunctions.

Lemma apply_steps_fit (HS : EngineShapes) at_ xs steps
    (d : gmap string (list F)) :
  seeds_fit (length xs) (length (variables at_)) d →
  seeds_fit (length xs) (length (variables at_)) (apply_steps at_ xs steps d).
Proof.
  revert d. induction steps as [|st steps IH]; intros d Hd; [done|].
  rewrite apply_steps_cons. apply IH. by apply func_update_fit.
Qed.

Lemma apply_steps_overwrite (HK : KernelsOverwrite) at_ xs xs' steps
    (d : gmap string (list F)) :
  length xs = length xs' →
  apply_steps at_ xs steps d = apply_steps at_ xs' steps d.
Proof.
  intros Hl. revert d. induction steps as [|st steps IH]; intros d; [done|].
  rewrite !apply_steps_cons, IH.
  by rewrite (func_update_overwrite HK _ _ xs xs').
Qed.

Lemma jac_update_cong (HK : KernelsOverwrite) (inputs : Inputs) (s s' : t)
    (d_outputs d : gmap string (list F)) :
  point inputs s' = point inputs s →
  length (xpt_sens s') = length (xpt_sens s) →
  func_list s' = func_list s →
  jac_update inputs s' d_outputs d = jac_update inputs s d_outputs d.
Proof.
  intros Hp Hx Hf. rewrite !jac_update_steps, Hp.
  unfold jac_steps. rewrite Hf.
  by apply apply_steps_overwrite.
Qed.

Lemma functions_set_d_inputs_shaped (inputs : Inputs) (w : World)
    (d : gmap string (list F)) :
  Shaped inputs w → same_shape d (d_inputs w) →
  Shaped inputs (set_d_inputs d w).
Proof.
  intros [] Hd. split; try done; simpl; intros v Hv;
    destruct (same_shape_lookup _ _ _ _ Hd Hv) as (o & Ho & <-); auto.
Qed.

Lemma point_shape (HS : EngineShapes) (inputs : Inputs) (w : World) :
  Shaped inputs w →
  length (variables (point inputs (self w)))
  = length (variables (tacs (self w))) ∧
  length (xpts (point inputs (self w))) = length (xpts (tacs (self w))).
Proof.
  intros []. unfold point. destruct (check_partials (self w)); simpl;
    rewrite ?(applyBCs_length HS); done.
Qed.

(** One reverse-mode call, seen from the world it started in. *)
Lemma jac_run_spec (HS : EngineShapes) (HK : KernelsOverwrite)
    (inputs : Inputs) (d_outputs : gmap string (list F)) (w : World) :
  Shaped inputs w → SeedShaped d_outputs (self w) →
  let w' := rev_run inputs d_outputs w in
  (compute_jacvec_product inputs d_outputs mode_rev w).2 = Ok () ∧
  d_inputs w' = jac_update inputs (self w) d_outputs (d_inputs w) ∧
  outputs w' = outputs w ∧
  point inputs (self w') = point inputs (self w) ∧
  length (xpt_sens (self w')) = length (xpt_sens (self w)) ∧
  func_list (self w') = func_list (self w) ∧
  Shaped inputs w'.
Proof.
  intros Hw Hd w'. subst w'. unfold rev_run.
  destruct (jac_run HS HK inputs d_outputs w Hw Hd) as (X & HX & ->).
  cbn [fst snd d_inputs outputs self frame].
  destruct (point_shape HS inputs w Hw) as [Hpv Hpx].
  assert (Hfit : seeds_fit (length (xpt_sens (self w)))
                   (length (variables (point inputs (self w))))
                   (jac_update inputs (self w) d_outputs (d_inputs w))).
  { rewrite jac_update_steps. apply apply_steps_fit; [done|].
    rewrite Hpv. destruct Hw. split; intros o Ho.
    - rewrite (d_x_s0_shape0 o Ho). done.
    - rewrite (d_u_s_shape0 o Ho). done. }
  destruct Hfit as [Hfx Hfu]. unfold point in *.
  destruct Hw. destruct (check_partials (self w)) eqn:Hc.
  - split; [done|]. split; [done|]. split; [done|].
    split; [simpl; by rewrite Hc|].
    split; [done|]. split; [done|].
    split; simpl; rewrite ?(applyBCs_length HS); try congruence; auto.
    + intros v Hv. rewrite <- (Hfx v Hv). congruence.
    + intros v Hv. rewrite <- (Hfu v Hv). simpl.
      by rewrite (applyBCs_length HS).
  - split; [done|]. split; [done|]. split; [done|].
    split; [simpl; by rewrite Hc|].
    split; [done|]. split; [done|].
    split; simpl; try congruence; auto.
    + intros v Hv. rewrite <- (Hfx v Hv). congruence.
    + intros v Hv. by rewrite <- (Hfu v Hv).
Qed.

Lemma jac_two_runs (HS : EngineShapes) (HK : KernelsOverwrite)
    (inputs : Inputs) (dA dB : gmap string (list F)) (w : World) :
  Shaped inputs w → SeedShaped dA (self w) → SeedShaped dB (self w) →
  (compute_jacvec_product inputs dB mode_rev (rev_run inputs dA w)).2
  = Ok () ∧
  d_inputs (rev_run inputs dB (rev_run inputs dA w))
  = jac_update inputs (self w) dB
      (jac_update inputs (self w) dA (d_inputs w)).
Proof.
  intros Hw HA HB.
  destruct (jac_run_spec HS HK inputs dA w Hw HA)
    as (_ & Hin & _ & Hp & Hx & Hf & Hw1).
  assert (HB1 : SeedShaped dB (self (rev_run inputs dA w))).
  { destruct HB. split; [done|]. by rewrite Hf. }
  destruct (jac_run_spec HS HK inputs dB _ Hw1 HB1) as (Hok & -> & _).
  split; [done|]. rewrite Hin. by apply jac_update_cong.
Qed.

(** The input seeds two reverse-mode calls leave do not depend on the
    order of the calls. *)
Lemma jac_commutes (HE : ExactArithmetic) (HS : EngineShapes)
    (HK : KernelsOverwrite) (inputs : Inputs)
    (dA dB : gmap string (list F)) (w : World) :
  Shaped inputs w → SeedShaped dA (self w) → SeedShaped dB (self w) →
  d_inputs (rev_run inputs dB (rev_run inputs dA w))
  = d_inputs (rev_run inputs dA (rev_run inputs dB w)).
Proof.
  intros Hw HA HB.
  destruct (jac_two_runs HS HK inputs dA dB w Hw HA HB) as [_ ->].
  destruct (jac_two_runs HS HK inputs dB dA w Hw HB HA) as [_ ->].
  rewrite !jac_update_steps. by apply apply_steps_commute.
Qed.

(** The seeds on the mass and on the function list, given in one call,
    leave what they leave when given in two calls. *)
Lemma jac_siblings (HS : EngineShapes) (HK : KernelsOverwrite)
    (inputs : Inputs) (dA dB : gmap string (list F)) (w : World) :
  Shaped inputs w → SeedShaped dA (self w) → SeedShaped dB (self w) →
  dA !! "f_struct" = None → dB !! "mass" = None →
  (compute_jacvec_product inputs (dA ∪ dB) mode_rev w).2 = Ok () ∧
  d_inputs (rev_run inputs (dA ∪ dB) w)
  = d_inputs (rev_run inputs dB (rev_run inputs dA w)).
Proof.
  intros Hw HA HB HAf HBm.
  assert (Hm : (dA ∪ dB) !! "mass" = dA !! "mass").
  { rewrite lookup_union, HBm. by destruct (dA !! "mass"). }
  assert (Hf : (dA ∪ dB) !! "f_struct" = dB !! "f_struct").
  { rewrite lookup_union, HAf. by destruct (dB !! "f_struct"). }
  assert (HAB : SeedShaped (dA ∪ dB) (self w)).
  { destruct HA, HB. split; intros v; rewrite ?Hm, ?Hf; auto. }
  destruct (jac_run_spec HS HK inputs (dA ∪ dB) w Hw HAB) as (Hok & -> & _).
  destruct (jac_two_runs HS HK inputs dA dB w Hw HA HB) as [_ ->].
  split; [done|]. unfold jac_update. by rewrite Hm, Hf, HAf, HBm.
Qed.

(** [compute_jacvec_product] adds to the seeds it finds: the terms it adds
    are the same for two seed vectors of the same shapes. *)
Lemma jac_additive (HS : EngineShapes) (HK : KernelsOverwrite)
    (inputs : Inputs) (d_outputs : gmap string (list F)) (w : World)
    (din din' : gmap string (list F)) (name : string) (o o' : list F) :
  Shaped inputs w → SeedShaped d_outputs (self w) →
  same_shape din (d_inputs w) → same_shape din' (d_inputs w) →
  din !! name = Some o → din' !! name = Some o' →
  ∃ terms,
    d_inputs (rev_run inputs d_outputs (set_d_inputs din w)) !! name
    = Some (foldl vadd o terms) ∧
    d_inputs (rev_run inputs d_outputs (set_d_inputs din' w)) !! name
    = Some (foldl vadd o' terms).
Proof.
  intros Hw Hd Hs Hs' Ho Ho'.
  destruct (jac_run_spec HS HK inputs d_outputs (set_d_inputs din w))
    as (_ & -> & _); [by apply functions_set_d_inputs_shaped|done|].
  destruct (jac_run_spec HS HK inputs d_outputs (set_d_inputs din' w))
    as (_ & -> & _); [by apply functions_set_d_inputs_shaped|done|].
  cbn [self d_inputs set_d_inputs]. rewrite !jac_update_steps.
  apply apply_steps_additive; try done.
  destruct (same_shape_lookup _ _ _ _ Hs Ho) as (x & Hx & <-).
  destruct (same_shape_lookup _ _ _ _ Hs' Ho') as (x' & Hx' & <-).
  congruence.
Qed.
End functions_commutation.

Section functions_contributions.
Context `{TacsEngine}.
Import TacsFunctions.

(** The steps leave in the seed on [name] the old array plus their terms,
    one after the other. *)
Lemma apply_steps_terms (HS : EngineShapes) at_ xs steps name :
  ∀ (d : gmap string (list F)) o,
    d !! name = Some o →
    seeds_fit (length xs) (length (variables at_)) d →
    apply_steps at_ xs steps d !! name
    = Some (foldl vadd o (omap (step_term at_ xs name (length o)) steps)).
Proof.
  induction steps as [|[[st f] g] steps IH]; intros d o Ho Hfit; [done|].
  rewrite apply_steps_cons. cbn [fst snd omap list_omap].
  pose proof (func_update_fit HS st at_ xs f g d Hfit) as Hfit'.
  destruct Hfit as [Hx Hu]. unfold step_term at 1. cbn [fst snd].
  destruct (decide (name = "dv_struct")) as [->|Hdv].
  { assert (Hl : length (vadd o (scale (evalDVSens at_ f
                              (np_zeros (length o))) g)) = length o).
    { apply vadd_length.
      by rewrite scale_length, (evalDVSens_length HS), np_zeros_length. }
    rewrite (IH _ (vadd o (scale (evalDVSens at_ f
                                    (np_zeros (length o))) g))).
    - by rewrite Hl.
    - by rewrite func_update_dv_struct, Ho.
    - done. }
  destruct (decide (name = "x_s0")) as [->|Hxs].
  { assert (Hl : length (vadd o (scale (evalXptSens at_ f xs) g))
                 = length o).
    { apply vadd_length.
      rewrite scale_length, (evalXptSens_length HS). by apply Hx. }
    rewrite (IH _ (vadd o (scale (evalXptSens at_ f xs) g))).
    - by rewrite Hl.
    - by rewrite func_update_x_s0, Ho.
    - done. }
  destruct (decide (name = "u_s")) as [->|Hus].
  { destruct st.
    - assert (Hl : length (vadd o (scale (evalSVSens at_ f
                                            (createVec at_)) g))
                   = length o).
      { apply vadd_length.
        rewrite scale_length, (evalSVSens_length HS), createVec_length.
        by apply Hu. }
      rewrite (IH _ (vadd o (scale (evalSVSens at_ f (createVec at_)) g))).
      + by rewrite Hl.
      + by rewrite func_update_u_s, Ho.
      + done.
    - rewrite (IH _ o); [done| |done].
      by rewrite func_update_u_s, Ho. }
  rewrite (IH _ o); [done| |done].
  by rewrite func_update_other.
Qed.

(** Reverse-mode [compute_jacvec_product], started on input seeds [din]
    of the declared shapes, returns and leaves in every seed the old
    array plus the contributions of the call. *)
Lemma jac_contributes (HS : EngineShapes) (HK : KernelsOverwrite)
    (inputs : Inputs) (d_outputs : gmap string (list F)) (w : World)
    (din : gmap string (list F)) (name : string) (old : list F) :
  Shaped inputs w → SeedShaped d_outputs (self w) →
  same_shape din (d_inputs w) → din !! name = Some old →
  (compute_jacvec_product inputs d_outputs mode_rev
     (set_d_inputs din w)).2 = Ok () ∧
  d_inputs (rev_run inputs d_outputs (set_d_inputs din w)) !! name
  = Some (foldl vadd old
            (jac_contributions inputs (self w) d_outputs name
               (length old))).
Proof.
  intros Hw Hd Hs Hold.
  assert (Hw' : Shaped inputs (set_d_inputs din w))
    by (by apply functions_set_d_inputs_shaped).
  destruct (point_shape HS inputs (set_d_inputs din w) Hw') as [Hpv Hpx].
  destruct (jac_run_spec HS HK inputs d_outputs (set_d_inputs din w))
    as (Hok & -> & _); [done|done|].
  split; [done|].
  cbn [self d_inputs set_d_inputs] in *. rewrite jac_update_steps.
  apply (apply_steps_terms HS); [done|].
  rewrite Hpv. destruct Hw'. cbn [self d_inputs set_d_inputs] in *.
  split; intros o Ho.
  - by rewrite (d_x_s0_shape0 o Ho).
  - by rewrite (d_u_s_shape0 o Ho).
Qed.
End functions_contributions.

(** ** The contracts of the two components *)

Section contracts.
Context `{TacsEngine}.

(** C5.  The mass output of [TacsFunctions] does not depend on the state
    input: for an engine whose mass functional does not read the state
    variables, [compute] on two inputs that differ in [u_s] only completes
    on both and stores the same ['mass'].  The reverse-mode path of the
    mass (a call whose seeds hold no ['f_struct']) leaves the seed on
    [u_s], and on any input other than [dv_struct] and [x_s0], as it found
    it, whatever the engine. *)
Theorem mass_independent_of_state (HS : EngineShapes)
    (HM : MassIgnoresState) (i1 i2 : TacsFunctions.Inputs)
    (w : TacsFunctions.World) (d_outputs : gmap string (list F))
    (mode : string) :
  TacsFunctions.Shaped i1 w → TacsFunctions.Shaped i2 w →
  TacsFunctions.dv_struct i1 = TacsFunctions.dv_struct i2 →
  TacsFunctions.x_s0 i1 = TacsFunctions.x_s0 i2 →
  d_outputs !! "f_struct" = None →
  (TacsFunctions.compute i1 w).2 = Ok () ∧
  (TacsFunctions.compute i2 w).2 = Ok () ∧
  TacsFunctions.outputs (TacsFunctions.compute i1 w).1 !! "mass"
  = TacsFunctions.outputs (TacsFunctions.compute i2 w).1 !! "mass" ∧
  (∀ name, name ≠ "dv_struct" → name ≠ "x_s0" →
     TacsFunctions.d_inputs
       (TacsFunctions.compute_jacvec_product i1 d_outputs mode w).1 !! name
     = TacsFunctions.d_inputs w !! name).
Proof.
  intros H1 H2 Hdv Hx Hf.
  destruct (mass_output_independent HS HM i1 i2 w H1 H2 Hdv Hx)
    as (Hok1 & Hok2 & Hmass & _).
  split; [done|]. split; [done|]. split; [done|].
  intros name Hn1 Hn2. by apply mass_path_frame.
Qed.

(** C8.  Both reverse-mode entry points add to the input seeds they find.
    [TacsSolver.apply_linear] completes and leaves in every input seed the
    old array plus a contribution that does not depend on the old array.
    [TacsFunctions.compute_jacvec_product] completes and leaves in every
    input seed the old array plus the terms of [jac_contributions], one
    after the other: the sensitivity of each seeded functional scaled by
    its output seed, which the old array enters through its length only.
    Two calls with the seeds of two sibling outputs leave the same input
    seeds in either order.  Sums are taken in exact arithmetic. *)
Theorem reverse_mode_accumulates (HE : ExactArithmetic)
    (HS : EngineShapes) (HK : KernelsOverwrite)
    (inputs : TacsSolver.Inputs) (w : TacsSolver.World)
    (dA dB : gmap string (list F)) (a b seed : list F)
    (finputs : TacsFunctions.Inputs) (fw : TacsFunctions.World)
    (fA fB : gmap string (list F)) :
  TacsSolver.Shaped inputs w →
  (TacsSolver.d_inputs w !! "f_s" = None
   ∨ TacsSolver.Mesh inputs (TacsSolver.self w)) →
  TacsSolver.d_residuals w !! "u_s" = Some seed →
  dA !! "u_s" = Some a → dB !! "u_s" = Some b →
  length a = length (variables (TacsSolver.tacs (TacsSolver.self w))) →
  length b = length (variables (TacsSolver.tacs (TacsSolver.self w))) →
  TacsFunctions.Shaped finputs fw →
  TacsFunctions.SeedShaped fA (TacsFunctions.self fw) →
  TacsFunctions.SeedShaped fB (TacsFunctions.self fw) →
  (∀ din name old,
     same_shape din (TacsSolver.d_inputs w) → din !! name = Some old →
     (TacsSolver.apply_linear inputs mode_rev
        (TacsSolver.set_d_inputs din w)).2 = Ok () ∧
     TacsSolver.d_inputs
       (TacsSolver.apply_linear inputs mode_rev
          (TacsSolver.set_d_inputs din w)).1 !! name
     = Some (vadd old (TacsSolver.rev_contribution inputs w seed name))) ∧
  (∀ din name old,
     same_shape din (TacsFunctions.d_inputs fw) → din !! name = Some old →
     (TacsFunctions.compute_jacvec_product finputs fA mode_rev
        (TacsFunctions.set_d_inputs din fw)).2 = Ok () ∧
     TacsFunctions.d_inputs
       (TacsFunctions.compute_jacvec_product finputs fA mode_rev
          (TacsFunctions.set_d_inputs din fw)).1 !! name
     = Some (foldl vadd old
               (jac_contributions finputs (TacsFunctions.self fw) fA name
                  (length old)))) ∧
  TacsSolver.d_inputs
    (TacsSolver.rev_run inputs dB (TacsSolver.rev_run inputs dA w))
  = TacsSolver.d_inputs
      (TacsSolver.rev_run inputs dA (TacsSolver.rev_run inputs dB w)) ∧
  TacsFunctions.d_inputs
    (TacsFunctions.rev_run finputs fB (TacsFunctions.rev_run finputs fA fw))
  = TacsFunctions.d_inputs
      (TacsFunctions.rev_run finputs fA
         (TacsFunctions.rev_run finputs fB fw)).
Proof.
  intros Hw Hroom Hseed HA HB Ha Hb Hfw HfA HfB.
  split; [|split; [|split]].
  - intros din name old Hs Hold.
    by apply (apply_linear_additive HE HS).
  - intros din name old Hs Hold.
    by apply (jac_contributes HS HK).
  - by destruct (apply_linear_commutes HE HS HK inputs w dA dB a b).
  - by apply jac_commutes.
Qed.

(** C9.  The step [_update_internal] is idempotent on the same inputs.
    For [TacsSolver], after any number [k] of extra runs of the step,
    [apply_nonlinear] completes and stores the residual it stores without
    them.  For [TacsFunctions], after [1 + k] runs of the step [compute]
    completes and stores the outputs it stores after one run and, under
    [check_partials] (when [compute] runs the step itself), the outputs it
    stores without any. *)
Theorem update_internal_idempotent (HS : EngineShapes)
    (inputs : TacsSolver.Inputs) (w : TacsSolver.World)
    (finputs : TacsFunctions.Inputs) (fw : TacsFunctions.World)
    (k : nat) :
  TacsSolver.Shaped inputs w → TacsFunctions.Shaped finputs fw →
  let w' := Nat.iter k (TacsSolver.reassemble inputs) w in
  let fonce := TacsFunctions.reassemble finputs fw in
  let fmore := Nat.iter (S k) (TacsFunctions.reassemble finputs) fw in
  (TacsSolver.apply_nonlinear inputs w').2 = Ok () ∧
  TacsSolver.residuals (TacsSolver.apply_nonlinear inputs w').1
  = TacsSolver.residuals (TacsSolver.apply_nonlinear inputs w).1 ∧
  TacsSolver.tacs (TacsSolver.self (TacsSolver.reassemble inputs w'))
  = TacsSolver.tacs (TacsSolver.self (TacsSolver.reassemble inputs w)) ∧
  (TacsFunctions.compute finputs fmore).2 = Ok () ∧
  TacsFunctions.outputs (TacsFunctions.compute finputs fmore).1
  = TacsFunctions.outputs (TacsFunctions.compute finputs fonce).1 ∧
  TacsFunctions.tacs (TacsFunctions.self fmore)
  = TacsFunctions.tacs (TacsFunctions.self fonce) ∧
  (TacsFunctions.check_partials (TacsFunctions.self fw) = true →
   TacsFunctions.outputs (TacsFunctions.compute finputs fmore).1
   = TacsFunctions.outputs (TacsFunctions.compute finputs fw).1).
Proof.
  intros Hw Hfw w' fonce fmore.
  destruct (apply_nonlinear_after_reassemble HS inputs w k Hw)
    as (Hok & _ & Hres & Ht).
  destruct (compute_after_reassemble HS finputs fw k Hfw)
    as (Hfok & Hout & Hft & Hcp).
  split; [exact Hok|]. split; [exact Hres|]. split; [exact Ht|].
  split; [exact Hfok|]. split; [exact Hout|]. split; [exact Hft|].
  exact Hcp.
Qed.
End contracts.

(** ** The small engine satisfies the laws, and the components run on it *)

Section mock_facts.
#[local] Existing Instance Mock.scalar.
#[local] Existing Instance Mock.engine.

Lemma mock_exact_arithmetic : ExactArithmetic.
Proof. split; simpl; intros; lia. Qed.

Lemma mock_engine_shapes : EngineShapes.
Proof.
  split; simpl; intros;
    rewrite ?length_resize, ?length_replicate, ?length_fmap; try done.
  by destruct v.
Qed.

Lemma mock_hold_resize (n : nat) (b : list Z) :
  Mock.hold b = b → Mock.hold (resize n 0%Z b) = resize n 0%Z b.
Proof.
  destruct b as [|x b], n as [|n]; simpl; try done.
  by intros [= ->].
Qed.

Lemma mock_linear_elastic : LinearElastic.
Proof.
  split; simpl.
  - done.
  - intros _ b v r Hb Hr. rewrite resize_resize by lia.
    rewrite Hr, <- Hb. apply resize_all.
  - intros _ b v. apply mock_hold_resize.
  - by intros [|x v].
  - intros [|x a] [|y b]; simpl; try done.
  - intros x. lia.
Qed.

Lemma mock_kernels_overwrite : KernelsOverwrite.
Proof. split; simpl; intros; congruence. Qed.

Lemma mock_mass_ignores_state : MassIgnoresState.
Proof. intros t t' Hd _. simpl. by rewrite Hd. Qed.

(** The components of the small job are the ones [setup] returns. *)
Lemma mock_solver_setup :
  TacsSolver.component
    <$> TacsSolver.setup TacsSolver.initialize Mock.solver_job 0
          (Mock.mesh 2 4, (), (), 1) = Ok Mock.solver ∧
  TacsSolver.component
    <$> TacsSolver.setup TacsSolver.initialize Mock.solver_job 1
          (Mock.mesh 1 4, (), (), 1) = Ok Mock.solver1.
Proof. split; vm_compute; reflexivity. Qed.

Lemma mock_functions_setup :
  let d := TacsFunctions.setup TacsFunctions.initialize Mock.functions_job 0
             ([StructuralMass; Other 2%Z; Other 3%Z], Mock.mesh 2 4, 1,
              (), ()) in
  TacsFunctions.component d = Mock.functions ∧
  TacsFunctions.outputs_decl d
  = TacsFunctions.outputs Mock.functions_world.
Proof. split; vm_compute; reflexivity. Qed.

Lemma mock_world_shaped : TacsSolver.Shaped Mock.inputs Mock.world.
Proof.
  split; try reflexivity; intros v Hv; vm_compute in Hv;
    injection Hv as <-; reflexivity.
Qed.

Lemma mock_world1_shaped : TacsSolver.Shaped Mock.inputs1 Mock.world1.
Proof.
  split; try reflexivity; intros v Hv; vm_compute in Hv;
    injection Hv as <-; reflexivity.
Qed.

Lemma mock_world_mesh : TacsSolver.Mesh Mock.inputs (TacsSolver.self Mock.world).
Proof. split; vm_compute; lia. Qed.

Lemma mock_world1_mesh :
  TacsSolver.Mesh Mock.inputs1 (TacsSolver.self Mock.world1).
Proof. split; vm_compute; lia. Qed.

Lemma mock_functions_shaped (i : TacsFunctions.Inputs) :
  i = Mock.at_rest ∨ i = Mock.displaced →
  TacsFunctions.Shaped i Mock.functions_world.
Proof.
  intros [-> | ->]; (split; try reflexivity; intros v Hv; vm_compute in Hv;
    injection Hv as <-; reflexivity).
Qed.

Lemma mock_seed_mass_shaped :
  TacsFunctions.SeedShaped Mock.seed_mass Mock.functions.
Proof.
  split; intros v Hv; vm_compute in Hv; try discriminate;
    injection Hv as <-; reflexivity.
Qed.

Lemma mock_seed_funcs_shaped :
  TacsFunctions.SeedShaped Mock.seed_funcs Mock.functions.
Proof.
  split; intros v Hv; vm_compute in Hv; try discriminate;
    injection Hv as <-; reflexivity.
Qed.
End mock_facts.

(** ** The statements at work on the small engine *)

Section runs.
#[local] Existing Instance Mock.scalar.
#[local] Existing Instance Mock.engine.

Lemma mock_seed_lookups :
  Mock.seed_a !! "u_s" = Some [1; 2; 3; 4; 5; 6; 7; 8]%Z ∧
  Mock.seed_b !! "u_s" = Some [8; 7; 6; 5; 4; 3; 2; 1]%Z ∧
  TacsSolver.d_residuals Mock.world !! "u_s"
  = Some [1; 2; 3; 4; 5; 6; 7; 8]%Z ∧
  TacsSolver.d_residuals Mock.world1 !! "u_s" = Some [1; 2; 3; 4]%Z ∧
  Mock.seed_mass !! "f_struct" = None.
Proof. vm_compute. repeat split. Qed.

Lemma mock_d_inputs_lookups :
  TacsSolver.d_inputs Mock.world !! "f_s"
  = Some [1; 1; 1; 1; 1; 1; 1; 1]%Z ∧
  TacsSolver.d_inputs Mock.world !! "x_s0" = Some [0; 0; 0; 0; 0; 1]%Z ∧
  TacsSolver.d_inputs Mock.world !! "dv_struct" = Some [5%Z] ∧
  TacsSolver.d_inputs Mock.world1 !! "dv_struct" = Some [5%Z].
Proof. vm_compute. repeat split. Qed.

Lemma mock_functions_lookups :
  TacsFunctions.d_inputs Mock.functions_world !! "u_s"
  = Some [1; 0; 0; 0; 0; 0; 0; 0]%Z ∧
  TacsFunctions.d_inputs Mock.functions_world !! "x_s0"
  = Some [0; 0; 0; 0; 0; 1]%Z.
Proof. split; vm_compute; reflexivity. Qed.

(** The ranges of the two-rank job: sizes [8; 4] for the states and
    [6; 3] for the nodes. *)
Lemma setup_ranges_partition_witness :
  Forall (λ l : Tacs * unit * unit * nat, node_size l.1.1.1 ≠ 0)
         Mock.solver_job ∧
  partitions [8; 4]
    (functions_indices TacsFunctions.initialize Mock.functions_job "u_s") ∧
  partitions [8; 4]
    (solver_indices TacsSolver.initialize Mock.solver_job "f_s") ∧
  partitions [6; 3] (load_indices Mock.load_job "x_s0") ∧
  solver_indices TacsSolver.initialize Mock.solver_job "f_s" 1
  = [8; 9; 10; 11].
Proof.
  assert (Hs : Forall (λ l : Tacs * unit * unit * nat, node_size l.1.1.1 ≠ 0)
                 Mock.solver_job).
  { repeat constructor; vm_compute; lia. }
  assert (Hl : Forall (λ l : Tacs, node_size l ≠ 0) Mock.load_job).
  { repeat constructor; vm_compute; lia. }
  destruct setup_ranges_partition as (Hfun & Hsol & Hload).
  split; [exact Hs|].
  split; [exact (proj1 (Hfun TacsFunctions.initialize Mock.functions_job))|].
  split;
    [exact (proj1 (proj2 (Hsol TacsSolver.initialize Mock.solver_job Hs)))|].
  split; [exact (proj2 (Hload Mock.load_job Hl))|].
  vm_compute. reflexivity.
Defined.

(** The residual at the state the solver returns is zero; at the outputs
    of [Mock.world] it is the held difference of the state and the
    load. *)
Lemma residual_contract_witness :
  TacsSolver.Shaped Mock.inputs Mock.world ∧
  TacsSolver.residuals
    (TacsSolver.apply_nonlinear Mock.inputs
       (TacsSolver.solve_nonlinear Mock.inputs Mock.world).1).1
  = replicate 8 0%Z ∧
  TacsSolver.residuals (TacsSolver.apply_nonlinear Mock.inputs Mock.world).1
  = [0; 0; -1; -1; -4; -4; -3; -6]%Z.
Proof.
  split; [exact mock_world_shaped|].
  destruct (residual_contract mock_engine_shapes Mock.inputs Mock.world
              mock_world_shaped) as ((_ & Hres) & _ & Hzero).
  split.
  - exact (proj2 (Hzero mock_linear_elastic)).
  - rewrite Hres. vm_compute. reflexivity.
Defined.


(** Both outputs are in the world, the states differ: the mass is the
    same, the function values are not, and the seed on the mass leaves the
    seed on [u_s] alone. *)
Lemma mass_independent_of_state_witness :
  TacsFunctions.u_s Mock.at_rest ≠ TacsFunctions.u_s Mock.displaced ∧
  TacsFunctions.outputs
    (TacsFunctions.compute Mock.at_rest Mock.functions_world).1 !! "mass"
  = TacsFunctions.outputs
      (TacsFunctions.compute Mock.displaced Mock.functions_world).1
      !! "mass" ∧
  TacsFunctions.outputs
    (TacsFunctions.compute Mock.at_rest Mock.functions_world).1
    !! "f_struct"
  ≠ TacsFunctions.outputs
      (TacsFunctions.compute Mock.displaced Mock.functions_world).1
      !! "f_struct" ∧
  TacsFunctions.d_inputs
    (TacsFunctions.compute_jacvec_product Mock.at_rest Mock.seed_mass
       mode_rev Mock.functions_world).1 !! "u_s"
  = TacsFunctions.d_inputs Mock.functions_world !! "u_s".
Proof.
  destruct (mass_independent_of_state mock_engine_shapes
              mock_mass_ignores_state Mock.at_rest Mock.displaced
              Mock.functions_world Mock.seed_mass mode_rev
              (mock_functions_shaped _ (or_introl eq_refl))
              (mock_functions_shaped _ (or_intror eq_refl))
              eq_refl eq_refl
              (proj2 (proj2 (proj2 (proj2 mock_seed_lookups)))))
    as (_ & _ & Hmass & Hframe).
  split; [vm_compute; discriminate|].
  split; [exact Hmass|].
  split; [vm_compute; discriminate|].
  apply Hframe; discriminate.
Defined.

(** Four degrees of freedom per node: entries 3 and 7 of the buffer stay
    zero, entry 0 is held. *)
Lemma load_seed_negative_identity_witness :
  TacsSolver.Shaped Mock.inputs Mock.world ∧
  TacsSolver.Mesh Mock.inputs (TacsSolver.self Mock.world) ∧
  TacsSolver.d_inputs
    (TacsSolver.apply_linear Mock.inputs mode_rev Mock.world).1 !! "f_s"
  = Some [1; -1; -2; 1; -3; -4; -5; 1]%Z.
Proof.
  split; [exact mock_world_shaped|]. split; [exact mock_world_mesh|].
  destruct (load_seed_negative_identity mock_engine_shapes Mock.inputs
              Mock.world [1; 2; 3; 4; 5; 6; 7; 8]%Z
              [1; 1; 1; 1; 1; 1; 1; 1]%Z
              mock_world_shaped mock_world_mesh
              (proj1 (proj2 (proj2 mock_seed_lookups)))
              (proj1 mock_d_inputs_lookups))
    as (_ & Hload & _).
  etrans; [exact Hload|]. vm_compute. reflexivity.
Defined.

(** Rank 0 adds the product, rank 1 does not. *)
Lemma design_seed_on_rank_zero_witness :
  TacsSolver.d_inputs
    (TacsSolver.apply_linear Mock.inputs mode_rev Mock.world).1
    !! "dv_struct" = Some [41%Z] ∧
  TacsSolver.d_inputs
    (TacsSolver.apply_linear Mock.inputs1 mode_rev Mock.world1).1
    !! "dv_struct" = Some [5%Z].
Proof.
  destruct (design_seed_on_rank_zero mock_engine_shapes Mock.inputs
              Mock.world [1; 2; 3; 4; 5; 6; 7; 8]%Z [5%Z]
              mock_world_shaped (or_intror mock_world_mesh)
              (proj1 (proj2 (proj2 mock_seed_lookups)))
              (proj1 (proj2 (proj2 mock_d_inputs_lookups))))
    as (_ & Hzero & _).
  destruct (design_seed_on_rank_zero mock_engine_shapes Mock.inputs1
              Mock.world1 [1; 2; 3; 4]%Z [5%Z]
              mock_world1_shaped (or_intror mock_world1_mesh)
              (proj1 (proj2 (proj2 (proj2 mock_seed_lookups))))
              (proj2 (proj2 (proj2 mock_d_inputs_lookups))))
    as (_ & _ & Hone).
  split.
  - etrans; [exact (Hzero eq_refl)|]. vm_compute. reflexivity.
  - apply Hone. vm_compute. lia.
Defined.

(** Without a seed on the state the seed vectors stay. *)
Lemma apply_linear_without_state_seed_witness :
  let w := TacsSolver.set_d_residuals ∅ Mock.world in
  TacsSolver.d_residuals w !! "u_s" = None ∧
  TacsSolver.d_inputs (TacsSolver.apply_linear Mock.inputs mode_rev w).1
  = TacsSolver.d_inputs w ∧
  TacsSolver.d_outputs (TacsSolver.apply_linear Mock.inputs mode_rev w).1
  = TacsSolver.d_outputs w.
Proof.
  split; [reflexivity|].
  exact (apply_linear_without_state_seed Mock.inputs
           (TacsSolver.set_d_residuals ∅ Mock.world) eq_refl).
Defined.

(** Three extra runs of the step. *)
Lemma update_internal_idempotent_witness :
  TacsSolver.residuals
    (TacsSolver.apply_nonlinear Mock.inputs
       (Nat.iter 3 (TacsSolver.reassemble Mock.inputs) Mock.world)).1
  = TacsSolver.residuals
      (TacsSolver.apply_nonlinear Mock.inputs Mock.world).1 ∧
  TacsFunctions.outputs
    (TacsFunctions.compute Mock.displaced
       (Nat.iter 4 (TacsFunctions.reassemble Mock.displaced)
          Mock.functions_world)).1
  = TacsFunctions.outputs
      (TacsFunctions.compute Mock.displaced Mock.functions_world).1.
Proof.
  destruct (update_internal_idempotent mock_engine_shapes Mock.inputs
              Mock.world Mock.displaced Mock.functions_world 3
              mock_world_shaped
              (mock_functions_shaped _ (or_intror eq_refl)))
    as (_ & Hres & _ & _ & _ & _ & Hout).
  split; [exact Hres|]. exact (Hout eq_refl).
Defined.

(** Two seeds on the residual and the seeds on the two function outputs,
    in both orders; the seeds on the two functionals add their two terms
    to the seed on the state and to the seed on the nodes. *)
Lemma reverse_mode_accumulates_witness :
  TacsSolver.d_inputs
    (TacsSolver.rev_run Mock.inputs Mock.seed_b
       (TacsSolver.rev_run Mock.inputs Mock.seed_a Mock.world))
  = TacsSolver.d_inputs
      (TacsSolver.rev_run Mock.inputs Mock.seed_a
         (TacsSolver.rev_run Mock.inputs Mock.seed_b Mock.world)) ∧
  TacsFunctions.d_inputs
    (TacsFunctions.rev_run Mock.displaced Mock.seed_mass
       (TacsFunctions.rev_run Mock.displaced Mock.seed_funcs
          Mock.functions_world))
  = TacsFunctions.d_inputs
      (TacsFunctions.rev_run Mock.displaced Mock.seed_funcs
         (TacsFunctions.rev_run Mock.displaced Mock.seed_mass
            Mock.functions_world)) ∧
  TacsSolver.d_inputs
    (TacsSolver.apply_linear Mock.inputs mode_rev Mock.world).1
    !! "x_s0"
  = Some (vadd [0; 0; 0; 0; 0; 1]%Z
            (TacsSolver.rev_contribution Mock.inputs Mock.world
               [1; 2; 3; 4; 5; 6; 7; 8]%Z "x_s0")) ∧
  TacsSolver.d_inputs
    (TacsSolver.rev_run Mock.inputs Mock.seed_b
       (TacsSolver.rev_run Mock.inputs Mock.seed_a Mock.world))
    !! "dv_struct" = Some [77%Z] ∧
  (TacsFunctions.compute_jacvec_product Mock.displaced Mock.seed_funcs
     mode_rev Mock.functions_world).2 = Ok () ∧
  jac_contributions Mock.displaced Mock.functions Mock.seed_funcs "u_s" 8
  = [[2; 2; 2; 2; 2; 2; 2; 2]; [6; 6; 6; 6; 6; 6; 6; 6]]%Z ∧
  TacsFunctions.d_inputs
    (TacsFunctions.compute_jacvec_product Mock.displaced Mock.seed_funcs
       mode_rev Mock.functions_world).1 !! "u_s"
  = Some [9; 8; 8; 8; 8; 8; 8; 8]%Z ∧
  TacsFunctions.d_inputs
    (TacsFunctions.compute_jacvec_product Mock.displaced Mock.seed_funcs
       mode_rev Mock.functions_world).1 !! "x_s0"
  = Some [8; 8; 8; 8; 8; 9]%Z.
Proof.
  destruct (reverse_mode_accumulates mock_exact_arithmetic
              mock_engine_shapes mock_kernels_overwrite
              Mock.inputs Mock.world Mock.seed_a Mock.seed_b
              [1; 2; 3; 4; 5; 6; 7; 8]%Z [8; 7; 6; 5; 4; 3; 2; 1]%Z
              [1; 2; 3; 4; 5; 6; 7; 8]%Z
              Mock.displaced Mock.functions_world
              Mock.seed_funcs Mock.seed_mass
              mock_world_shaped (or_intror mock_world_mesh)
              (proj1 (proj2 (proj2 mock_seed_lookups)))
              (proj1 mock_seed_lookups)
              (proj1 (proj2 mock_seed_lookups))
              eq_refl eq_refl
              (mock_functions_shaped _ (or_intror eq_refl))
              mock_seed_funcs_shaped mock_seed_mass_shaped)
    as (Hadd & Hjac & Hsolver & Hfunctions).
  split; [exact Hsolver|]. split; [exact Hfunctions|].
  split.
  { exact (proj2 (Hadd (TacsSolver.d_inputs Mock.world) "x_s0"
                    [0; 0; 0; 0; 0; 1]%Z (λ _, eq_refl)
                    (proj1 (proj2 mock_d_inputs_lookups)))). }
  split; [vm_compute; reflexivity|].
  pose proof (Hjac (TacsFunctions.d_inputs Mock.functions_world) "u_s"
                [1; 0; 0; 0; 0; 0; 0; 0]%Z (λ _, eq_refl)
                (proj1 mock_functions_lookups)) as [Hok Hu].
  pose proof (Hjac (TacsFunctions.d_inputs Mock.functions_world) "x_s0"
                [0; 0; 0; 0; 0; 1]%Z (λ _, eq_refl)
                (proj2 mock_functions_lookups)) as [_ Hx].
  split; [exact Hok|]. split; [vm_compute; reflexivity|].
  split.
  - etrans; [exact Hu|]. vm_compute. reflexivity.
  - etrans; [exact Hx|]. vm_compute. reflexivity.
Defined.


(** The claim of C4 fails on the component as [initialize] and [setup]
    leave it ([check_partials] is [True]): a forward-mode call of
    [solve_linear] and of [apply_linear] returns without an exception and
    leaves every seed vector as it was. *)
Lemma forward_mode_returns_silently :
  TacsSolver.check_partials Mock.solver
  = TacsSolver.init_check_partials TacsSolver.initialize ∧
  (TacsSolver.solve_linear mode_fwd Mock.world).2 = Ok () ∧
  TacsSolver.d_residuals (TacsSolver.solve_linear mode_fwd Mock.world).1
  = TacsSolver.d_residuals Mock.world ∧
  TacsSolver.d_outputs (TacsSolver.solve_linear mode_fwd Mock.world).1
  = TacsSolver.d_outputs Mock.world ∧
  (TacsSolver.apply_linear Mock.inputs mode_fwd Mock.world).2 = Ok () ∧
  TacsSolver.d_inputs
    (TacsSolver.apply_linear Mock.inputs mode_fwd Mock.world).1
  = TacsSolver.d_inputs Mock.world ∧
  TacsSolver.d_outputs
    (TacsSolver.apply_linear Mock.inputs mode_fwd Mock.world).1
  = TacsSolver.d_outputs Mock.world.
Proof.
  split; [reflexivity|].
  split; [vm_compute; reflexivity|].
  split; [vm_compute; reflexivity|].
  split; [vm_compute; reflexivity|].
  split; [vm_compute; reflexivity|].
  split; vm_compute; reflexivity.
Qed.

(** The claim of C6 fails on a mesh with two degrees of freedom per node:
    on the component [setup] returns for two nodes with two states each,
    with the residual seed [[1; 2; 3; 4]], reverse-mode [apply_linear]
    raises [IndexError] in the double loop (it reads entry 4 of the seed
    for node 1) and the seed on [f_s] is left as it was. *)
Lemma load_seed_fails_on_two_dof :
  TacsSolver.component
    <$> TacsSolver.setup TacsSolver.initialize
          [(Mock.mesh 2 2, (), (), 1)] 0 (Mock.mesh 2 2, (), (), 1)
  = Ok Cases.flat_solver ∧
  TacsSolver.d_residuals Cases.flat_world !! "u_s" = Some [1; 2; 3; 4]%Z ∧
  (TacsSolver.apply_linear Cases.flat_inputs mode_rev Cases.flat_world).2
  = Raise IndexError ∧
  TacsSolver.d_inputs
    (TacsSolver.apply_linear Cases.flat_inputs mode_rev Cases.flat_world).1
    !! "f_s" = Some [1; 1; 1; 1]%Z.
Proof.
  split; [vm_compute; reflexivity|].
  split; [vm_compute; reflexivity|].
  split; vm_compute; reflexivity.
Qed.
End runs.

(** * Further properties *)

(** ** TacsMesh *)

Section mesh.
Context `{Scalar}.

(** [TacsMesh.compute] copies the node coordinates of the mesh into
    [outputs['x_s0']]: on any output vector whose ['x_s0'] has the
    declared shape it completes, stores the coordinates there and leaves
    every other entry.  Without an entry ['x_s0'] it raises [KeyError] and
    stores nothing. *)
Theorem mesh_compute_stores_nodes (local : Tacs)
    (outs : gmap string (list F)) :
  let d := TacsMesh.setup local in
  (∀ v u, outs !! "x_s0" = Some v →
     TacsMesh.outputs_decl d !! "x_s0" = Some u → length v = length u →
     TacsMesh.compute (TacsMesh.component d) outs
     = (<["x_s0" := getNodes local]> outs, Ok ())) ∧
  (outs !! "x_s0" = None →
     TacsMesh.compute (TacsMesh.component d) outs
     = (outs, Raise (KeyError "x_s0"))) ∧
  TacsMesh.compute (TacsMesh.component d) (TacsMesh.outputs_decl d)
  = (<["x_s0" := getNodes local]> ∅, Ok ()).
Proof.
  intros d. subst d. unfold TacsMesh.compute, TacsMesh.setup. unfold_monad.
  unfold get, vec_set, vec_get. cbn [TacsMesh.component TacsMesh.xpts
    TacsMesh.outputs_decl]. split; [|split].
  - intros v u Hv Hu Hlen. rewrite lookup_insert_eq in Hu.
    injection Hu as <-. rewrite length_replicate in Hlen.
    rewrite Hv. cbn [mbind outcome_bind].
    by rewrite assign_slice_same.
  - intros Hv. by rewrite Hv.
  - rewrite lookup_insert_eq. cbn [mbind outcome_bind].
    rewrite assign_slice_same by (by rewrite length_replicate).
    cbn [mbind outcome_bind mret outcome_ret]. by rewrite insert_insert_eq.
Qed.
End mesh.

(** ** TacsSolver._design_vector_changed *)

Section design_vector.
Context `{Scalar}.
Variable isclose : F → F → bool.
Import DesignVector.

Lemma np_allclose_refl (x : list F) :
  Forall (λ a, isclose a a = true) x → np_allclose isclose x x = Ok true.
Proof.
  intros Hx. unfold np_allclose. rewrite decide_True by done. f_equal.
  induction Hx as [|a x Ha Hx IH]; simpl; [done|]. by rewrite Ha, IH.
Qed.

(** [_design_vector_changed] reports a change on the first call and saves
    the vector.  Whenever a call returns, calling again with the same
    vector reports no change and leaves the saved vector, provided every
    entry of the vector is close to itself (it is not NaN); a call that
    reports a change has saved the vector, a call that reports none has
    left the saved one.  A call raises only when the vector and the saved
    one cannot be broadcast together, and then saves nothing. *)
Theorem design_vector_changed_once (x : list F) (st : option (list F)) :
  Forall (λ a, isclose a a = true) x →
  _design_vector_changed isclose x None = (Some x, Ok true) ∧
  (∀ st' b, _design_vector_changed isclose x st = (st', Ok b) →
     _design_vector_changed isclose x st' = (st', Ok false) ∧
     (b = true → st' = Some x) ∧ (b = false → st' = st)) ∧
  (∀ st' e, _design_vector_changed isclose x st = (st', Raise e) →
     st' = st ∧
     ∃ saved, st = Some saved ∧ length x ≠ length saved ∧
              length x ≠ 1 ∧ length saved ≠ 1).
Proof.
  intros Hx. split; [done|]. unfold _design_vector_changed. unfold_monad.
  unfold get. destruct st as [saved|]; cbn beta iota.
  - destruct (np_allclose isclose x saved) as [[|]|e] eqn:Hclose;
      cbn beta iota; cbn [negb]; split.
    + intros st' b [= <- <-]. rewrite Hclose. cbn beta iota. cbn [negb].
      done.
    + intros st' e [=].
    + intros st' b [= <- <-]. rewrite np_allclose_refl by done.
      cbn beta iota. cbn [negb]. done.
    + intros st' e [=].
    + intros st' b [=].
    + intros st' e' [= <- <-]. split; [done|]. exists saved.
      split; [done|]. unfold np_allclose in Hclose.
      destruct (decide (length x = length saved)); [done|].
      split; [done|].
      destruct x as [|a [|a' x]], saved as [|c [|c' saved]];
        simpl in *; try done; lia.
  - split.
    + intros st' b [= <- <-]. rewrite np_allclose_refl by done. done.
    + intros st' e [=].
Qed.
End design_vector.

(** ** Setup on a rank without nodes, and the buffers of [setup] *)

Section setup_edges.
Context `{TacsEngine}.

End setup_edges.

Section after_setup.
Context `{TacsEngine}.
Import TacsSolver.

Lemma solver_setup_component flags (job : list (Tacs * Mat * PC * nat)) r
    (t : Tacs) (m : Mat) (p : PC) (ndv : nat) :
  node_size t ≠ 0 →
  ∃ d, setup flags job r (t, m, p, ndv) = Ok d ∧
    tacs (component d) = t ∧ mat (component d) = m ∧ pc (component d) = p ∧
    res (component d) = createVec t ∧ force (component d) = createVec t ∧
    ans (component d) = createVec t ∧ psi_s (component d) = createVec t ∧
    xpt_sens (component d) = createNodeVec t ∧
    ndof (component d) = 3 * state_size t / node_size t ∧
    rank (component d) = r ∧
    write_f5 (component d) = init_write_f5 flags ∧
    check_partials (component d) = init_check_partials flags ∧
    shape <$> inputs_decl d !! "f_s" = Some (state_size t) ∧
    shape <$> inputs_decl d !! "x_s0" = Some (node_size t) ∧
    shape <$> inputs_decl d !! "dv_struct" = Some ndv ∧
    outputs_decl d !! "u_s" = Some (np_zeros (state_size t)).
Proof.
  intros Hn. unfold setup. fold (state_size t) (node_size t).
  rewrite ndof_of_quotient by done. cbn [mbind outcome_bind mret outcome_ret].
  eexists. split; [reflexivity|]. cbn [component inputs_decl outputs_decl
    tacs mat pc res force ans psi_s xpt_sens ndof rank write_f5
    check_partials].
  repeat (split; [reflexivity|]).
  by rewrite lookup_insert_eq.
Qed.

Lemma setup_world_shaped flags (job : list (Tacs * Mat * PC * nat)) r
    (t : Tacs) (m : Mat) (p : PC) (ndv : nat) (d : Declared)
    (inputs : Inputs) (din dout dres : gmap string (list F)) :
  setup flags job r (t, m, p, ndv) = Ok d →
  length (x_s0 inputs) = node_size t →
  length (f_s inputs) = state_size t →
  (∀ a, din !! "f_s" = Some a → length a = state_size t) →
  (∀ a, din !! "x_s0" = Some a → length a = node_size t) →
  (∀ a, dout !! "u_s" = Some a → length a = state_size t) →
  (∀ a, dres !! "u_s" = Some a → length a = state_size t) →
  Shaped inputs (solver_world d din dout dres).
Proof.
  intros Hd Hx Hf Hinf Hinx Hout Hres.
  assert (Hn : node_size t ≠ 0).
  { intros Hz. unfold setup in Hd. fold (node_size t) in Hd.
    rewrite Hz, ndof_of_no_nodes in Hd. done. }
  destruct (solver_setup_component flags job r t m p ndv Hn)
    as (d' & Hd' & Ht & _ & _ & Hr & Hfo & Ha & Hp & Hxs & _ & _ & _ & _
        & _ & _ & _ & Hu).
  rewrite Hd in Hd'. injection Hd' as <-.
  unfold state_size, node_size in *.
  rewrite createVec_length in *. rewrite createNodeVec_length in *.
  unfold solver_world. rewrite Hu. cbn [default].
  split; cbn [self outputs residuals d_inputs d_outputs d_residuals];
    rewrite ?Ht, ?Hr, ?Hfo, ?Ha, ?Hp, ?Hxs, ?createVec_length,
      ?createNodeVec_length, ?np_zeros_length; try done.
  - apply np_zeros_length.
  - apply np_zeros_length.
Qed.
End after_setup.

Section after_setup_runs.
Context `{TacsEngine}.
Import TacsSolver.

Lemma quotient_mesh (S N : nat) :
  N ≠ 0 → N ≤ S → 3 ≤ 3 * S / N ∧ 3 * S / N * (N / 3) ≤ S.
Proof.
  intros HN HNS. split.
  - apply Nat.div_le_lower_bound; lia.
  - pose proof (Nat.Div0.mul_div_le (3 * S) N) as H2.
    pose proof (Nat.Div0.mul_div_le N 3) as H3.
    nia.
Qed.

Lemma apply_linear_fwd_run (inputs : Inputs) (w : World) :
  Shaped inputs w →
  apply_linear inputs mode_fwd w
  = (set_self (updated_self inputs (outputs w) (self w)) w,
     if check_partials (self w) then Ok () else Raise not_implemented).
Proof.
  intros Hw. unfold apply_linear. unfold mbind, M_bind, gets.
  cbv beta iota. rewrite on_self_update_ok by done. cbv beta iota.
  rewrite bool_decide_eq_true_2 by done. rewrite when_true.
  unfold mbind, M_bind, gets. cbv beta iota.
  cbn [self set_self updated_self check_partials].
  destruct (check_partials (self w)).
  - unfold mret, M_ret. rewrite bool_decide_eq_false_2 by done.
    by rewrite when_false.
  - reflexivity.
Qed.

Lemma apply_linear_rev_no_seed (inputs : Inputs) (w : World) :
  Shaped inputs w → d_residuals w !! "u_s" = None →
  apply_linear inputs mode_rev w
  = (set_self (updated_self inputs (outputs w) (self w)) w, Ok ()).
Proof.
  intros Hw Hseed. unfold apply_linear. unfold mbind, M_bind, gets.
  cbv beta iota. rewrite on_self_update_ok by done. cbv beta iota.
  rewrite bool_decide_eq_false_2 by done. rewrite when_false.
  cbv beta iota. rewrite bool_decide_eq_true_2 by done. rewrite when_true.
  cbn [d_residuals set_self]. rewrite (contains_None _ _ Hseed).
  by rewrite when_false.
Qed.

(** After [setup] (with the flags of [initialize]), on inputs and seed
    vectors of the shapes [setup] declares (the state size for [f_s] and
    [u_s], the node size for [x_s0]), [apply_nonlinear], [solve_nonlinear]
    and forward-mode [apply_linear] return without an exception, and so
    does reverse-mode [apply_linear] when the mesh has at least as many
    states as node coordinates (three per node). *)
Theorem methods_complete_after_setup (HS : EngineShapes)
    (job : list (Tacs * Mat * PC * nat)) (r : nat) (t : Tacs) (m : Mat)
    (p : PC) (ndv : nat) (inputs : Inputs)
    (din dout dres : gmap string (list F)) :
  node_size t ≠ 0 →
  length (x_s0 inputs) = node_size t →
  length (f_s inputs) = state_size t →
  (∀ a, din !! "f_s" = Some a → length a = state_size t) →
  (∀ a, din !! "x_s0" = Some a → length a = node_size t) →
  (∀ a, dout !! "u_s" = Some a → length a = state_size t) →
  (∀ a, dres !! "u_s" = Some a → length a = state_size t) →
  ∃ d, setup initialize job r (t, m, p, ndv) = Ok d ∧
    shape <$> inputs_decl d !! "f_s" = Some (state_size t) ∧
    shape <$> inputs_decl d !! "x_s0" = Some (node_size t) ∧
    length <$> outputs_decl d !! "u_s" = Some (state_size t) ∧
    let w := solver_world d din dout dres in
    (apply_nonlinear inputs w).2 = Ok () ∧
    (solve_nonlinear inputs w).2 = Ok () ∧
    (apply_linear inputs mode_fwd w).2 = Ok () ∧
    (node_size t ≤ state_size t →
     (apply_linear inputs mode_rev w).2 = Ok ()).
Proof.
  intros Hn Hx Hf Hinf Hinx Hout Hres.
  destruct (solver_setup_component initialize job r t m p ndv Hn)
    as (d & Hd & Ht & _ & _ & _ & _ & _ & _ & _ & Hndof & _ & _ & Hcheck
        & Hpf & Hpx & _ & Hu).
  exists d. split; [done|]. split; [done|]. split; [done|].
  split; [by rewrite Hu; cbn; rewrite np_zeros_length|].
  intros w.
  assert (Hw : Shaped inputs w)
    by (by apply (setup_world_shaped initialize job r t m p ndv)).
  split; [by apply apply_nonlinear_facts|].
  split; [by apply solve_nonlinear_facts|].
  split.
  { rewrite apply_linear_fwd_run by done. cbn [snd].
    change (check_partials (self w)) with (check_partials (component d)).
    by rewrite Hcheck. }
  intros Hsize.
  destruct (d_residuals w !! "u_s") as [seed|] eqn:Hseed.
  - destruct (apply_linear_rev_run HS inputs w seed Hw Hseed)
      as (s' & -> & _); [|done].
    right. unfold Mesh.
    change (self w) with (component d). rewrite Hndof, Ht, Hx.
    unfold state_size, node_size in *.
    rewrite createVec_length in *.
    destruct (quotient_mesh (length (variables t))
                (length (createNodeVec t)) Hn) as [H1 H2]; [done|].
    split; [done|]. exact H2.
  - by rewrite apply_linear_rev_no_seed.
Qed.
End after_setup_runs.

(** ** Inputs of the wrong shape *)

Section bad_shapes.
Context `{TacsEngine}.

Lemma assign_slice_bad (dst src : list F) :
  length src ≠ length dst → length src ≠ 1 →
  assign_slice dst src
  = Raise (ValueError "could not broadcast input array").
Proof.
  intros Hl H1. unfold assign_slice, broadcast_to.
  rewrite decide_False by done. by destruct src as [|x [|y src]].
Qed.

Lemma solver_update_bad_nodes (inputs : TacsSolver.Inputs)
    (u : option (list F)) (s : TacsSolver.t) :
  length (TacsSolver.x_s0 inputs) ≠ length (xpts (TacsSolver.tacs s)) →
  length (TacsSolver.x_s0 inputs) ≠ 1 →
  TacsSolver._update_internal inputs u s
  = (TacsSolver.set_tacs (setDesignVars (TacsSolver.dv_struct inputs)) s,
     Raise (ValueError "could not broadcast input array")).
Proof.
  intros Hl H1. unfold TacsSolver._update_internal. destruct s.
  revert Hl. solver_norm. intros Hl.
  by rewrite assign_slice_bad.
Qed.

Lemma functions_update_bad_nodes (inputs : TacsFunctions.Inputs)
    (s : TacsFunctions.t) :
  length (TacsFunctions.x_s0 inputs)
  ≠ length (xpts (TacsFunctions.tacs s)) →
  length (TacsFunctions.x_s0 inputs) ≠ 1 →
  TacsFunctions._update_internal inputs s
  = (TacsFunctions.set_tacs
       (setDesignVars (TacsFunctions.dv_struct inputs)) s,
     Raise (ValueError "could not broadcast input array")).
Proof.
  intros Hl H1. unfold TacsFunctions._update_internal. destruct s.
  revert Hl. functions_norm. intros Hl.
  by rewrite assign_slice_bad.
Qed.

(** When [inputs['x_s0']] has neither the size of the node vector nor
    size one, every method that starts with [_update_internal] raises
    numpy's [ValueError] at the first copy into the node vector.  The
    design variables have been pushed into the assembler by then; nothing
    else has changed: no output, residual or seed, no buffer of the
    component. *)
Theorem update_rejects_bad_nodes (inputs : TacsSolver.Inputs)
    (w : TacsSolver.World) (mode : string)
    (finputs : TacsFunctions.Inputs) (fw : TacsFunctions.World)
    (d_outputs : gmap string (list F)) :
  length (TacsSolver.x_s0 inputs)
  ≠ length (xpts (TacsSolver.tacs (TacsSolver.self w))) →
  length (TacsSolver.x_s0 inputs) ≠ 1 →
  length (TacsFunctions.x_s0 finputs)
  ≠ length (xpts (TacsFunctions.tacs (TacsFunctions.self fw))) →
  length (TacsFunctions.x_s0 finputs) ≠ 1 →
  TacsFunctions.check_partials (TacsFunctions.self fw) = true →
  let e := ValueError "could not broadcast input array" in
  let w' := TacsSolver.set_self
              (TacsSolver.set_tacs
                 (setDesignVars (TacsSolver.dv_struct inputs))
                 (TacsSolver.self w)) w in
  let fw' := TacsFunctions.set_self
               (TacsFunctions.set_tacs
                  (setDesignVars (TacsFunctions.dv_struct finputs))
                  (TacsFunctions.self fw)) fw in
  TacsSolver.apply_nonlinear inputs w = (w', Raise e) ∧
  TacsSolver.solve_nonlinear inputs w = (w', Raise e) ∧
  TacsSolver.apply_linear inputs mode w = (w', Raise e) ∧
  TacsFunctions.compute finputs fw = (fw', Raise e) ∧
  TacsFunctions.compute_jacvec_product finputs d_outputs mode_rev fw
  = (fw', Raise e).
Proof.
  intros Hl H1 Hfl Hf1 Hcheck e w' fw'. subst e w' fw'.
  split; [|split; [|split; [|split]]].
  - unfold TacsSolver.apply_nonlinear. unfold mbind, M_bind, gets.
    cbv beta iota. unfold TacsSolver.on_self.
    by rewrite solver_update_bad_nodes.
  - unfold TacsSolver.solve_nonlinear. unfold mbind, M_bind.
    unfold TacsSolver.on_self.
    by rewrite solver_update_bad_nodes.
  - unfold TacsSolver.apply_linear. unfold mbind, M_bind, gets.
    cbv beta iota. unfold TacsSolver.on_self.
    by rewrite solver_update_bad_nodes.
  - unfold TacsFunctions.compute. unfold mbind, M_bind, gets.
    cbv beta iota. rewrite Hcheck, when_true.
    unfold TacsFunctions.on_self.
    by rewrite functions_update_bad_nodes.
  - unfold TacsFunctions.compute_jacvec_product. unfold mbind, M_bind, gets.
    cbv beta iota. rewrite bool_decide_eq_false_2 by done.
    rewrite when_false. cbv beta iota.
    rewrite bool_decide_eq_true_2 by done. rewrite when_true.
    cbv beta iota. rewrite Hcheck, when_true.
    unfold TacsFunctions.on_self.
    by rewrite functions_update_bad_nodes.
Qed.
End bad_shapes.

(** ** [solve_linear] *)

Section solver_adjoint.
Context `{TacsEngine}.
Import TacsSolver.

(** Reverse-mode [solve_linear] solves for the adjoint: it applies the
    boundary conditions to [d_outputs['u_s']], hands the result to the
    linear solver and stores the solution in [d_residuals['u_s']]; it
    changes neither [d_outputs] nor any input seed, output or residual.
    For an engine that solves exactly with the preconditioner [factor]
    built from the matrix, the matrix times the stored adjoint is the seed
    with boundary conditions applied.  Without an entry ['u_s'] in
    [d_outputs] the call raises [KeyError] and changes nothing. *)
Theorem solve_linear_reverse (HS : EngineShapes) (inputs : Inputs)
    (w : World) :
  Shaped inputs w →
  (∀ seed old,
     d_outputs w !! "u_s" = Some seed →
     d_residuals w !! "u_s" = Some old →
     let psi := solve (mat (self w)) (pc (self w)) (applyBCs seed)
                      (psi_s (self w)) in
     solve_linear mode_rev w
     = (set_d_residuals (<["u_s" := psi]> (d_residuals w))
          (set_self (set_psi_s psi (set_res (applyBCs seed) (self w))) w),
        Ok ()) ∧
     (LinearElastic → Factored (self w) →
      mult (mat (self w)) psi (np_zeros (length seed)) = applyBCs seed)) ∧
  (d_outputs w !! "u_s" = None →
   solve_linear mode_rev w = (w, Raise (KeyError "u_s"))).
Proof.
  intros Hw. split.
  - intros seed old Hseed Hold psi.
    assert (Hs : length seed = length (res (self w)))
      by (destruct Hw; rewrite (d_outputs_shape0 _ Hseed); congruence).
    assert (Hp : length psi = length old).
    { unfold psi. rewrite (solve_length HS). destruct Hw.
      rewrite (d_residuals_shape0 _ Hold). congruence. }
    assert (Hps : length (psi_s (self w)) = length seed)
      by (destruct Hw; congruence).
    split.
    + clear Hw. subst psi. unfold solve_linear.
      destruct w as [s out rs di do dr so fi]. destruct s.
      revert Hseed Hold Hs Hp. solver_norm. intros Hseed Hold Hs Hp.
      rewrite bool_decide_eq_false_2 by done.
      rewrite bool_decide_eq_true_2 by done. solver_norm.
      unfold vec_get. rewrite Hseed. solver_norm. cbn [mbind outcome_bind].
      rewrite (assign_slice_same _ _ Hs). solver_norm.
      unfold vec_set, vec_get. rewrite Hold. cbn [mbind outcome_bind].
      rewrite (assign_slice_same _ _ Hp).
      reflexivity.
    + intros HL Hfac. subst psi. rewrite Hfac.
      apply (solve_exact HL).
      * by rewrite (applyBCs_length HS).
      * by rewrite np_zeros_length.
  - intros Hseed. unfold solve_linear.
    destruct w as [s out rs di do dr so fi]. destruct s.
    revert Hseed. solver_norm. intros Hseed.
    rewrite bool_decide_eq_false_2 by done.
    rewrite bool_decide_eq_true_2 by done. solver_norm.
    unfold vec_get. rewrite Hseed. reflexivity.
Qed.
End solver_adjoint.

(** ** What [solve_nonlinear] leaves behind *)

Section solver_solve.
Context `{TacsEngine}.
Import TacsSolver.

(** [solve_nonlinear] on vectors of the declared shapes returns and leaves
    the assembler consistent with what it returns: the state variables of
    the assembler and the buffer [ans] both hold [outputs['u_s']], the
    design variables and nodes are those of the inputs, and [force] holds
    the load with boundary conditions applied.  It writes ['wing.f5']
    once when [write_f5] is set and nothing otherwise, prints nothing,
    and changes neither the residual nor any seed vector. *)
Theorem solve_nonlinear_effects (HS : EngineShapes) (inputs : Inputs)
    (w : World) :
  Shaped inputs w →
  let w' := (solve_nonlinear inputs w).1 in
  (solve_nonlinear inputs w).2 = Ok () ∧
  variables (tacs (self w')) = outputs w' ∧
  ans (self w') = outputs w' ∧
  dvs (tacs (self w')) = dv_struct inputs ∧
  xpts (tacs (self w')) = x_s0 inputs ∧
  force (self w') = applyBCs (f_s inputs) ∧
  files w' = files w ++ (if write_f5 (self w) then ["wing.f5"] else []) ∧
  stdout w' = stdout w ∧ residuals w' = residuals w ∧
  d_inputs w' = d_inputs w ∧ d_outputs w' = d_outputs w ∧
  d_residuals w' = d_residuals w.
Proof.
  intros Hw w'. subst w'. rewrite solve_nonlinear_run by done.
  destruct w as [s out rs di do dr so fi]. destruct s as [[]].
  cbn [self write_f5]. destruct write_f6; cbn; rewrite ?app_nil_r; done.
Qed.
End solver_solve.

(** ** The other seeds of reverse-mode [apply_linear] *)

Section solver_other_seeds.
Context `{TacsEngine}.
Import TacsSolver.

Lemma rev_d_outputs_u_s (inputs : Inputs) (w : World) :
  rev_d_outputs inputs w !! "u_s"
  = (λ o, vadd o (applyBCs (mult (assembled inputs (self w)) (outputs w)
                                 (np_zeros (length (res (self w)))))))
    <$> d_outputs w !! "u_s".
Proof. unfold rev_d_outputs. apply lookup_alter_eq. Qed.

Lemma rev_d_outputs_other (inputs : Inputs) (w : World) name :
  name ≠ "u_s" → rev_d_outputs inputs w !! name = d_outputs w !! name.
Proof. intros. unfold rev_d_outputs. by rewrite lookup_alter_ne. Qed.

(** In reverse mode the seed on [x_s0] receives, added as it is, the
    vector the kernel [evalAdjointResXptSensProduct] returns for the
    residual seed, evaluated at the design variables and nodes of the
    inputs and at the output state. *)
Theorem node_seed_adjoint_product (HS : EngineShapes) (inputs : Inputs)
    (w : World) (seed old : list F) :
  Shaped inputs w →
  (d_inputs w !! "f_s" = None ∨ Mesh inputs (self w)) →
  d_residuals w !! "u_s" = Some seed →
  d_inputs w !! "x_s0" = Some old →
  let at_ := linearized inputs w in
  (apply_linear inputs mode_rev w).2 = Ok () ∧
  d_inputs (apply_linear inputs mode_rev w).1 !! "x_s0"
  = Some (vadd old
            (evalAdjointResXptSensProduct at_ seed (xpt_sens (self w)))) ∧
  dvs at_ = dv_struct inputs ∧ xpts at_ = x_s0 inputs ∧
  variables at_ = (if contains (d_outputs w) "u_s"
                   then outputs w else applyBCs (outputs w)).
Proof.
  intros Hw Hmesh Hseed Hold at_.
  destruct (apply_linear_rev_run HS inputs w seed Hw Hseed Hmesh)
    as (s' & -> & _). cbn [fst snd]. rewrite frame_d_inputs.
  split; [done|]. split.
  - rewrite rev_d_inputs_x_s0, Hold. done.
  - subst at_. unfold linearized. by destruct (contains _ _).
Qed.

(** In reverse mode the seed on the state in [d_outputs] receives the
    matrix assembled by the update step times the output state, with
    boundary conditions applied: the residual seed does not enter it.
    No other entry of [d_outputs] changes, and [d_residuals], the outputs
    and the residuals stay as they were. *)
Theorem state_seed_operator_product (HS : EngineShapes) (inputs : Inputs)
    (w : World) (seed old : list F) :
  Shaped inputs w →
  (d_inputs w !! "f_s" = None ∨ Mesh inputs (self w)) →
  d_residuals w !! "u_s" = Some seed →
  d_outputs w !! "u_s" = Some old →
  let w' := (apply_linear inputs mode_rev w).1 in
  (apply_linear inputs mode_rev w).2 = Ok () ∧
  d_outputs w' !! "u_s"
  = Some (vadd old
            (applyBCs (mult (assembled inputs (self w)) (outputs w)
                            (np_zeros (length (outputs w)))))) ∧
  (∀ name, name ≠ "u_s" → d_outputs w' !! name = d_outputs w !! name) ∧
  d_residuals w' = d_residuals w ∧ outputs w' = outputs w ∧
  residuals w' = residuals w.
Proof.
  intros Hw Hmesh Hseed Hold w'. subst w'.
  assert (Hlen : length (res (self w)) = length (outputs w))
    by (destruct Hw; congruence).
  destruct (apply_linear_rev_run HS inputs w seed Hw Hseed Hmesh)
    as (s' & -> & _). cbn [fst snd]. rewrite frame_d_outputs.
  split; [done|]. split.
  - rewrite rev_d_outputs_u_s, Hold, Hlen. done.
  - split; [|done]. intros name Hname. by apply rev_d_outputs_other.
Qed.

(** Reverse-mode [apply_linear] creates and deletes no seed: [d_inputs]
    and [d_outputs] hold arrays of the same shapes under the same names
    after the call as before. *)
Theorem apply_linear_keeps_shapes (HS : EngineShapes) (inputs : Inputs)
    (w : World) (seed : list F) :
  Shaped inputs w →
  (d_inputs w !! "f_s" = None ∨ Mesh inputs (self w)) →
  d_residuals w !! "u_s" = Some seed →
  let w' := (apply_linear inputs mode_rev w).1 in
  same_shape (d_inputs w') (d_inputs w) ∧
  same_shape (d_outputs w') (d_outputs w) ∧
  dom (d_inputs w') = dom (d_inputs w) ∧
  dom (d_outputs w') = dom (d_outputs w).
Proof.
  intros Hw Hmesh Hseed w'. subst w'.
  destruct (linearized_shape HS inputs w Hw) as [Hlv Hlx].
  destruct (apply_linear_rev_run HS inputs w seed Hw Hseed Hmesh)
    as (s' & -> & _). cbn [fst]. rewrite frame_d_inputs, frame_d_outputs.
  assert (Hin : same_shape (rev_d_inputs inputs w seed) (d_inputs w)).
  { intros name.
    destruct (decide (name = "f_s")) as [->|Hf].
    { rewrite rev_d_inputs_f_s.
      destruct (d_inputs w !! "f_s") as [o|] eqn:Ho; [|done]. cbn.
      f_equal. apply vsub_length. unfold load_term.
      rewrite (applyBCs_length HS), permuted_length.
      destruct Hw. rewrite (d_f_s_shape0 _ Ho). congruence. }
    destruct (decide (name = "x_s0")) as [->|Hx].
    { rewrite rev_d_inputs_x_s0.
      destruct (d_inputs w !! "x_s0") as [o|] eqn:Ho; [|done]. cbn.
      f_equal. apply vadd_length. unfold node_term.
      rewrite (evalAdjointResXptSensProduct_length HS).
      destruct Hw. rewrite (d_x_s0_shape0 _ Ho). congruence. }
    destruct (decide (name = "dv_struct")) as [->|Hd].
    { rewrite rev_d_inputs_dv_struct.
      destruct (d_inputs w !! "dv_struct") as [o|] eqn:Ho; [|done]. cbn.
      f_equal. destruct (decide _); [|done]. apply vadd_length.
      unfold design_term.
      by rewrite (evalAdjointResProduct_length HS), np_zeros_length. }
    by rewrite rev_d_inputs_other. }
  assert (Hout : same_shape (rev_d_outputs inputs w) (d_outputs w)).
  { intros name.
    destruct (decide (name = "u_s")) as [->|Hu].
    { rewrite rev_d_outputs_u_s.
      destruct (d_outputs w !! "u_s") as [o|] eqn:Ho; [|done]. cbn.
      f_equal. apply vadd_length.
      rewrite (applyBCs_length HS), (mult_length HS), np_zeros_length.
      destruct Hw. rewrite (d_outputs_shape0 _ Ho). congruence. }
    by rewrite rev_d_outputs_other. }
  split; [done|]. split; [done|].
  unfold rev_d_inputs, rev_d_outputs. by rewrite !dom_alter_L.
Qed.
End solver_other_seeds.

(** ** Fewer than three states per node *)

Section loops.
Context {S A : Type}.

(** A loop whose turns keep [P], whether they return or raise [e], keeps
    [P] and raises nothing else. *)
Lemma for_cases (P : S → Prop) (e : exn) (body : A → M S unit)
    (xs : list A) :
  (∀ x s, x ∈ xs → P s →
     ∃ s', P s' ∧ (body x s = (s', Ok ()) ∨ body x s = (s', Raise e))) →
  ∀ s, P s →
    ∃ s', P s' ∧
      (for_ xs body s = (s', Ok ()) ∨ for_ xs body s = (s', Raise e)).
Proof.
  induction xs as [|x xs IH]; intros Hbody s Hs.
  - exists s. split; [done|]. by left.
  - rewrite for_cons.
    destruct (Hbody x s) as (s1 & Hs1 & [-> | ->]);
      [apply list_elem_of_here|done| |].
    + apply IH; [|done]. intros y s' Hy. apply Hbody.
      by apply list_elem_of_further.
    + exists s1. split; [done|]. by right.
Qed.

(** If moreover one turn raises [e] from every state with [P], so does
    the loop. *)
Lemma for_raises (P : S → Prop) (e : exn) (body : A → M S unit)
    (xs : list A) (bad : A) :
  (∀ x s, x ∈ xs → P s →
     ∃ s', P s' ∧ (body x s = (s', Ok ()) ∨ body x s = (s', Raise e))) →
  bad ∈ xs →
  (∀ s, P s → ∃ s', P s' ∧ body bad s = (s', Raise e)) →
  ∀ s, P s → ∃ s', P s' ∧ for_ xs body s = (s', Raise e).
Proof.
  induction xs as [|x xs IH]; intros Hbody Hbad Hraise s Hs.
  - by apply elem_of_nil in Hbad.
  - rewrite for_cons. apply elem_of_cons in Hbad as [<- | Hbad].
    + destruct (Hraise s Hs) as (s1 & Hs1 & ->). by exists s1.
    + destruct (Hbody x s) as (s1 & Hs1 & [-> | ->]);
        [apply list_elem_of_here|done| |].
      * apply IH; try done. intros y s' Hy. apply Hbody.
        by apply list_elem_of_further.
      * by exists s1.
Qed.
End loops.

Section short_states.
Context `{TacsEngine}.
Import TacsSolver.

Lemma scatter_entry_cases (w : World) (s : t)
    (din dout : gmap string (list F)) (seed : list F) (i j : nat)
    (w1 : World) :
  d_residuals w !! "u_s" = Some seed →
  scattering w s din dout w1 →
  ∃ w2, scattering w s din dout w2 ∧
    (scatter_entry i j w1 = (w2, Ok ()) ∨
     scatter_entry i j w1 = (w2, Raise IndexError)) ∧
    (length seed ≤ 3 * i + j → scatter_entry i j w1 = (w2, Raise IndexError)).
Proof.
  intros Hseed [buf ->]. unfold scatter_entry.
  destruct w as [s0 out rs di do dr so fi]. destruct s.
  revert Hseed. unfold scattering. solver_norm. intros Hseed.
  unfold vec_get. rewrite Hseed. solver_norm. unfold getitem.
  destruct (seed !! (3 * i + j)) as [x|] eqn:Hx; solver_norm.
  - apply lookup_lt_Some in Hx. unfold setitem.
    destruct (decide (ndof0 * i + j < length buf)); solver_norm.
    + eexists. split; [by eexists|]. split; [by left|]. intros. lia.
    + eexists. split; [by exists buf|]. split; [by right|]. done.
  - eexists. split; [by exists buf|]. split; [by right|]. done.
Qed.

Lemma scatter_loop_raises (w : World) (s : t)
    (din dout : gmap string (list F)) (seed : list F) (n : nat)
    (w1 : World) :
  d_residuals w !! "u_s" = Some seed →
  length seed < 3 * n →
  scattering w s din dout w1 →
  ∃ w2, scattering w s din dout w2 ∧
    for_ (seq 0 n) (λ i, for_ (seq 0 3) (λ j, scatter_entry i j)) w1
    = (w2, Raise IndexError).
Proof.
  intros Hseed Hshort Hw1.
  assert (Hinner : ∀ i w', scattering w s din dout w' →
    ∃ w'', scattering w s din dout w'' ∧
      (for_ (seq 0 3) (λ j, scatter_entry i j) w' = (w'', Ok ()) ∨
       for_ (seq 0 3) (λ j, scatter_entry i j) w' = (w'', Raise IndexError))).
  { intros i w' Hw'.
    apply (for_cases (scattering w s din dout)); [|done].
    intros j w'' _ Hw''.
    destruct (scatter_entry_cases w s din dout seed i j w'' Hseed Hw'')
      as (w3 & H3 & Hc & _). by exists w3. }
  apply (for_raises (scattering w s din dout) IndexError _ _ (n - 1));
    [| |  | done].
  - intros i w' _ Hw'. by apply Hinner.
  - apply elem_of_seq. lia.
  - intros w' Hw'.
    apply (for_raises (scattering w s din dout) IndexError _ _ 2);
      [| | | done].
    + intros j w'' _ Hw''.
      destruct (scatter_entry_cases w s din dout seed (n - 1) j w''
                  Hseed Hw'') as (w3 & H3 & Hc & _). by exists w3.
    + apply elem_of_seq. lia.
    + intros w'' Hw''.
      destruct (scatter_entry_cases w s din dout seed (n - 1) 2 w''
                  Hseed Hw'') as (w3 & H3 & _ & Hr).
      exists w3. split; [done|]. apply Hr. lia.
Qed.

Lemma load_seed_raises (inputs : Inputs) (w : World) (s : t)
    (din dout : gmap string (list F)) (seed : list F) :
  d_residuals w !! "u_s" = Some seed →
  length seed < 3 * (length (x_s0 inputs) / 3) →
  ∃ buf, load_seed inputs (frame w s din dout)
         = (frame w (set_res buf s) din dout, Raise IndexError).
Proof.
  intros Hseed Hshort.
  destruct (scatter_loop_raises w s din dout seed
              (length (x_s0 inputs) / 3)
              (set_self
                 (set_res (fill (res (self (frame w s din dout))) f0)
                          (self (frame w s din dout)))
                 (frame w s din dout))
              Hseed Hshort) as (w2 & [buf ->] & Hloop).
  { by exists (fill (res s) f0). }
  exists buf. unfold load_seed. unfold_monad.
  rewrite on_self_pure. cbv beta iota.
  destruct (node_count (length (x_s0 inputs))) as [-> ->].
  cbv beta iota. by rewrite Hloop.
Qed.
End short_states.

Section short_states_run.
Context `{TacsEngine}.
Import TacsSolver.

(** When the residual seed has fewer than three entries per node (two
    degrees of freedom per node, say), reverse-mode [apply_linear] with a
    seed on [f_s] raises [IndexError] inside the double loop.  The input
    seeds are as they were; the seed on the state in [d_outputs] has been
    updated by then. *)
Theorem load_seed_needs_three_states (HS : EngineShapes) (inputs : Inputs)
    (w : World) (seed old : list F) :
  Shaped inputs w →
  d_residuals w !! "u_s" = Some seed →
  d_inputs w !! "f_s" = Some old →
  length seed < 3 * (length (x_s0 inputs) / 3) →
  (apply_linear inputs mode_rev w).2 = Raise IndexError ∧
  d_inputs (apply_linear inputs mode_rev w).1 = d_inputs w ∧
  d_outputs (apply_linear inputs mode_rev w).1 = rev_d_outputs inputs w.
Proof.
  intros Hw Hseed Hold Hshort.
  pose proof (updated_self_stable HS inputs w Hw) as Hst0.
  unfold apply_linear. unfold mbind, M_bind, gets. cbv beta iota.
  rewrite on_self_update_ok by done. cbv beta iota.
  rewrite bool_decide_eq_false_2 by done. rewrite when_false.
  cbv beta iota.
  rewrite bool_decide_eq_true_2 by done. rewrite when_true.
  cbv beta iota.
  change (set_self (updated_self inputs (outputs w) (self w)) w)
    with (frame w (updated_self inputs (outputs w) (self w))
                (d_inputs w) (d_outputs w)).
  set (s0 := updated_self inputs (outputs w) (self w)) in *.
  change (d_residuals (frame w s0 (d_inputs w) (d_outputs w)))
    with (d_residuals w).
  rewrite (contains_Some _ _ _ Hseed), when_true. cbv beta iota.
  rewrite frame_d_outputs.
  destruct (state_stage HS w s0 (d_inputs w) (d_outputs w))
    as (s1 & -> & Ht1 & Hx1 & Hst1).
  { destruct Hw, Hst0. unfold s0. simpl. rewrite (applyBCs_length HS). done. }
  { intros o Ho. destruct Hw. unfold s0. simpl.
    rewrite (d_outputs_shape0 o Ho). done. }
  cbv beta iota. rewrite frame_d_inputs.
  rewrite (contains_Some _ _ _ Hold), when_true.
  destruct (load_seed_raises inputs w s1 (d_inputs w)
              (alter (λ o, vadd o (applyBCs (mult (mat s0) (outputs w)
                                      (np_zeros (length (res s0))))))
                     "u_s" (d_outputs w)) seed Hseed Hshort)
    as (buf & ->).
  cbn [fst snd]. rewrite frame_d_inputs, frame_d_outputs.
  split; [done|]. split; [done|]. reflexivity.
Qed.
End short_states_run.

(** ** TacsFunctions: setup, compute and the forward mode *)

Section functions_setup.
Context `{TacsEngine}.
Import TacsFunctions.

Lemma split_mass_fold (fs : list (Func OtherFunc)) (mass : bool)
    (outs : gmap string (list F)) (acc : list (Func OtherFunc)) :
  foldl (λ acc func, split_mass func acc) (mass, outs, acc) fs
  = (mass || existsb is_mass fs,
     if negb mass && existsb is_mass fs
     then <["mass" := [f0]]> outs else outs,
     acc ++ filter (λ f, is_mass f = false) fs).
Proof.
  revert mass outs acc. induction fs as [|f fs IH]; intros mass outs acc.
  - cbn. by rewrite orb_false_r, andb_false_r, app_nil_r.
  - cbn [foldl]. destruct f as [|c].
    + cbn [split_mass existsb is_mass]. rewrite filter_cons_False by done.
      destruct mass; cbn [orb negb andb]; rewrite IH; cbn [orb negb andb].
      * done.
      * by destruct (existsb is_mass fs).
    + cbn [split_mass existsb is_mass]. rewrite filter_cons_True by done.
      rewrite IH, orb_false_l. by rewrite <- app_assoc.
Qed.

(** [setup] takes the mass out of the function list: the component keeps
    the other functionals in their order, [self.mass] tells whether the
    list held a mass functional, the output ['mass'] is declared (once,
    with value [0.0]) exactly then, and ['f_struct'] is declared, with
    one entry per remaining functional, exactly when one remains.  No
    other output is declared. *)
Theorem functions_setup_splits_mass
    (job : list (list (Func OtherFunc) * Tacs * nat * Mat * PC))
    (r : nat) (fs : list (Func OtherFunc)) (t : Tacs) (ndv : nat)
    (m : Mat) (p : PC) :
  let d := setup initialize job r (fs, t, ndv, m, p) in
  let rest := filter (λ f, is_mass f = false) fs in
  func_list (component d) = rest ∧
  mass (component d) = existsb is_mass fs ∧
  outputs_decl d !! "mass"
  = (if existsb is_mass fs then Some [f0] else None) ∧
  outputs_decl d !! "f_struct"
  = (if decide (rest = []) then None
     else Some (replicate (length rest) f1)) ∧
  (∀ name, name ≠ "mass" → name ≠ "f_struct" →
     outputs_decl d !! name = None).
Proof.
  intros d rest. subst d rest. unfold setup, initialize.
  cbn [init_mass init_check_partials]. rewrite split_mass_fold.
  cbn [orb negb andb app].
  set (rest := filter (λ f, is_mass f = false) fs).
  cbn [component outputs_decl func_list mass].
  split; [done|]. split; [done|].
  assert (Hlen : rest = [] ↔ ¬ 0 < length rest).
  { destruct rest; simpl; split; (done || lia). }
  destruct (decide (0 < length rest)) as [Hpos|Hzero].
  - rewrite decide_False by (intros Hr; apply Hlen in Hr; done).
    split; [|split].
    + rewrite lookup_insert_ne by done.
      destruct (existsb is_mass fs); [by rewrite lookup_insert_eq|done].
    + by rewrite lookup_insert_eq.
    + intros name Hm Hf. rewrite lookup_insert_ne by done.
      destruct (existsb is_mass fs); [by rewrite lookup_insert_ne|done].
  - rewrite decide_True by (by apply Hlen).
    split; [|split].
    + destruct (existsb is_mass fs); [by rewrite lookup_insert_eq|done].
    + destruct (existsb is_mass fs); [by rewrite lookup_insert_ne|done].
    + intros name Hm Hf.
      destruct (existsb is_mass fs); [by rewrite lookup_insert_ne|done].
Qed.
End functions_setup.

Section functions_compute.
Context `{TacsEngine}.
Import TacsFunctions.

(** [compute] on vectors of the declared shapes returns and overwrites
    the declared outputs with the engine's values: ['f_struct'] with the
    values of the function list, ['mass'] with the value of the mass
    functional; it creates no output and changes no other one nor any
    input seed.  Under [check_partials] the values are taken at the design
    variables, nodes and state of the inputs (the state with boundary
    conditions applied).  With the flag cleared [compute] does not read
    its inputs at all: the values are those of the state the assembler is
    in. *)
Theorem compute_stores_functions (HS : EngineShapes)
    (inputs inputs' : Inputs) (w : World) :
  Shaped inputs w →
  let at_ := if check_partials (self w)
             then {| dvs := dv_struct inputs; xpts := x_s0 inputs;
                     variables := applyBCs (u_s inputs) |}
             else tacs (self w) in
  let w' := (compute inputs w).1 in
  (compute inputs w).2 = Ok () ∧
  outputs w' !! "f_struct"
  = (λ _, evalFunctions at_ (func_list (self w)))
    <$> outputs w !! "f_struct" ∧
  outputs w' !! "mass"
  = (λ _, evalFunctions at_ [StructuralMass]) <$> outputs w !! "mass" ∧
  (∀ name, name ≠ "f_struct" → name ≠ "mass" →
     outputs w' !! name = outputs w !! name) ∧
  dom (outputs w') = dom (outputs w) ∧
  d_inputs w' = d_inputs w ∧
  (check_partials (self w) = false → compute inputs' w = compute inputs w).
Proof.
  intros Hw at_ w'. subst w'.
  assert (Hign : check_partials (self w) = false →
                 compute inputs' w = compute inputs w).
  { intros Hcheck. unfold compute. unfold mbind, M_bind, gets.
    cbv beta iota. by rewrite Hcheck. }
  revert Hign. generalize (compute inputs' w). intros other Hign.
  pose proof (compute_run HS inputs w Hw) as Hrun. cbv zeta in Hrun.
  change (point inputs (self w)) with at_ in Hrun.
  rewrite Hrun. cbn [fst snd outputs d_inputs].
  split; [done|]. split.
  { rewrite lookup_alter_ne by done. apply lookup_alter_eq. }
  split; [by rewrite lookup_alter_eq, lookup_alter_ne by done|]. split.
  { intros name Hf Hm. by rewrite !lookup_alter_ne. }
  split; [by rewrite !dom_alter_L|]. split; [done|].
  intros Hcheck. rewrite (Hign Hcheck). exact Hrun.
Qed.

(** In forward mode, and in any mode other than ['rev'],
    [compute_jacvec_product] computes nothing: it leaves the component
    and every vector as they are, and it raises [ValueError] exactly in
    forward mode with [check_partials] cleared. *)
Theorem jacvec_product_forward_gate (inputs : Inputs)
    (d_outputs : gmap string (list F)) (mode : string) (w : World) :
  mode ≠ mode_rev →
  compute_jacvec_product inputs d_outputs mode w
  = (w, if bool_decide (mode = mode_fwd) && negb (check_partials (self w))
        then Raise not_implemented else Ok ()).
Proof.
  intros Hmode. unfold compute_jacvec_product. unfold mbind, M_bind, gets.
  cbv beta iota. rewrite (bool_decide_eq_false_2 (mode = mode_rev)) by done.
  destruct (bool_decide (mode = mode_fwd)); cbn [andb].
  - rewrite when_true. cbv beta iota.
    destruct (check_partials (self w)); cbn [negb]; [|done].
    unfold mret, M_ret. by rewrite when_false.
  - by rewrite !when_false.
Qed.
End functions_compute.

(** ** Reverse-mode [compute_jacvec_product] *)

Section functions_reverse_shapes.
Context `{TacsEngine}.
Import TacsFunctions.

Lemma func_update_same_shape (HS : EngineShapes) state at_ xs func g
    (d : gmap string (list F)) :
  seeds_fit (length xs) (length (variables at_)) d →
  same_shape (func_update state at_ xs func g d) d.
Proof.
  intros [Hx Hu] name.
  destruct (decide (name = "dv_struct")) as [->|Hdv].
  { rewrite func_update_dv_struct.
    destruct (d !! "dv_struct") as [o|]; [|done]. cbn. f_equal.
    apply vadd_length.
    by rewrite scale_length, (evalDVSens_length HS), np_zeros_length. }
  destruct (decide (name = "x_s0")) as [->|Hxs].
  { rewrite func_update_x_s0.
    destruct (d !! "x_s0") as [o|] eqn:Ho; [|done]. cbn. f_equal.
    apply vadd_length.
    rewrite scale_length, (evalXptSens_length HS). by apply Hx. }
  destruct (decide (name = "u_s")) as [->|Hus].
  { rewrite func_update_u_s.
    destruct (d !! "u_s") as [o|] eqn:Ho; [|done]. cbn. f_equal.
    destruct state; [|done]. apply vadd_length.
    rewrite scale_length, (evalSVSens_length HS), createVec_length.
    by apply Hu. }
  by rewrite func_update_other.
Qed.

Lemma apply_steps_same_shape (HS : EngineShapes) at_ xs steps
    (d : gmap string (list F)) :
  seeds_fit (length xs) (length (variables at_)) d →
  same_shape (apply_steps at_ xs steps d) d.
Proof.
  revert d. induction steps as [|st steps IH]; intros d Hd; [done|].
  rewrite apply_steps_cons. intros name.
  rewrite (IH _ (func_update_fit HS _ _ _ _ _ _ Hd) name).
  by apply func_update_same_shape.
Qed.

(** Reverse-mode [compute_jacvec_product] on vectors of the declared
    shapes returns, creates and deletes no input seed and keeps the shape
    of every one, and leaves the outputs as they are. *)
Theorem jacvec_product_keeps_shapes (HS : EngineShapes)
    (HK : KernelsOverwrite) (inputs : Inputs)
    (d_outputs : gmap string (list F)) (w : World) :
  Shaped inputs w → SeedShaped d_outputs (self w) →
  let w' := (compute_jacvec_product inputs d_outputs mode_rev w).1 in
  (compute_jacvec_product inputs d_outputs mode_rev w).2 = Ok () ∧
  same_shape (d_inputs w') (d_inputs w) ∧
  dom (d_inputs w') = dom (d_inputs w) ∧
  outputs w' = outputs w.
Proof.
  intros Hw Hd w'. subst w'.
  destruct (point_shape HS inputs w Hw) as [Hpv Hpx].
  destruct (jac_run HS HK inputs d_outputs w Hw Hd) as (X & HX & ->).
  cbn [fst snd d_inputs outputs frame]. split; [done|].
  assert (Hs : same_shape (jac_update inputs (self w) d_outputs (d_inputs w))
                 (d_inputs w)).
  { rewrite jac_update_steps. apply apply_steps_same_shape; [done|].
    rewrite Hpv. destruct Hw. split; intros o Ho.
    - by rewrite (d_x_s0_shape0 o Ho).
    - by rewrite (d_u_s_shape0 o Ho). }
  split; [done|]. split; [|done].
  apply set_eq. intros name. rewrite !elem_of_dom.
  specialize (Hs name).
  destruct (jac_update _ _ _ _ !! name), (d_inputs w !! name);
    cbn in Hs; try done; split; intros [? ?]; done || eauto.
Qed.
End functions_reverse_shapes.

Section functions_state_seed.
Context `{TacsEngine}.
Import TacsFunctions.

Lemma apply_steps_u_s at_ xs steps (d : gmap string (list F)) :
  apply_steps at_ xs steps d !! "u_s"
  = (λ o, foldl (λ acc (st : bool * Func OtherFunc * F),
                   if st.1.1
                   then vadd acc (scale (evalSVSens at_ st.1.2
                                           (createVec at_)) st.2)
                   else acc) o steps) <$> d !! "u_s".
Proof.
  revert d. induction steps as [|st steps IH]; intros d.
  - cbn. by destruct (d !! "u_s").
  - rewrite apply_steps_cons, IH, func_update_u_s. cbn [foldl].
    by destruct (d !! "u_s").
Qed.

(** In reverse mode the seed on [u_s] receives, one functional of the
    list after the other, the state sensitivity [evalSVSens] of functional
    [i] times entry [i] of the seed on ['f_struct'], evaluated at the
    state [compute] evaluates at.  A seed on ['mass'] adds nothing to
    it. *)
Theorem jacvec_product_state_seed (HS : EngineShapes)
    (HK : KernelsOverwrite) (inputs : Inputs)
    (d_outputs : gmap string (list F)) (w : World) (seeds old : list F) :
  Shaped inputs w → SeedShaped d_outputs (self w) →
  d_outputs !! "f_struct" = Some seeds →
  d_inputs w !! "u_s" = Some old →
  let at_ := point inputs (self w) in
  d_inputs (compute_jacvec_product inputs d_outputs mode_rev w).1 !! "u_s"
  = Some (foldl (λ acc (entry : nat * Func OtherFunc),
                   vadd acc (scale (evalSVSens at_ entry.2 (createVec at_))
                                   (default f0 (seeds !! entry.1))))
                old (enumerate (func_list (self w)))).
Proof.
  intros Hw Hd Hseeds Hold at_.
  destruct (jac_run HS HK inputs d_outputs w Hw Hd) as (X & HX & ->).
  cbn [fst d_inputs frame]. rewrite jac_update_steps, apply_steps_u_s, Hold.
  cbn [fmap option_fmap option_map]. f_equal.
  unfold jac_steps. rewrite Hseeds, foldl_app.
  fold at_. unfold enumerate. rewrite foldl_fmap. cbn [fst snd].
  f_equal. by destruct (d_outputs !! "mass").
Qed.
End functions_state_seed.

(** ** PrescribedLoad *)

Section prescribed_load.
Context `{Scalar}.
Import PrescribedLoad.

(** On a mesh with [n] nodes and [k] states per node, [setup] followed by
    [compute] calls the load function with the node coordinates and
    [ndof = k] and stores the load it returns in [outputs['f_s']] when the
    load has one entry per state; a load of any other size (but one,
    which numpy broadcasts) makes [compute] raise [ValueError] and store
    nothing.  The component itself is not changed by [compute]. *)
Theorem prescribed_load_after_setup (job : list Tacs) (r : nat)
    (local : Tacs) (load_function : list F → nat → list F)
    (x_s0 : list F) (n k : nat) :
  n ≠ 0 →
  length (createNodeVec local) = 3 * n →
  length (createVec local) = k * n →
  ∃ d, setup job r local = Ok d ∧
    ndof (component d) = k ∧
    let load := load_function x_s0 k in
    (length load = k * n →
     compute load_function x_s0 (component d, outputs_decl d)
     = ((component d, <["f_s" := load]> ∅), Ok ())) ∧
    (length load ≠ k * n → length load ≠ 1 →
     compute load_function x_s0 (component d, outputs_decl d)
     = ((component d, outputs_decl d),
        Raise (ValueError "could not broadcast input array"))).
Proof.
  intros Hn Hnode Hstate. unfold setup. rewrite Hnode, Hstate.
  rewrite ndof_of_exact by done. cbn [mbind outcome_bind mret outcome_ret].
  eexists. split; [reflexivity|]. cbn [component outputs_decl ndof].
  split; [done|]. set (load := load_function x_s0 k).
  unfold compute. unfold_monad.
  cbn [fst snd ndof]. fold load. unfold vec_set, vec_get.
  rewrite lookup_insert_eq. cbn [mbind outcome_bind]. split.
  - intros Hl. rewrite assign_slice_same by (by rewrite length_replicate).
    cbn [mbind outcome_bind mret outcome_ret]. by rewrite insert_insert_eq.
  - intros Hl H1. unfold assign_slice, broadcast_to.
    rewrite length_replicate, decide_False by done.
    by destruct load as [|a [|b load]].
Qed.
End prescribed_load.

(** ** The further statements at work on the small engine *)

Section further_runs.
#[local] Existing Instance Mock.scalar.
#[local] Existing Instance Mock.engine.

(** The mesh component stores the two nodes of [Cases.wing]. *)
Lemma mesh_compute_stores_nodes_witness :
  TacsMesh.compute (TacsMesh.component (TacsMesh.setup Cases.wing))
    (<["x_s0" := [9; 9; 9; 9; 9; 9]%Z]> (<["other" := [4%Z]]> ∅))
  = (<["x_s0" := [0; 0; 0; 1; 0; 0]%Z]> (<["other" := [4%Z]]> ∅), Ok ()) ∧
  TacsMesh.compute (TacsMesh.component (TacsMesh.setup Cases.wing)) ∅
  = (∅, Raise (KeyError "x_s0")).
Proof.
  destruct (mesh_compute_stores_nodes Cases.wing
              (<["x_s0" := [9; 9; 9; 9; 9; 9]%Z]> (<["other" := [4%Z]]> ∅)))
    as (Hstore & _ & _).
  destruct (mesh_compute_stores_nodes Cases.wing ∅) as (_ & Hmissing & _).
  split.
  - etrans; [exact (Hstore [9; 9; 9; 9; 9; 9]%Z (replicate 6 1%Z)
                      eq_refl eq_refl eq_refl)|].
    vm_compute. reflexivity.
  - exact (Hmissing eq_refl).
Defined.

(** A first call saves the vector; a call with a vector that differs
    from the saved one saves it, and the next call reports no change. *)
Lemma design_vector_changed_once_witness :
  DesignVector._design_vector_changed Z.eqb [1; 2]%Z None
  = (Some [1; 2]%Z, Ok true) ∧
  DesignVector._design_vector_changed Z.eqb [1; 2]%Z Cases.saved
  = (Some [1; 2]%Z, Ok true) ∧
  DesignVector._design_vector_changed Z.eqb [1; 2]%Z (Some [1; 2]%Z)
  = (Some [1; 2]%Z, Ok false).
Proof.
  assert (Hx : Forall (λ a : Z, Z.eqb a a = true) [1; 2]%Z)
    by (repeat constructor).
  destruct (@design_vector_changed_once Mock.scalar Z.eqb [1; 2]%Z
              Cases.saved Hx)
    as (Hfirst & Hnext & _).
  split; [exact Hfirst|]. split; [reflexivity|].
  exact (proj1 (Hnext (Some [1; 2]%Z) true eq_refl)).
Defined.


Lemma cases_lookups :
  TacsSolver.d_outputs Mock.world !! "u_s"
  = Some [0; 0; 1; 0; 0; 0; 0; 0]%Z ∧
  TacsSolver.d_residuals Cases.flat_world !! "u_s" = Some [1; 2; 3; 4]%Z ∧
  TacsSolver.d_inputs Cases.flat_world !! "f_s" = Some [1; 1; 1; 1]%Z ∧
  Mock.seed_funcs !! "f_struct" = Some [1; 2]%Z ∧
  TacsFunctions.d_inputs Mock.functions_world !! "u_s"
  = Some [1; 0; 0; 0; 0; 0; 0; 0]%Z.
Proof. vm_compute. repeat split. Qed.

Lemma cases_flat_shaped :
  TacsSolver.Shaped Cases.flat_inputs Cases.flat_world.
Proof.
  split; try reflexivity; intros v Hv; vm_compute in Hv;
    try discriminate; injection Hv as <-; reflexivity.
Qed.

Lemma cases_seed_sizes (a : list Z) :
  (TacsSolver.d_inputs Mock.world !! "f_s" = Some a → length a = 8) ∧
  (TacsSolver.d_inputs Mock.world !! "x_s0" = Some a → length a = 6) ∧
  (TacsSolver.d_outputs Mock.world !! "u_s" = Some a → length a = 8) ∧
  (TacsSolver.d_residuals Mock.world !! "u_s" = Some a → length a = 8).
Proof.
  repeat split; intros Hv; vm_compute in Hv; injection Hv as <-;
    reflexivity.
Qed.

(** Right after [setup] on the two-node mesh every method returns. *)
Lemma methods_complete_after_setup_witness :
  ∃ d, TacsSolver.setup TacsSolver.initialize Mock.solver_job 0
         (Mock.mesh 2 4, (), (), 1) = Ok d ∧
    let w := solver_world d (TacsSolver.d_inputs Mock.world)
               (TacsSolver.d_outputs Mock.world)
               (TacsSolver.d_residuals Mock.world) in
    (TacsSolver.apply_nonlinear Mock.inputs w).2 = Ok () ∧
    (TacsSolver.solve_nonlinear Mock.inputs w).2 = Ok () ∧
    (TacsSolver.apply_linear Mock.inputs mode_fwd w).2 = Ok () ∧
    (TacsSolver.apply_linear Mock.inputs mode_rev w).2 = Ok ().
Proof.
  destruct (methods_complete_after_setup mock_engine_shapes
              Mock.solver_job 0 (Mock.mesh 2 4) () () 1 Mock.inputs
              (TacsSolver.d_inputs Mock.world)
              (TacsSolver.d_outputs Mock.world)
              (TacsSolver.d_residuals Mock.world))
    as (d & Hd & _ & _ & _ & Hres & Hsolve & Hfwd & Hrev).
  - vm_compute. lia.
  - reflexivity.
  - reflexivity.
  - intros a. apply (cases_seed_sizes a).
  - intros a. apply (cases_seed_sizes a).
  - intros a. apply (cases_seed_sizes a).
  - intros a. apply (cases_seed_sizes a).
  - exists d. split; [exact Hd|]. split; [exact Hres|].
    split; [exact Hsolve|]. split; [exact Hfwd|].
    apply Hrev. vm_compute. lia.
Defined.

(** Two node coordinates where six are declared. *)
Lemma update_rejects_bad_nodes_witness :
  (TacsSolver.apply_nonlinear Cases.narrow Mock.world).2
  = Raise (ValueError "could not broadcast input array") ∧
  TacsSolver.residuals (TacsSolver.apply_nonlinear Cases.narrow Mock.world).1
  = TacsSolver.residuals Mock.world ∧
  dvs (TacsSolver.tacs (TacsSolver.self
        (TacsSolver.apply_nonlinear Cases.narrow Mock.world).1))
  = [2%Z] ∧
  (TacsFunctions.compute Cases.narrow_functions Mock.functions_world).2
  = Raise (ValueError "could not broadcast input array").
Proof.
  assert (H2 : 2 ≠ 6) by lia. assert (H1 : 2 ≠ 1) by lia.
  destruct (update_rejects_bad_nodes Cases.narrow Mock.world mode_rev
              Cases.narrow_functions Mock.functions_world Mock.seed_mass
              H2 H1 H2 H1 eq_refl)
    as (Hres & _ & _ & Hcompute & _).
  rewrite Hres, Hcompute. repeat split.
Defined.

(** The adjoint of the seed [[0; 0; 1; 0; ...]]: the identity matrix of
    the small engine returns the seed itself. *)
Lemma solve_linear_reverse_witness :
  TacsSolver.d_residuals
    (TacsSolver.solve_linear mode_rev Mock.world).1 !! "u_s"
  = Some [0; 0; 1; 0; 0; 0; 0; 0]%Z ∧
  TacsSolver.solve_linear mode_rev (TacsSolver.set_d_outputs ∅ Mock.world)
  = (TacsSolver.set_d_outputs ∅ Mock.world, Raise (KeyError "u_s")).
Proof.
  destruct (solve_linear_reverse mock_engine_shapes Mock.inputs Mock.world
              mock_world_shaped) as [Hsolve _].
  destruct (Hsolve [0; 0; 1; 0; 0; 0; 0; 0]%Z [1; 2; 3; 4; 5; 6; 7; 8]%Z
              (proj1 cases_lookups)
              (proj1 (proj2 (proj2 mock_seed_lookups)))) as [Hrun _].
  destruct (solve_linear_reverse mock_engine_shapes Mock.inputs
              (TacsSolver.set_d_outputs ∅ Mock.world)) as [_ Hmissing].
  { split; try apply mock_world_shaped. intros v Hv. discriminate Hv. }
  split.
  - rewrite Hrun. vm_compute. reflexivity.
  - exact (Hmissing eq_refl).
Defined.

(** One solve writes one file and leaves the assembler at the solution. *)
Lemma solve_nonlinear_effects_witness :
  TacsSolver.files (TacsSolver.solve_nonlinear Mock.inputs Mock.world).1
  = ["wing.f5"] ∧
  variables (TacsSolver.tacs (TacsSolver.self
               (TacsSolver.solve_nonlinear Mock.inputs Mock.world).1))
  = [0; 1; 2; 3; 4; 5; 6; 7]%Z ∧
  TacsSolver.outputs (TacsSolver.solve_nonlinear Mock.inputs Mock.world).1
  = [0; 1; 2; 3; 4; 5; 6; 7]%Z.
Proof.
  destruct (solve_nonlinear_effects mock_engine_shapes Mock.inputs
              Mock.world mock_world_shaped)
    as (_ & Hvars & _ & _ & _ & _ & Hfiles & _).
  split; [exact Hfiles|]. rewrite Hvars. split; vm_compute; reflexivity.
Defined.

(** The node seed receives the total of the residual seed, [36], on every
    coordinate. *)
Lemma node_seed_adjoint_product_witness :
  TacsSolver.d_inputs
    (TacsSolver.apply_linear Mock.inputs mode_rev Mock.world).1 !! "x_s0"
  = Some [36; 36; 36; 36; 36; 37]%Z.
Proof.
  destruct (node_seed_adjoint_product mock_engine_shapes Mock.inputs
              Mock.world [1; 2; 3; 4; 5; 6; 7; 8]%Z [0; 0; 0; 0; 0; 1]%Z
              mock_world_shaped (or_intror mock_world_mesh)
              (proj1 (proj2 (proj2 mock_seed_lookups)))
              (proj1 (proj2 mock_d_inputs_lookups)))
    as (_ & Hnode & _).
  etrans; [exact Hnode|]. vm_compute. reflexivity.
Defined.

(** The output seed receives the held output state. *)
Lemma state_seed_operator_product_witness :
  TacsSolver.d_outputs
    (TacsSolver.apply_linear Mock.inputs mode_rev Mock.world).1 !! "u_s"
  = Some [0; 1; 2; 2; 0; 1; 3; 1]%Z.
Proof.
  destruct (state_seed_operator_product mock_engine_shapes Mock.inputs
              Mock.world [1; 2; 3; 4; 5; 6; 7; 8]%Z
              [0; 0; 1; 0; 0; 0; 0; 0]%Z
              mock_world_shaped (or_intror mock_world_mesh)
              (proj1 (proj2 (proj2 mock_seed_lookups)))
              (proj1 cases_lookups))
    as (_ & Hstate & _).
  etrans; [exact Hstate|]. vm_compute. reflexivity.
Defined.

Lemma apply_linear_keeps_shapes_witness :
  same_shape
    (TacsSolver.d_inputs
       (TacsSolver.apply_linear Mock.inputs mode_rev Mock.world).1)
    (TacsSolver.d_inputs Mock.world) ∧
  dom (TacsSolver.d_inputs
         (TacsSolver.apply_linear Mock.inputs mode_rev Mock.world).1)
  = dom (TacsSolver.d_inputs Mock.world).
Proof.
  destruct (apply_linear_keeps_shapes mock_engine_shapes Mock.inputs
              Mock.world [1; 2; 3; 4; 5; 6; 7; 8]%Z
              mock_world_shaped (or_intror mock_world_mesh)
              (proj1 (proj2 (proj2 mock_seed_lookups))))
    as (Hin & _ & Hdom & _).
  split; [exact Hin|exact Hdom].
Defined.

(** Two states per node: the loop reads entry 4 of a seed of four. *)
Lemma load_seed_needs_three_states_witness :
  TacsSolver.Shaped Cases.flat_inputs Cases.flat_world ∧
  (TacsSolver.apply_linear Cases.flat_inputs mode_rev Cases.flat_world).2
  = Raise IndexError.
Proof.
  split; [exact cases_flat_shaped|].
  refine (proj1 (load_seed_needs_three_states mock_engine_shapes
                   Cases.flat_inputs Cases.flat_world [1; 2; 3; 4]%Z
                   [1; 1; 1; 1]%Z cases_flat_shaped
                   (proj1 (proj2 cases_lookups))
                   (proj1 (proj2 (proj2 cases_lookups))) _)).
  vm_compute. lia.
Defined.

(** The function list of the small job: the mass is taken out, two
    functionals remain. *)
Lemma functions_setup_splits_mass_example :
  TacsFunctions.func_list
    (TacsFunctions.component
       (TacsFunctions.setup TacsFunctions.initialize Mock.functions_job 0
          ([StructuralMass; Other 2%Z; StructuralMass; Other 3%Z],
           Mock.mesh 2 4, 1, (), ())))
  = [Other 2%Z; Other 3%Z].
Proof.
  exact (proj1 (functions_setup_splits_mass Mock.functions_job 0
                  [StructuralMass; Other 2%Z; StructuralMass; Other 3%Z]
                  (Mock.mesh 2 4) 1 () ())).
Defined.

(** The function values at the displaced state: the states total [9]
    once the first is held. *)
Lemma compute_stores_functions_witness :
  TacsFunctions.outputs
    (TacsFunctions.compute Mock.displaced Mock.functions_world).1
    !! "f_struct" = Some [18; 27]%Z ∧
  TacsFunctions.outputs
    (TacsFunctions.compute Mock.displaced Mock.functions_world).1
    !! "mass" = Some [2%Z].
Proof.
  destruct (compute_stores_functions mock_engine_shapes Mock.displaced
              Mock.at_rest Mock.functions_world
              (mock_functions_shaped _ (or_intror eq_refl)))
    as (_ & Hfuncs & Hmass & _).
  split.
  - etrans; [exact Hfuncs|]. vm_compute. reflexivity.
  - etrans; [exact Hmass|]. vm_compute. reflexivity.
Defined.

Lemma jacvec_product_forward_gate_witness :
  TacsFunctions.compute_jacvec_product Mock.displaced Mock.seed_funcs
    mode_fwd Mock.functions_world
  = (Mock.functions_world, Ok ()).
Proof.
  refine (jacvec_product_forward_gate Mock.displaced Mock.seed_funcs
            mode_fwd Mock.functions_world _).
  discriminate.
Defined.

Lemma jacvec_product_keeps_shapes_witness :
  same_shape
    (TacsFunctions.d_inputs
       (TacsFunctions.compute_jacvec_product Mock.displaced
          Mock.seed_funcs mode_rev Mock.functions_world).1)
    (TacsFunctions.d_inputs Mock.functions_world).
Proof.
  exact (proj1 (proj2 (jacvec_product_keeps_shapes mock_engine_shapes
                         mock_kernels_overwrite Mock.displaced
                         Mock.seed_funcs Mock.functions_world
                         (mock_functions_shaped _ (or_intror eq_refl))
                         mock_seed_funcs_shaped))).
Defined.

(** Seeds [1] and [2] on the functionals [2 * total] and [3 * total]:
    every state receives [1 * 2 + 2 * 3 = 8]. *)
Lemma jacvec_product_state_seed_witness :
  TacsFunctions.d_inputs
    (TacsFunctions.compute_jacvec_product Mock.displaced Mock.seed_funcs
       mode_rev Mock.functions_world).1 !! "u_s"
  = Some [9; 8; 8; 8; 8; 8; 8; 8]%Z.
Proof.
  etrans; [exact (jacvec_product_state_seed mock_engine_shapes
                    mock_kernels_overwrite Mock.displaced Mock.seed_funcs
                    Mock.functions_world [1; 2]%Z
                    [1; 0; 0; 0; 0; 0; 0; 0]%Z
                    (mock_functions_shaped _ (or_intror eq_refl))
                    mock_seed_funcs_shaped
                    (proj1 (proj2 (proj2 (proj2 cases_lookups))))
                    (proj2 (proj2 (proj2 (proj2 cases_lookups)))))|].
  vm_compute. reflexivity.
Defined.

(** Two nodes with four states each: the load function is called with
    [ndof = 4]. *)
Lemma prescribed_load_after_setup_witness :
  ∃ d, PrescribedLoad.setup Mock.load_job 0 (Mock.mesh 2 4) = Ok d ∧
    PrescribedLoad.compute Cases.unit_load [0; 0; 0; 1; 0; 0]%Z
      (PrescribedLoad.component d, PrescribedLoad.outputs_decl d)
    = ((PrescribedLoad.component d, <["f_s" := replicate 8 1%Z]> ∅),
       Ok ()).
Proof.
  destruct (@prescribed_load_after_setup Mock.scalar Mock.load_job 0
              (Mock.mesh 2 4) Cases.unit_load [0; 0; 0; 1; 0; 0]%Z 2 4)
    as (d & Hd & _ & Hstore & _).
  - lia.
  - reflexivity.
  - reflexivity.
  - exists d. split; [exact Hd|]. apply Hstore. reflexivity.
Defined.
End further_runs.

(** ** Components set up on the same mesh *)

Section connections.
Context `{TacsEngine}.

(** The four components, set up on the same mesh, declare matching
    shapes for the variables they exchange: the ['x_s0'] that [TacsMesh]
    produces has the shape of the ['x_s0'] input of [TacsSolver],
    [TacsFunctions] and [PrescribedLoad]; the ['f_s'] that
    [PrescribedLoad] produces has the shape of the ['f_s'] input of
    [TacsSolver]; and the ['u_s'] that [TacsSolver] produces has the
    shape of the ['u_s'] input of [TacsFunctions].  Feeding the output of
    [TacsMesh.compute] to the solver's update step leaves the nodes of
    the assembler where they are. *)
Theorem connections_match flags fflags
    (sjob : list (Tacs * Mat * PC * nat))
    (fjob : list (list (Func OtherFunc) * Tacs * nat * Mat * PC))
    (ljob : list Tacs) (r : nat) (t : Tacs) (m : Mat) (p : PC)
    (ndv : nat) (fs : list (Func OtherFunc)) :
  node_size t ≠ 0 →
  ∃ ds dl,
    TacsSolver.setup flags sjob r (t, m, p, ndv) = Ok ds ∧
    PrescribedLoad.setup ljob r t = Ok dl ∧
    let dm := TacsMesh.setup t in
    let df := TacsFunctions.setup fflags fjob r (fs, t, ndv, m, p) in
    let x := length <$> TacsMesh.outputs_decl dm !! "x_s0" in
    shape <$> TacsSolver.inputs_decl ds !! "x_s0" = x ∧
    shape <$> TacsFunctions.inputs_decl df !! "x_s0" = x ∧
    shape <$> PrescribedLoad.inputs_decl dl !! "x_s0" = x ∧
    shape <$> TacsSolver.inputs_decl ds !! "f_s"
    = length <$> PrescribedLoad.outputs_decl dl !! "f_s" ∧
    shape <$> TacsFunctions.inputs_decl df !! "u_s"
    = length <$> TacsSolver.outputs_decl ds !! "u_s" ∧
    (∀ (inputs : TacsSolver.Inputs) (u : list F) s',
       TacsSolver.x_s0 inputs = TacsMesh.xpts (TacsMesh.component dm) →
       TacsSolver._update_internal inputs (Some u)
         (TacsSolver.component ds) = (s', Ok ()) →
       xpts (TacsSolver.tacs s') = xpts t).
Proof.
  intros Hn.
  destruct (solver_setup_component flags sjob r t m p ndv Hn)
    as (ds & Hds & Ht & _ & _ & _ & _ & Ha & _ & _ & _ & _ & _ & _
        & Hpf & Hpx & _ & Hu).
  exists ds. unfold PrescribedLoad.setup. fold (state_size t) (node_size t).
  rewrite ndof_of_quotient by done.
  cbn [mbind outcome_bind mret outcome_ret].
  eexists. split; [done|]. split; [reflexivity|].
  cbn [PrescribedLoad.inputs_decl PrescribedLoad.outputs_decl].
  unfold TacsFunctions.setup, TacsMesh.setup.
  destruct (foldl _ _ fs) as [[ms outs] rest].
  cbn [TacsFunctions.inputs_decl TacsMesh.outputs_decl
       TacsMesh.component TacsMesh.xpts].
  rewrite Hpx, Hpf, Hu. rewrite !lookup_insert_eq.
  rewrite lookup_insert_ne, lookup_insert_eq by done.
  cbn [fmap option_fmap option_map shape].
  unfold node_size, state_size, getNodes.
  rewrite !length_replicate, np_zeros_length, !createVec_length,
    !createNodeVec_length.
  repeat (split; [reflexivity|]).
  intros inputs u s' Hx Hrun.
  assert (Hl : length (TacsSolver.x_s0 inputs)
               = length (xpts (TacsSolver.tacs (TacsSolver.component ds))))
    by (by rewrite Hx, Ht).
  revert Hrun. unfold TacsSolver._update_internal. unfold_monad.
  cbn [TacsSolver.tacs TacsSolver.set_tacs setDesignVars getNodes xpts].
  rewrite (assign_slice_same _ _ Hl). cbn [xpts setNodes TacsSolver.tacs
    TacsSolver.set_tacs getNodes].
  rewrite assign_slice_same by reflexivity.
  cbn [TacsSolver.ans TacsSolver.set_tacs TacsSolver.set_mat
       TacsSolver.set_pc].
  destruct (assign_slice _ u) as [a|e]; [|done].
  intros [= <-]. cbn. by rewrite Hx.
Qed.
End connections.

Section functions_mass_seed.
Context `{TacsEngine}.
Import TacsFunctions.

(** The sensitivity path of the mass: with a seed on ['mass'] only,
    reverse-mode [compute_jacvec_product] adds to the seed on [dv_struct]
    the design sensitivity [evalDVSens] of the mass functional times the
    seed, and to the seed on [x_s0] its node sensitivity [evalXptSens]
    times the seed; every other input seed stays as it was. *)
Theorem mass_seed_products (HS : EngineShapes) (HK : KernelsOverwrite)
    (inputs : Inputs) (d_outputs : gmap string (list F)) (w : World)
    (g : F) :
  Shaped inputs w →
  d_outputs !! "mass" = Some [g] →
  d_outputs !! "f_struct" = None →
  let at_ := point inputs (self w) in
  let w' := (compute_jacvec_product inputs d_outputs mode_rev w).1 in
  (compute_jacvec_product inputs d_outputs mode_rev w).2 = Ok () ∧
  d_inputs w' !! "dv_struct"
  = (λ o, vadd o (scale (evalDVSens at_ StructuralMass
                           (np_zeros (length o))) g))
    <$> d_inputs w !! "dv_struct" ∧
  d_inputs w' !! "x_s0"
  = (λ o, vadd o (scale (evalXptSens at_ StructuralMass
                           (xpt_sens (self w))) g))
    <$> d_inputs w !! "x_s0" ∧
  (∀ name, name ≠ "dv_struct" → name ≠ "x_s0" →
     d_inputs w' !! name = d_inputs w !! name).
Proof.
  intros Hw Hmass Hfuncs at_ w'. subst w'.
  assert (Hd : SeedShaped d_outputs (self w)).
  { split; intros v Hv; [|congruence].
    rewrite Hmass in Hv. by injection Hv as <-. }
  destruct (jac_run HS HK inputs d_outputs w Hw Hd) as (X & HX & ->).
  cbn [fst snd d_inputs frame]. split; [done|].
  unfold jac_update. rewrite Hmass, Hfuncs. cbn [lookup default].
  fold at_. change (default f0 ([g] !! 0)) with g.
  split; [apply func_update_dv_struct|].
  split; [apply func_update_x_s0|].
  intros name Hdv Hx.
  destruct (decide (name = "u_s")) as [->|Hu].
  - rewrite func_update_u_s. by destruct (d_inputs w !! "u_s").
  - by apply func_update_other.
Qed.
End functions_mass_seed.

Section further_runs2.
#[local] Existing Instance Mock.scalar.
#[local] Existing Instance Mock.engine.

(** The shapes on the two-node mesh, and the nodes of [Cases.wing]
    through the solver's update step. *)
Lemma connections_match_witness :
  ∃ ds dl,
    TacsSolver.setup TacsSolver.initialize Mock.solver_job 0
      (Cases.wing, (), (), 1) = Ok ds ∧
    PrescribedLoad.setup Mock.load_job 0 Cases.wing = Ok dl ∧
    shape <$> TacsSolver.inputs_decl ds !! "x_s0" = Some 6 ∧
    shape <$> TacsSolver.inputs_decl ds !! "f_s"
    = length <$> PrescribedLoad.outputs_decl dl !! "f_s".
Proof.
  destruct (@connections_match Mock.scalar Mock.engine
              TacsSolver.initialize TacsFunctions.initialize
              Mock.solver_job Mock.functions_job Mock.load_job 0
              Cases.wing () () 1 [StructuralMass; Other 2%Z])
    as (ds & dl & Hds & Hdl & Hx & _ & _ & Hf & _).
  - vm_compute. lia.
  - exists ds, dl. split; [exact Hds|]. split; [exact Hdl|].
    split; [|exact Hf]. etrans; [exact Hx|]. reflexivity.
Defined.

(** A seed of [3] on the mass: the design seed [5] becomes [5 + 1 * 3],
    the node seeds stay (the mass of the small engine does not depend on
    the nodes). *)
Lemma mass_seed_products_witness :
  TacsFunctions.d_inputs
    (TacsFunctions.compute_jacvec_product Mock.displaced Mock.seed_mass
       mode_rev Mock.functions_world).1 !! "dv_struct" = Some [8%Z] ∧
  TacsFunctions.d_inputs
    (TacsFunctions.compute_jacvec_product Mock.displaced Mock.seed_mass
       mode_rev Mock.functions_world).1 !! "x_s0"
  = Some [0; 0; 0; 0; 0; 1]%Z.
Proof.
  destruct (mass_seed_products mock_engine_shapes mock_kernels_overwrite
              Mock.displaced Mock.seed_mass Mock.functions_world 3%Z
              (mock_functions_shaped _ (or_intror eq_refl))
              eq_refl
              (proj2 (proj2 (proj2 (proj2 mock_seed_lookups)))))
    as (_ & Hdv & Hx & _).
  split.
  - etrans; [exact Hdv|]. vm_compute. reflexivity.
  - etrans; [exact Hx|]. vm_compute. reflexivity.
Defined.
End further_runs2.
